(** * Clipboard controller: ticket queue, tool registry and event counters

    A shallow embedding of the coordination core of the clipboard
    controller (package [model], [service] and [logger]) and the proofs of
    its safety properties.

    Conventions of the embedding.
    - A [time.Time] is an integer number of nanoseconds counted from the zero
      [time.Time]; a [time.Duration] is an integer number of nanoseconds.
      Every exported method runs under the manager's mutex; the clock
      readings it takes are the single instant [now] passed to it.
    - Tickets are heap objects shared between the queue, the holder slot and
      the id index.  The heap is an arena ([list Ticket.t]); a [*Ticket] is
      an index into it, so that a write through one alias is seen through
      all the others.  Ticket objects are allocated in increasing order of
      address and never freed.
      A ticket object that the manager no longer points to is garbage in
      Go; the arena keeps it only so that addresses stay stable.
    - [uuid.New().String()] is an input of [RequestLock]; executions draw a
      uuid that differs from the ids of the tickets allocated so far.
    - A configured number of seconds becomes a duration by the [int64]
      product [time.Duration(n) * time.Second], which wraps around when
      [n] exceeds 9223372036 in absolute value ([seconds]).  Instants, and
      the durations obtained as differences of instants, are unbounded
      integers.
    - The manager and the registry run with the event logger attached, as
      [main] wires them.  The calls made on the [EventLogger] interface are
      recorded, in order, in the [events] field of the world. *)

From Stdlib Require Import ZArith Lia.
From stdpp Require Import gmap strings list fin_maps sorting.

Set Default Proof Using "Type".

(** ** Machine integers *)

(** Two's complement wrap-around of [int64] and [int32] arithmetic. *)
Definition wrap64 (z : Z) : Z := ((z + 2 ^ 63) mod 2 ^ 64 - 2 ^ 63)%Z.
Definition wrap32 (z : Z) : Z := ((z + 2 ^ 31) mod 2 ^ 32 - 2 ^ 31)%Z.

(** ** Time *)

Definition Second : Z := 1000000000.
Definition Millisecond : Z := 1000000.

(** [time.Duration(n) * time.Second]: a [time.Duration] is an [int64], so
    the product wraps around. *)
Definition seconds (n : Z) : Z := wrap64 (n * Second).

(** [d.Milliseconds()]: integer division truncating toward zero. *)
Definition Milliseconds (d : Z) : Z := (d ÷ Millisecond)%Z.

(** ** package config *)

Record Config := {
  HeartbeatTimeout : Z;
  TicketTTL : Z;
  TicketTTLOnPoll : bool;
  LockMaxDuration : Z;
  LockExtendable : bool;
  LockExtendMax : Z;
  LockGracePeriod : Z
}.

(** [config.Default()] restricted to the fields the core reads. *)
Definition Default : Config := {|
  HeartbeatTimeout := 300;
  TicketTTL := 120;
  TicketTTLOnPoll := true;
  LockMaxDuration := 20;
  LockExtendable := true;
  LockExtendMax := 2;
  LockGracePeriod := 5
|}.

(** ** package model: tickets *)

Module Ticket.

Inductive TicketStatus :=
| TicketStatusWaiting
| TicketStatusGranted
| TicketStatusExpired
| TicketStatusReleased.

#[global] Instance TicketStatus_eq_dec : EqDecision TicketStatus.
Proof. solve_decision. Defined.

Record t := {
  TicketID : string;
  ToolID : string;
  ThreadID : string;
  RequestedAt : Z;
  Status : TicketStatus;
  GrantedAt : Z;
  ExpiresAt : Z;
  LastPollAt : Z;
  ExtendCount : Z
}.

(** [NewTicket]: the id is the freshly drawn uuid. *)
Definition NewTicket (now : Z) (uuid toolID threadID : string) : t := {|
  TicketID := uuid;
  ToolID := toolID;
  ThreadID := threadID;
  RequestedAt := now;
  Status := TicketStatusWaiting;
  GrantedAt := 0;
  ExpiresAt := 0;
  LastPollAt := now;
  ExtendCount := 0
|}.

Definition IsWaiting (x : t) : bool := bool_decide (Status x = TicketStatusWaiting).
Definition IsGranted (x : t) : bool := bool_decide (Status x = TicketStatusGranted).
Definition IsExpired (x : t) : bool := bool_decide (Status x = TicketStatusExpired).
Definition IsReleased (x : t) : bool := bool_decide (Status x = TicketStatusReleased).

Definition Grant (now lockDuration : Z) (x : t) : t := {|
  TicketID := TicketID x;
  ToolID := ToolID x;
  ThreadID := ThreadID x;
  RequestedAt := RequestedAt x;
  Status := TicketStatusGranted;
  GrantedAt := now;
  ExpiresAt := now + lockDuration;
  LastPollAt := LastPollAt x;
  ExtendCount := ExtendCount x
|}.

Definition set_Status (s : TicketStatus) (x : t) : t := {|
  TicketID := TicketID x;
  ToolID := ToolID x;
  ThreadID := ThreadID x;
  RequestedAt := RequestedAt x;
  Status := s;
  GrantedAt := GrantedAt x;
  ExpiresAt := ExpiresAt x;
  LastPollAt := LastPollAt x;
  ExtendCount := ExtendCount x
|}.

Definition Expire : t → t := set_Status TicketStatusExpired.
Definition Release : t → t := set_Status TicketStatusReleased.

Definition UpdatePollTime (now : Z) (x : t) : t := {|
  TicketID := TicketID x;
  ToolID := ToolID x;
  ThreadID := ThreadID x;
  RequestedAt := RequestedAt x;
  Status := Status x;
  GrantedAt := GrantedAt x;
  ExpiresAt := ExpiresAt x;
  LastPollAt := now;
  ExtendCount := ExtendCount x
|}.

(** [time.Now().After(t.ExpiresAt)] *)
Definition IsLockExpired (now : Z) (x : t) : bool :=
  if negb (IsGranted x) then false else bool_decide (ExpiresAt x < now)%Z.

(** [time.Since(t.LastPollAt) > ttl] *)
Definition IsTTLExpired (now ttl : Z) (x : t) : bool :=
  if negb (IsWaiting x) then false else bool_decide (ttl < now - LastPollAt x)%Z.

Definition IsGracePeriodExpired (now gracePeriod : Z) (x : t) : bool :=
  if negb (IsGranted x) then false
  else if bool_decide (LastPollAt x < GrantedAt x)%Z || bool_decide (LastPollAt x = GrantedAt x)
  then bool_decide (gracePeriod < now - GrantedAt x)%Z
  else false.

(** The counter is a Go [int]; it is only incremented below
    [LockExtendMax], so it never wraps. *)
Definition Extend (now extendDuration : Z) (x : t) : t := {|
  TicketID := TicketID x;
  ToolID := ToolID x;
  ThreadID := ThreadID x;
  RequestedAt := RequestedAt x;
  Status := Status x;
  GrantedAt := GrantedAt x;
  ExpiresAt := now + extendDuration;
  LastPollAt := LastPollAt x;
  ExtendCount := ExtendCount x + 1
|}.

Definition WaitDuration (now : Z) (x : t) : Z :=
  if IsGranted x then (GrantedAt x - RequestedAt x)%Z else (now - RequestedAt x)%Z.

Definition HoldDuration (now : Z) (x : t) : Z :=
  if negb (IsGranted x) && negb (IsReleased x) then 0%Z else (now - GrantedAt x)%Z.

Definition Key (x : t) : string := ToolID x +:+ ":" +:+ ThreadID x.

(** A ticket is live while it waits or holds the lock. *)
Definition live (x : t) : bool := IsWaiting x || IsGranted x.

(** The zero value of the struct, read through a pointer that the arena
    does not hold (no reachable world has one). *)
Definition zero : t := {|
  TicketID := ""; ToolID := ""; ThreadID := ""; RequestedAt := 0;
  Status := TicketStatusWaiting; GrantedAt := 0; ExpiresAt := 0;
  LastPollAt := 0; ExtendCount := 0
|}.

#[global] Instance t_inhabited : Inhabited t := populate zero.

End Ticket.


Abbreviation TicketStatusWaiting := Ticket.TicketStatusWaiting.
Abbreviation TicketStatusGranted := Ticket.TicketStatusGranted.
Abbreviation TicketStatusExpired := Ticket.TicketStatusExpired.
Abbreviation TicketStatusReleased := Ticket.TicketStatusReleased.

(** ** package model: tools *)

Module Tool.

Inductive ToolStatus := ToolStatusOnline | ToolStatusOffline.

#[global] Instance ToolStatus_eq_dec : EqDecision ToolStatus.
Proof. solve_decision. Defined.

Record t := {
  ToolID : string;
  RegisteredAt : Z;
  LastHeartbeat : Z;
  Status : ToolStatus
}.

Definition NewTool (now : Z) (toolID : string) : t := {|
  ToolID := toolID;
  RegisteredAt := now;
  LastHeartbeat := now;
  Status := ToolStatusOnline
|}.

Definition IsOnline (x : t) : bool := bool_decide (Status x = ToolStatusOnline).

Definition UpdateHeartbeat (now : Z) (x : t) : t := {|
  ToolID := ToolID x;
  RegisteredAt := RegisteredAt x;
  LastHeartbeat := now;
  Status := ToolStatusOnline
|}.

Definition MarkOffline (x : t) : t := {|
  ToolID := ToolID x;
  RegisteredAt := RegisteredAt x;
  LastHeartbeat := LastHeartbeat x;
  Status := ToolStatusOffline
|}.

Definition IsHeartbeatExpired (now timeout : Z) (x : t) : bool :=
  bool_decide (timeout < now - LastHeartbeat x)%Z.

End Tool.


(** ** The [EventLogger] interface of package service *)

Inductive Event :=
| LogLockRequested (ticketID toolID threadID : string) (queuePosition : Z)
| LogLockGranted (ticketID toolID threadID : string) (waitDurationMs : Z)
| LogLockReleased (ticketID toolID threadID : string) (holdDurationMs : Z)
| LogLockExpired (ticketID toolID threadID reason : string) (holdDurationMs : Z)
| LogLockExtended (ticketID toolID threadID : string) (extendCount : Z)
| LogTicketExpired (ticketID toolID threadID reason : string)
| LogToolRegistered (toolID : string)
| LogToolHeartbeat (toolID : string)
| LogToolOffline (toolID reason : string)
| LogToolUnregistered (toolID : string)
| IncrementRequests
| IncrementErrors.

(** ** package service: errors and state *)

Inductive Error :=
| ErrTicketNotFound
| ErrNotLockHolder
| ErrExtendDisabled
| ErrMaxExtendReached
| ErrToolAlreadyRegistered
| ErrToolNotFound
| ErrToolOffline.

Inductive result (A : Type) :=
| Ok (a : A)
| Err (e : Error).

Arguments Ok {A} a.
Arguments Err {A} e.

(** A [*Ticket]: the address of a ticket object in the arena. *)
Abbreviation ptr := nat.

(** The [ToolRegistry] ([tools]), the [LockManager] ([queue],
    [currentLock], [tickets], [threadKeys]), the ticket objects they point
    to ([heap]) and the calls received by the event logger ([events]). *)
Record World := {
  heap : list Ticket.t;
  queue : list ptr;
  currentLock : option ptr;
  tickets : gmap string ptr;
  threadKeys : gmap string string;
  tools : gmap string Tool.t;
  events : list Event
}.

(** [NewToolRegistry] and [NewLockManager]. *)
Definition init : World := {|
  heap := [];
  queue := [];
  currentLock := None;
  tickets := ∅;
  threadKeys := ∅;
  tools := ∅;
  events := []
|}.

Definition deref (w : World) (p : ptr) : Ticket.t := heap w !!! p.

Definition set_heap (h : list Ticket.t) (w : World) : World := {|
  heap := h; queue := queue w; currentLock := currentLock w;
  tickets := tickets w; threadKeys := threadKeys w; tools := tools w;
  events := events w
|}.

Definition set_queue (q : list ptr) (w : World) : World := {|
  heap := heap w; queue := q; currentLock := currentLock w;
  tickets := tickets w; threadKeys := threadKeys w; tools := tools w;
  events := events w
|}.

Definition set_currentLock (c : option ptr) (w : World) : World := {|
  heap := heap w; queue := queue w; currentLock := c;
  tickets := tickets w; threadKeys := threadKeys w; tools := tools w;
  events := events w
|}.

Definition set_tickets (m : gmap string ptr) (w : World) : World := {|
  heap := heap w; queue := queue w; currentLock := currentLock w;
  tickets := m; threadKeys := threadKeys w; tools := tools w;
  events := events w
|}.

Definition set_threadKeys (m : gmap string string) (w : World) : World := {|
  heap := heap w; queue := queue w; currentLock := currentLock w;
  tickets := tickets w; threadKeys := m; tools := tools w;
  events := events w
|}.

Definition set_tools (m : gmap string Tool.t) (w : World) : World := {|
  heap := heap w; queue := queue w; currentLock := currentLock w;
  tickets := tickets w; threadKeys := threadKeys w; tools := m;
  events := events w
|}.

(** A call on the event logger. *)
Definition emit (e : Event) (w : World) : World := {|
  heap := heap w; queue := queue w; currentLock := currentLock w;
  tickets := tickets w; threadKeys := threadKeys w; tools := tools w;
  events := events w ++ [e]
|}.

(** A method call through a ticket pointer: [p.f()]. *)
Definition update (p : ptr) (f : Ticket.t → Ticket.t) (w : World) : World :=
  set_heap (alter f p (heap w)) w.

(** ** package service: the tool registry *)

Definition Register (now : Z) (toolID : string) (w : World) : World * result Tool.t :=
  match tools w !! toolID with
  | Some existing =>
      if Tool.IsOnline existing then (w, Err ErrToolAlreadyRegistered)
      else
        let existing' := Tool.UpdateHeartbeat now existing in
        (emit (LogToolRegistered toolID) (set_tools (<[toolID := existing']> (tools w)) w),
         Ok existing')
  | None =>
      let tool := Tool.NewTool now toolID in
      (emit (LogToolRegistered toolID) (set_tools (<[toolID := tool]> (tools w)) w),
       Ok tool)
  end.

Definition Heartbeat (now : Z) (toolID : string) (w : World) : World * result Tool.t :=
  match tools w !! toolID with
  | None => (w, Err ErrToolNotFound)
  | Some tool =>
      let tool' := Tool.UpdateHeartbeat now tool in
      (emit (LogToolHeartbeat toolID) (set_tools (<[toolID := tool']> (tools w)) w),
       Ok tool')
  end.

Definition Unregister (toolID : string) (w : World) : World * result Tool.t :=
  match tools w !! toolID with
  | None => (w, Err ErrToolNotFound)
  | Some tool =>
      let tool' := Tool.MarkOffline tool in
      (emit (LogToolUnregistered toolID) (set_tools (<[toolID := tool']> (tools w)) w),
       Ok tool')
  end.

Definition IsOnline (toolID : string) (w : World) : bool :=
  match tools w !! toolID with
  | None => false
  | Some tool => Tool.IsOnline tool
  end.

(** The tools that [CheckAndMarkOffline] takes offline. *)
Definition heartbeat_lost (now timeout : Z) (tool : Tool.t) : bool :=
  Tool.IsOnline tool && Tool.IsHeartbeatExpired now timeout tool.

(** [CheckAndMarkOffline] ranges over a Go map, whose iteration order is
    unspecified; the returned ids are listed here in the order of
    [map_to_list].  The effect on the registry does not depend on the
    order. *)
Definition CheckAndMarkOffline (cfg : Config) (now : Z) (w : World) : World * list string :=
  let timeout := seconds (HeartbeatTimeout cfg) in
  let offlineTools :=
    (map_to_list (filter (λ kv, heartbeat_lost now timeout kv.2 = true) (tools w))).*1 in
  let mark tool := if heartbeat_lost now timeout tool then Tool.MarkOffline tool else tool in
  (foldl (λ w' toolID, emit (LogToolOffline toolID "heartbeat_timeout") w')
         (set_tools (mark <$> tools w) w) offlineTools,
   offlineTools).

(** ** package service: the lock manager *)

(** The loop of [getQueuePosition]: [i] is the index of the head of [q]. *)
Fixpoint queueIndex (w : World) (ticketID : string) (q : list ptr) (i : Z) : Z :=
  match q with
  | [] => (-1)%Z
  | p :: q' =>
      if bool_decide (Ticket.TicketID (deref w p) = ticketID) then (i + 1)%Z
      else queueIndex w ticketID q' (i + 1)%Z
  end.

Definition isCurrentLock (ticketID : string) (w : World) : bool :=
  match currentLock w with
  | Some h => bool_decide (Ticket.TicketID (deref w h) = ticketID)
  | None => false
  end.

Definition getQueuePosition (ticketID : string) (w : World) : Z :=
  if isCurrentLock ticketID w then 0%Z
  else queueIndex w ticketID (queue w) 0%Z.

Definition cleanupTicket (p : ptr) (w : World) : World :=
  let ticket := deref w p in
  set_threadKeys (delete (Ticket.Key ticket) (threadKeys w))
    (set_tickets (delete (Ticket.TicketID ticket) (tickets w)) w).

Definition tryGrantNext (cfg : Config) (now : Z) (w : World) : World :=
  match currentLock w with
  | Some _ => w
  | None =>
      match queue w with
      | [] => w
      | p :: rest =>
          let lockDuration := seconds (LockMaxDuration cfg) in
          let waitDuration := Ticket.WaitDuration now (deref w p) in
          let w1 := set_queue rest w in
          let w2 := update p (Ticket.Grant now lockDuration) w1 in
          let w3 := set_currentLock (Some p) w2 in
          let ticket := deref w3 p in
          emit (LogLockGranted (Ticket.TicketID ticket) (Ticket.ToolID ticket)
                  (Ticket.ThreadID ticket) (Milliseconds waitDuration)) w3
      end
  end.

(** The ticket registered under [key], when it is live. *)
Definition existingTicket (key : string) (w : World) : option ptr :=
  match threadKeys w !! key with
  | Some existingTicketID =>
      match tickets w !! existingTicketID with
      | Some p =>
          let ticket := deref w p in
          if Ticket.IsWaiting ticket || Ticket.IsGranted ticket then Some p else None
      | None => None
      end
  | None => None
  end.

Definition RequestLock (cfg : Config) (now : Z) (uuid toolID threadID : string)
    (w : World) : World * result (ptr * Z) :=
  if negb (IsOnline toolID w) then (w, Err ErrToolOffline)
  else
    let key := toolID +:+ ":" +:+ threadID in
    match existingTicket key w with
    | Some p => (w, Ok (p, getQueuePosition (Ticket.TicketID (deref w p)) w))
    | None =>
        let p := length (heap w) in
        let ticket := Ticket.NewTicket now uuid toolID threadID in
        let w1 := set_heap (heap w ++ [ticket]) w in
        let w2 := set_tickets (<[Ticket.TicketID ticket := p]> (tickets w1)) w1 in
        let w3 := set_threadKeys (<[key := Ticket.TicketID ticket]> (threadKeys w2)) w2 in
        let w4 := set_queue (queue w3 ++ [p]) w3 in
        let position := Z.of_nat (length (queue w4)) in
        let w5 := emit (LogLockRequested (Ticket.TicketID ticket) toolID threadID position) w4 in
        let w6 := tryGrantNext cfg now w5 in
        (w6, Ok (p, getQueuePosition (Ticket.TicketID ticket) w6))
    end.

Definition CheckLock (cfg : Config) (now : Z) (ticketID : string)
    (w : World) : World * result (ptr * Z) :=
  match tickets w !! ticketID with
  | None => (w, Err ErrTicketNotFound)
  | Some p =>
      let w1 :=
        if TicketTTLOnPoll cfg && Ticket.IsWaiting (deref w p)
        then update p (Ticket.UpdatePollTime now) w else w in
      let w2 :=
        if Ticket.IsGranted (deref w1 p)
        then update p (Ticket.UpdatePollTime now) w1 else w1 in
      (w2, Ok (p, getQueuePosition ticketID w2))
  end.

Definition ReleaseLock (cfg : Config) (now : Z) (ticketID : string)
    (w : World) : World * result ptr :=
  match tickets w !! ticketID with
  | None => (w, Err ErrTicketNotFound)
  | Some p =>
      if negb (isCurrentLock ticketID w) then (w, Err ErrNotLockHolder)
      else
        let holdDuration := Ticket.HoldDuration now (deref w p) in
        let w1 := update p Ticket.Release w in
        let w2 := set_currentLock None w1 in
        let w3 := cleanupTicket p w2 in
        let ticket := deref w3 p in
        let w4 := emit (LogLockReleased ticketID (Ticket.ToolID ticket)
                          (Ticket.ThreadID ticket) (Milliseconds holdDuration)) w3 in
        (tryGrantNext cfg now w4, Ok p)
  end.

Definition ExtendLock (cfg : Config) (now : Z) (ticketID : string)
    (w : World) : World * result ptr :=
  if negb (LockExtendable cfg) then (w, Err ErrExtendDisabled)
  else
    match tickets w !! ticketID with
    | None => (w, Err ErrTicketNotFound)
    | Some p =>
        if negb (isCurrentLock ticketID w) then (w, Err ErrNotLockHolder)
        else if bool_decide (LockExtendMax cfg ≤ Ticket.ExtendCount (deref w p))%Z
        then (w, Err ErrMaxExtendReached)
        else
          let extendDuration := seconds (LockMaxDuration cfg) in
          let w1 := update p (Ticket.Extend now extendDuration) w in
          let ticket := deref w1 p in
          (emit (LogLockExtended ticketID (Ticket.ToolID ticket)
                   (Ticket.ThreadID ticket) (Ticket.ExtendCount ticket)) w1,
           Ok p)
    end.

(** The statements shared by [ExpireCurrentLock], [CheckGracePeriod] and
    [CheckLockExpiry] once they have decided to expire the holder [p]. *)
Definition expireHolder (cfg : Config) (now : Z) (reason : string) (p : ptr)
    (w : World) : World :=
  let holdDuration := Ticket.HoldDuration now (deref w p) in
  let w1 := update p Ticket.Expire w in
  let w2 := set_currentLock None w1 in
  let w3 := cleanupTicket p w2 in
  let ticket := deref w3 p in
  let w4 := emit (LogLockExpired (Ticket.TicketID ticket) (Ticket.ToolID ticket)
                    (Ticket.ThreadID ticket) reason (Milliseconds holdDuration)) w3 in
  tryGrantNext cfg now w4.

Definition ExpireCurrentLock (cfg : Config) (now : Z) (reason : string)
    (w : World) : World * option ptr :=
  match currentLock w with
  | None => (w, None)
  | Some p => (expireHolder cfg now reason p w, Some p)
  end.

Definition CheckGracePeriod (cfg : Config) (now : Z) (w : World) : World * option ptr :=
  match currentLock w with
  | None => (w, None)
  | Some p =>
      let gracePeriod := seconds (LockGracePeriod cfg) in
      if Ticket.IsGracePeriodExpired now gracePeriod (deref w p)
      then (expireHolder cfg now "grace_period_expired" p w, Some p)
      else (w, None)
  end.

Definition CheckLockExpiry (cfg : Config) (now : Z) (w : World) : World * option ptr :=
  match currentLock w with
  | None => (w, None)
  | Some p =>
      if Ticket.IsLockExpired now (deref w p)
      then (expireHolder cfg now "max_duration_expired" p w, Some p)
      else (w, None)
  end.

(** The state of the loop of [ExpireWaitingTickets]: the world, the
    [expired] slice and [newQueue]. *)
Definition sweepTicket (now ttl : Z) (acc : World * list ptr * list ptr) (p : ptr)
    : World * list ptr * list ptr :=
  let '(w, expired, newQueue) := acc in
  if Ticket.IsTTLExpired now ttl (deref w p) then
    let w1 := update p Ticket.Expire w in
    let w2 := cleanupTicket p w1 in
    let ticket := deref w2 p in
    let w3 := emit (LogTicketExpired (Ticket.TicketID ticket) (Ticket.ToolID ticket)
                      (Ticket.ThreadID ticket) "ttl_expired") w2 in
    (w3, expired ++ [p], newQueue)
  else (w, expired, newQueue ++ [p]).

Definition ExpireWaitingTickets (cfg : Config) (now : Z) (w : World) : World * list ptr :=
  let ttl := seconds (TicketTTL cfg) in
  let '(w', expired, newQueue) := foldl (sweepTicket now ttl) (w, [], []) (queue w) in
  (set_queue newQueue w', expired).

(** The state of the queue loop of [RemoveToolTickets]: the world, the
    [removed] ids and [newQueue]. *)
Definition removeTicket (toolID : string) (acc : World * list string * list ptr) (p : ptr)
    : World * list string * list ptr :=
  let '(w, removed, newQueue) := acc in
  if bool_decide (Ticket.ToolID (deref w p) = toolID) then
    (cleanupTicket p w, removed ++ [Ticket.TicketID (deref w p)], newQueue)
  else (w, removed, newQueue ++ [p]).

Definition RemoveToolTickets (cfg : Config) (now : Z) (toolID : string)
    (w : World) : World * list string :=
  let '(w1, removed1) :=
    match currentLock w with
    | Some h =>
        if bool_decide (Ticket.ToolID (deref w h) = toolID)
        then (set_currentLock None (cleanupTicket h w), [Ticket.TicketID (deref w h)])
        else (w, [])
    | None => (w, [])
    end in
  let '(w2, removed, newQueue) := foldl (removeTicket toolID) (w1, removed1, []) (queue w1) in
  let w3 := set_queue newQueue w2 in
  if bool_decide (0 < length removed) then (tryGrantNext cfg now w3, removed)
  else (w3, removed).

(** [checkHeartbeats] of the background jobs: the registry sweep followed by
    one [RemoveToolTickets] per tool taken offline. *)
Definition checkHeartbeats (cfg : Config) (now : Z) (w : World) : World :=
  let '(w1, offlineTools) := CheckAndMarkOffline cfg now w in
  foldl (λ w' toolID, (RemoveToolTickets cfg now toolID w').1) w1 offlineTools.

(** ** Executions *)

(** The calls that the handlers and the background jobs make on the
    registry and on the lock manager. *)
Inductive Op :=
| OpRegister (toolID : string)
| OpHeartbeat (toolID : string)
| OpUnregister (toolID : string)
| OpCheckAndMarkOffline
| OpRequestLock (uuid toolID threadID : string)
| OpCheckLock (ticketID : string)
| OpReleaseLock (ticketID : string)
| OpExtendLock (ticketID : string)
| OpExpireCurrentLock (reason : string)
| OpExpireWaitingTickets
| OpCheckGracePeriod
| OpCheckLockExpiry
| OpRemoveToolTickets (toolID : string).

Definition exec (cfg : Config) (now : Z) (op : Op) (w : World) : World :=
  match op with
  | OpRegister toolID => (Register now toolID w).1
  | OpHeartbeat toolID => (Heartbeat now toolID w).1
  | OpUnregister toolID => (Unregister toolID w).1
  | OpCheckAndMarkOffline => (CheckAndMarkOffline cfg now w).1
  | OpRequestLock uuid toolID threadID => (RequestLock cfg now uuid toolID threadID w).1
  | OpCheckLock ticketID => (CheckLock cfg now ticketID w).1
  | OpReleaseLock ticketID => (ReleaseLock cfg now ticketID w).1
  | OpExtendLock ticketID => (ExtendLock cfg now ticketID w).1
  | OpExpireCurrentLock reason => (ExpireCurrentLock cfg now reason w).1
  | OpExpireWaitingTickets => (ExpireWaitingTickets cfg now w).1
  | OpCheckGracePeriod => (CheckGracePeriod cfg now w).1
  | OpCheckLockExpiry => (CheckLockExpiry cfg now w).1
  | OpRemoveToolTickets toolID => (RemoveToolTickets cfg now toolID w).1
  end.

(** The uuid drawn by [NewTicket] differs from the id of every ticket
    allocated so far. *)
Definition freshUUID (op : Op) (w : World) : Prop :=
  match op with
  | OpRequestLock uuid _ _ => ∀ t, t ∈ heap w → Ticket.TicketID t ≠ uuid
  | _ => True
  end.

(** The worlds reached from the initial one; the configuration may be
    patched and the clock read anew between any two calls. *)
Inductive reachable : World → Prop :=
| reachable_init : reachable init
| reachable_step cfg now op w :
    reachable w → freshUUID op w → reachable (exec cfg now op w).

(** ** package logger: the per-minute counters of the event logger *)

(** The counters that are reset every minute and the running maxima; the
    [atomic.Int64] and [atomic.Int32] counters wrap around ([wrap64],
    [wrap32]).  The daily counters, the ring buffer of recent events and
    the per-tool usage table are not read by [GetMinuteMetrics] and are
    left out. *)
Record EventLogger := {
  locksGranted : Z;
  locksReleased : Z;
  locksExpired : Z;
  expiredTickets : Z;
  failedRequests : Z;
  totalWaitTime : Z;
  totalHoldTime : Z;
  waitCount : Z;
  holdCount : Z;
  maxQueueLength : Z;
  maxWaitTime : Z;
  maxHoldTime : Z
}.

Definition NewEventLogger : EventLogger := {|
  locksGranted := 0; locksReleased := 0; locksExpired := 0;
  expiredTickets := 0; failedRequests := 0;
  totalWaitTime := 0; totalHoldTime := 0; waitCount := 0; holdCount := 0;
  maxQueueLength := 0; maxWaitTime := 0; maxHoldTime := 0
|}.

(** The compare-and-swap loop of [updateMaxQueueLength] and its siblings. *)
Definition updateMax (v old : Z) : Z := if bool_decide (v ≤ old)%Z then old else v.

(** The effect of one call of the interface on the counters. *)
Definition record (e : Event) (el : EventLogger) : EventLogger :=
  match e with
  | LogLockRequested _ _ _ queuePosition => {|
      locksGranted := locksGranted el; locksReleased := locksReleased el;
      locksExpired := locksExpired el; expiredTickets := expiredTickets el;
      failedRequests := failedRequests el;
      totalWaitTime := totalWaitTime el; totalHoldTime := totalHoldTime el;
      waitCount := waitCount el; holdCount := holdCount el;
      maxQueueLength := updateMax (wrap32 queuePosition) (maxQueueLength el);
      maxWaitTime := maxWaitTime el; maxHoldTime := maxHoldTime el |}
  | LogLockGranted _ _ _ waitDurationMs => {|
      locksGranted := wrap64 (locksGranted el + 1); locksReleased := locksReleased el;
      locksExpired := locksExpired el; expiredTickets := expiredTickets el;
      failedRequests := failedRequests el;
      totalWaitTime := wrap64 (totalWaitTime el + waitDurationMs);
      totalHoldTime := totalHoldTime el;
      waitCount := wrap64 (waitCount el + 1); holdCount := holdCount el;
      maxQueueLength := maxQueueLength el;
      maxWaitTime := updateMax waitDurationMs (maxWaitTime el);
      maxHoldTime := maxHoldTime el |}
  | LogLockReleased _ _ _ holdDurationMs => {|
      locksGranted := locksGranted el; locksReleased := wrap64 (locksReleased el + 1);
      locksExpired := locksExpired el; expiredTickets := expiredTickets el;
      failedRequests := failedRequests el;
      totalWaitTime := totalWaitTime el;
      totalHoldTime := wrap64 (totalHoldTime el + holdDurationMs);
      waitCount := waitCount el; holdCount := wrap64 (holdCount el + 1);
      maxQueueLength := maxQueueLength el;
      maxWaitTime := maxWaitTime el;
      maxHoldTime := updateMax holdDurationMs (maxHoldTime el) |}
  | LogLockExpired _ _ _ _ _ => {|
      locksGranted := locksGranted el; locksReleased := locksReleased el;
      locksExpired := wrap64 (locksExpired el + 1); expiredTickets := expiredTickets el;
      failedRequests := failedRequests el;
      totalWaitTime := totalWaitTime el; totalHoldTime := totalHoldTime el;
      waitCount := waitCount el; holdCount := holdCount el;
      maxQueueLength := maxQueueLength el;
      maxWaitTime := maxWaitTime el; maxHoldTime := maxHoldTime el |}
  | LogTicketExpired _ _ _ _ => {|
      locksGranted := locksGranted el; locksReleased := locksReleased el;
      locksExpired := locksExpired el; expiredTickets := wrap64 (expiredTickets el + 1);
      failedRequests := failedRequests el;
      totalWaitTime := totalWaitTime el; totalHoldTime := totalHoldTime el;
      waitCount := waitCount el; holdCount := holdCount el;
      maxQueueLength := maxQueueLength el;
      maxWaitTime := maxWaitTime el; maxHoldTime := maxHoldTime el |}
  | IncrementErrors => {|
      locksGranted := locksGranted el; locksReleased := locksReleased el;
      locksExpired := locksExpired el; expiredTickets := expiredTickets el;
      failedRequests := wrap64 (failedRequests el + 1);
      totalWaitTime := totalWaitTime el; totalHoldTime := totalHoldTime el;
      waitCount := waitCount el; holdCount := holdCount el;
      maxQueueLength := maxQueueLength el;
      maxWaitTime := maxWaitTime el; maxHoldTime := maxHoldTime el |}
  | LogLockExtended _ _ _ _
  | LogToolRegistered _
  | LogToolHeartbeat _
  | LogToolOffline _ _
  | LogToolUnregistered _
  | IncrementRequests => el
  end.

Definition recordAll (es : list Event) (el : EventLogger) : EventLogger :=
  foldl (λ el' e, record e el') el es.

Record SystemMetricsLog := {
  Timestamp : Z;
  ActiveTools : Z;
  QueueLength : Z;
  CurrentLockHolder : string;
  LocksGrantedLastMin : Z;
  AvgWaitTimeMs : Z;
  AvgHoldTimeMs : Z;
  ExpiredTickets : Z;
  FailedRequests : Z
}.

Definition GetMinuteMetrics (now : Z) (el : EventLogger) : EventLogger * SystemMetricsLog :=
  let waitCount_ := waitCount el in
  let holdCount_ := holdCount el in
  let totalWait := totalWaitTime el in
  let totalHold := totalHoldTime el in
  let avgWait := if bool_decide (0 < waitCount_)%Z then (totalWait ÷ waitCount_)%Z else 0%Z in
  let avgHold := if bool_decide (0 < holdCount_)%Z then (totalHold ÷ holdCount_)%Z else 0%Z in
  let metrics := {|
    Timestamp := now;
    ActiveTools := 0;
    QueueLength := 0;
    CurrentLockHolder := "";
    LocksGrantedLastMin := locksGranted el;
    AvgWaitTimeMs := avgWait;
    AvgHoldTimeMs := avgHold;
    ExpiredTickets := expiredTickets el;
    FailedRequests := failedRequests el
  |} in
  ({| locksGranted := 0; locksReleased := 0; locksExpired := 0;
      expiredTickets := 0; failedRequests := 0;
      totalWaitTime := 0; totalHoldTime := 0; waitCount := 0; holdCount := 0;
      maxQueueLength := maxQueueLength el;
      maxWaitTime := maxWaitTime el; maxHoldTime := maxHoldTime el |},
   metrics).

(** The metrics collector: the events of each minute are recorded, then
    [GetMinuteMetrics] is called at the instant attached to the minute. *)
Fixpoint collect (minutes : list (list Event * Z)) (el : EventLogger)
    : EventLogger * list SystemMetricsLog :=
  match minutes with
  | [] => (el, [])
  | (es, now) :: rest =>
      let '(el1, m) := GetMinuteMetrics now (recordAll es el) in
      let '(el2, ms) := collect rest el1 in
      (el2, m :: ms)
  end.

(** The number of events of a segment that satisfy [f]. *)
Definition countEvents (f : Event → bool) (es : list Event) : Z :=
  Z.of_nat (length (filter (λ e, f e = true) es)).

Definition isGranted (e : Event) : bool :=
  match e with LogLockGranted _ _ _ _ => true | _ => false end.
Definition isReleased (e : Event) : bool :=
  match e with LogLockReleased _ _ _ _ => true | _ => false end.
Definition isLockExpired (e : Event) : bool :=
  match e with LogLockExpired _ _ _ _ _ => true | _ => false end.
Definition isTicketExpired (e : Event) : bool :=
  match e with LogTicketExpired _ _ _ _ => true | _ => false end.
Definition isError (e : Event) : bool :=
  match e with IncrementErrors => true | _ => false end.

(** ** The representation invariant of the lock manager *)

(** The fields of a ticket that no method changes once it is created. *)
Definition sameIdentity (t1 t2 : Ticket.t) : Prop :=
  Ticket.TicketID t1 = Ticket.TicketID t2 ∧
  Ticket.ToolID t1 = Ticket.ToolID t2 ∧
  Ticket.ThreadID t1 = Ticket.ThreadID t2.

Record wf (w : World) : Prop := {
  (** ticket ids are unique among the allocated tickets *)
  wf_ids : ∀ i j ti tj,
    heap w !! i = Some ti → heap w !! j = Some tj →
    Ticket.TicketID ti = Ticket.TicketID tj → i = j;
  (** the id index holds the holder and the queued tickets, under their
      own id, and each is registered under its own thread key *)
  wf_tickets : ∀ id p,
    tickets w !! id = Some p →
    ∃ t, heap w !! p = Some t ∧ Ticket.TicketID t = id ∧
         threadKeys w !! Ticket.Key t = Some id ∧
         (currentLock w = Some p ∨ p ∈ queue w);
  (** queued tickets are waiting, never extended, and indexed *)
  wf_queue : ∀ p,
    p ∈ queue w →
    ∃ t, heap w !! p = Some t ∧ Ticket.Status t = TicketStatusWaiting ∧
         Ticket.ExtendCount t = 0%Z ∧ tickets w !! Ticket.TicketID t = Some p;
  (** the holder is granted and indexed *)
  wf_holder : ∀ p,
    currentLock w = Some p →
    ∃ t, heap w !! p = Some t ∧ Ticket.Status t = TicketStatusGranted ∧
         (0 ≤ Ticket.ExtendCount t)%Z ∧ tickets w !! Ticket.TicketID t = Some p;
  (** the queue is in order of allocation, and the holder was allocated
      before every queued ticket *)
  wf_sorted : StronglySorted lt (queue w);
  wf_holder_first : ∀ h p, currentLock w = Some h → p ∈ queue w → h < p;
  (** the thread-key index points to indexed tickets with that key *)
  wf_threadKeys : ∀ k id,
    threadKeys w !! k = Some id →
    ∃ p t, tickets w !! id = Some p ∧ heap w !! p = Some t ∧ Ticket.Key t = k;
  (** every ticket was requested by a registered tool *)
  wf_tools : ∀ t, t ∈ heap w → is_Some (tools w !! Ticket.ToolID t)
}.

(** The world after a grant, without the event. *)
Definition granted (cfg : Config) (now : Z) (p : ptr) (rest : list ptr) (w : World) : World :=
  set_currentLock (Some p)
    (update p (Ticket.Grant now (seconds (LockMaxDuration cfg))) (set_queue rest w)).


(** ** Notions used by the statements *)

(** The tickets the manager points to: the holder, the queued tickets and
    the tickets of the id index. *)
Definition managed (w : World) (p : ptr) : Prop :=
  currentLock w = Some p ∨ p ∈ queue w ∨ ∃ id, tickets w !! id = Some p.

Definition terminal (t : Ticket.t) : Prop :=
  Ticket.Status t = TicketStatusReleased ∨ Ticket.Status t = TicketStatusExpired.

(** An execution: the calls with the configuration and the clock reading of
    each, the world it ends in, and the worlds it goes through before the
    last call returns. *)
Definition run (steps : list (Config * Z * Op)) (w : World) : World :=
  foldl (λ w' '(cfg, now, op), exec cfg now op w') w steps.

Fixpoint visited (steps : list (Config * Z * Op)) (w : World) : list World :=
  match steps with
  | [] => []
  | (cfg, now, op) :: rest => w :: visited rest (exec cfg now op w)
  end.

Fixpoint freshUUIDs (steps : list (Config * Z * Op)) (w : World) : Prop :=
  match steps with
  | [] => True
  | (cfg, now, op) :: rest => freshUUID op w ∧ freshUUIDs rest (exec cfg now op w)
  end.

(** Ticket [a] leaves the queue only by being granted: no TTL sweep expires
    it and no [RemoveToolTickets] drops it during the execution. *)
Fixpoint leavesOnlyByGrant (a : ptr) (steps : list (Config * Z * Op)) (w : World) : Prop :=
  match steps with
  | [] => True
  | (cfg, now, op) :: rest =>
      (a ∈ queue w →
       a ∈ queue (exec cfg now op w) ∨ currentLock (exec cfg now op w) = Some a) ∧
      leavesOnlyByGrant a rest (exec cfg now op w)
  end.

(** Ticket [b] is enqueued after ticket [a], which waits in [w]: either it
    stands behind [a] in the queue, or it is not allocated yet. *)
Definition enqueuedAfter (a b : ptr) (w : World) : Prop :=
  (∃ q1 q2 q3, queue w = q1 ++ a :: q2 ++ b :: q3) ∨
  (a ∈ queue w ∧ length (heap w) ≤ b).

(** The decidable form of [freshUUID]. *)
Definition freshUUIDb (op : Op) (w : World) : bool :=
  match op with
  | OpRequestLock uuid _ _ =>
      forallb (λ t, negb (bool_decide (Ticket.TicketID t = uuid))) (heap w)
  | _ => true
  end.

Fixpoint freshUUIDsb (steps : list (Config * Z * Op)) (w : World) : bool :=
  match steps with
  | [] => true
  | (cfg, now, op) :: rest => freshUUIDb op w && freshUUIDsb rest (exec cfg now op w)
  end.

(** Successive [ExtendLock] calls on one ticket at the instants [nows],
    stopping at the first failure; the boolean tells whether all of them
    succeeded. *)
Fixpoint extendAll (cfg : Config) (nows : list Z) (ticketID : string) (w : World)
    : World * bool :=
  match nows with
  | [] => (w, true)
  | now :: rest =>
      match ExtendLock cfg now ticketID w with
      | (w1, Ok _) => extendAll cfg rest ticketID w1
      | (w1, Err _) => (w1, false)
      end
  end.

(** ** Sample executions *)

(** Two tools; A holds the lock, B waits, then B unregisters. *)
Definition unregisterWhileQueued : list (Config * Z * Op) :=
  [ (Default, 0%Z, OpRegister "A");
    (Default, 1%Z, OpRegister "B");
    (Default, 2%Z, OpRequestLock "u1" "A" "t");
    (Default, 3%Z, OpRequestLock "u2" "B" "t");
    (Default, 4%Z, OpUnregister "B") ].

(** Two tools; A keeps sending heartbeats and holds the lock, B sends none
    and waits. *)
Definition silentWhileQueued : list (Config * Z * Op) :=
  [ (Default, 0%Z, OpRegister "A");
    (Default, 0%Z, OpRegister "B");
    (Default, seconds 200, OpHeartbeat "A");
    (Default, seconds 290, OpRequestLock "u1" "A" "t");
    (Default, seconds 295, OpRequestLock "u2" "B" "t") ].

(** One tool whose request is granted at once, at instant 0. *)
Definition grantedAtZero : list (Config * Z * Op) :=
  [ (Default, 0%Z, OpRegister "T1");
    (Default, 0%Z, OpRequestLock "u1" "T1" "th1") ].

(** The TTL test of the sweep on the ticket at [p]: it has not been polled
    for more than [ttl]. *)
Definition stale (now ttl : Z) (w : World) (p : ptr) : Prop :=
  (ttl < now - Ticket.LastPollAt (deref w p))%Z.

#[global] Instance stale_dec now ttl w p : Decision (stale now ttl w p).
Proof. unfold stale. apply _. Defined.

(** ** Holder-side accounting *)

Definition holderCount (w : World) : Z :=
  match currentLock w with Some _ => 1%Z | None => 0%Z end.

(** Grants recorded so far that are matched neither by a release, nor by a
    lock expiry, nor by the present holder. *)
Definition balance (w : World) : Z :=
  (countEvents isGranted (events w) - countEvents isReleased (events w)
   - countEvents isLockExpired (events w) - holderCount w)%Z.

(** [RemoveToolTickets] drops the holder without any call on the logger. *)
Definition dropsHolder (op : Op) (w : World) : Z :=
  match op with
  | OpRemoveToolTickets toolID =>
      match currentLock w with
      | Some h => if bool_decide (Ticket.ToolID (deref w h) = toolID) then 1%Z else 0%Z
      | None => 0%Z
      end
  | _ => 0%Z
  end.

Fixpoint droppedHolders (steps : list (Config * Z * Op)) (w : World) : Z :=
  match steps with
  | [] => 0%Z
  | (cfg, now, op) :: rest =>
      (dropsHolder op w + droppedHolders rest (exec cfg now op w))%Z
  end.

(** Tool A registers and sends no heartbeat; after 290 s it is granted the
    lock and polls it; the grace-period and expiry checks find nothing to
    expire; one second past the heartbeat timeout the heartbeat sweep takes
    A offline and removes its tickets. *)
Definition heartbeatLost : list (Config * Z * Op) :=
  [ (Default, 0%Z, OpRegister "A");
    (Default, seconds 290, OpRequestLock "u1" "A" "t");
    (Default, seconds 291, OpCheckLock "u1");
    (Default, seconds 300, OpCheckGracePeriod);
    (Default, seconds 300, OpCheckLockExpiry);
    (Default, seconds 301, OpCheckAndMarkOffline);
    (Default, seconds 301, OpRemoveToolTickets "A") ].

(** What a snapshot says about the events of its minute. *)
Definition reports (minute : list Event * Z) (m : SystemMetricsLog) : Prop :=
  Timestamp m = minute.2 ∧
  LocksGrantedLastMin m = wrap64 (countEvents isGranted minute.1) ∧
  ExpiredTickets m = wrap64 (countEvents isTicketExpired minute.1) ∧
  FailedRequests m = wrap64 (countEvents isError minute.1).

(** After [unregisterWhileQueued], A releases the lock. *)
Definition releaseAfterUnregister : list (Config * Z * Op) :=
  unregisterWhileQueued ++ [ (Default, 5%Z, OpReleaseLock "u1") ].

Definition registeredT1 : list (Config * Z * Op) :=
  [ (Default, 0%Z, OpRegister "T1") ].

(** C holds the lock and A waits behind it. *)
Definition holderAndWaiter : list (Config * Z * Op) :=
  [ (Default, 0%Z, OpRegister "A");
    (Default, 0%Z, OpRegister "B");
    (Default, 0%Z, OpRegister "C");
    (Default, 1%Z, OpRequestLock "u0" "C" "t");
    (Default, 2%Z, OpRequestLock "u1" "A" "t") ].

(** B requests the lock, then C and A release it in turn. *)
Definition requestThenReleases : list (Config * Z * Op) :=
  [ (Default, 3%Z, OpRequestLock "u2" "B" "t");
    (Default, 4%Z, OpReleaseLock "u0");
    (Default, 5%Z, OpReleaseLock "u1") ].

(** A holds the lock; B has been waiting since instant 0 and C since the
    hundredth second. *)
Definition staleAndFresh : list (Config * Z * Op) :=
  [ (Default, 0%Z, OpRegister "A");
    (Default, 0%Z, OpRegister "B");
    (Default, 0%Z, OpRegister "C");
    (Default, 0%Z, OpRequestLock "u1" "A" "t");
    (Default, 0%Z, OpRequestLock "u2" "B" "t");
    (Default, seconds 100, OpRequestLock "u3" "C" "t") ].

(** ** The rest of the ticket, registry and manager interface *)

(** [Ticket.RemainingTime] *)
Definition RemainingTime (now : Z) (x : Ticket.t) : Z :=
  if negb (Ticket.IsGranted x) then 0%Z
  else
    let remaining := (Ticket.ExpiresAt x - now)%Z in
    if bool_decide (remaining < 0)%Z then 0%Z else remaining.

Definition GetTool (toolID : string) (w : World) : result Tool.t :=
  match tools w !! toolID with
  | None => Err ErrToolNotFound
  | Some tool => Ok tool
  end.

(** [CountOnlineTools]: the loop adds one per online tool, in whatever order
    the map is ranged over. *)
Definition CountOnlineTools (w : World) : nat :=
  length (filter (λ kv, Tool.IsOnline kv.2 = true) (map_to_list (tools w))).

Definition GetHeartbeatDeadline (cfg : Config) (toolID : string) (w : World) : result Z :=
  match tools w !! toolID with
  | None => Err ErrToolNotFound
  | Some tool => Ok (Tool.LastHeartbeat tool + seconds (HeartbeatTimeout cfg))%Z
  end.

(** [QueueLength] of the lock manager (the name is also that of a field of
    the metrics record). *)
Module LockManager.

Definition QueueLength (w : World) : nat := length (queue w).

End LockManager.

(** The holder followed by the queue: the tickets in the order in which
    they are served. *)
Definition line (w : World) : list ptr :=
  match currentLock w with
  | Some h => h :: queue w
  | None => queue w
  end.

Definition toolOf (w : World) (p : ptr) : string := Ticket.ToolID (deref w p).

(** ** The life of a ticket object *)

(** What one call made with configuration [cfg] at instant [now] can do to
    a ticket object: nothing, or one of the methods [UpdatePollTime],
    [Extend], [Grant], [Release] and [Expire], each on a ticket in the
    status in which the manager invokes it ([Extend] only while extensions
    are enabled and the counter is below [lock_extend_max]). *)
Inductive ticketStep (cfg : Config) (now : Z) : Ticket.t → Ticket.t → Prop :=
| step_same t : ticketStep cfg now t t
| step_poll t :
    Ticket.live t = true → ticketStep cfg now t (Ticket.UpdatePollTime now t)
| step_extend t :
    Ticket.Status t = TicketStatusGranted →
    LockExtendable cfg = true →
    (Ticket.ExtendCount t < LockExtendMax cfg)%Z →
    ticketStep cfg now t (Ticket.Extend now (seconds (LockMaxDuration cfg)) t)
| step_grant t :
    Ticket.Status t = TicketStatusWaiting →
    ticketStep cfg now t (Ticket.Grant now (seconds (LockMaxDuration cfg)) t)
| step_release t :
    Ticket.Status t = TicketStatusGranted → ticketStep cfg now t (Ticket.Release t)
| step_expire t :
    Ticket.live t = true → ticketStep cfg now t (Ticket.Expire t).

(** The rank of a status in the life cycle waiting, granted, terminal. *)
Definition statusRank (s : Ticket.TicketStatus) : nat :=
  match s with
  | TicketStatusWaiting => 0
  | TicketStatusGranted => 1
  | TicketStatusExpired | TicketStatusReleased => 2
  end.

(** ** The heartbeat sweep *)

(** Whether the sweep of [CheckAndMarkOffline] at [now] takes the tool
    registered under [toolID] offline. *)
Definition lost (cfg : Config) (now : Z) (w : World) (toolID : string) : bool :=
  match tools w !! toolID with
  | Some tool => heartbeat_lost now (seconds (HeartbeatTimeout cfg)) tool
  | None => false
  end.

(** ** package logger: the buffer of recent lock events *)

Module LockEventLog.

(** Instants are offsets from the zero [time.Time], as for tickets: the
    zero value of the struct has [Timestamp] 0. *)
Record t := {
  Timestamp : Z;
  EventType : string;
  RequestID : string;
  TicketID : string;
  ToolID : string;
  ThreadID : string;
  QueuePosition : Z;
  QueueLength : Z;
  WaitDurationMs : Z;
  HoldDurationMs : Z;
  Reason : string
}.

Definition zero : t := {|
  Timestamp := 0; EventType := ""; RequestID := ""; TicketID := "";
  ToolID := ""; ThreadID := ""; QueuePosition := 0; QueueLength := 0;
  WaitDurationMs := 0; HoldDurationMs := 0; Reason := ""
|}.

#[global] Instance t_inhabited : Inhabited t := populate zero.

(** [Timestamp.IsZero()] *)
Definition IsZero (x : t) : bool := bool_decide (Timestamp x = 0%Z).

End LockEventLog.

Definition recentEventsBufferSize : nat := 100.

(** The circular buffer of the event logger: the slice and the index of the
    slot written next. *)
Record RecentEvents := {
  recentEvents : list LockEventLog.t;
  recentEventIdx : nat
}.

(** The buffer as [NewEventLogger] makes it: all slots hold the zero
    struct. *)
Definition NewRecentEvents : RecentEvents := {|
  recentEvents := replicate recentEventsBufferSize LockEventLog.zero;
  recentEventIdx := 0
|}.

Definition addToRecentEvents (event : LockEventLog.t) (el : RecentEvents) : RecentEvents := {|
  recentEvents := <[recentEventIdx el := event]> (recentEvents el);
  recentEventIdx := (recentEventIdx el + 1) mod recentEventsBufferSize
|}.

(** The loop of [GetRecentEvents] with [n] iterations left, reading slot
    [idx].  The index is stepped as [(idx - 1 + size) % size]; the sum is
    written with the addition first because subtraction on [nat]
    truncates. *)
Fixpoint recentLoop (slots : list LockEventLog.t) (n idx : nat) : list LockEventLog.t :=
  match n with
  | 0 => []
  | S n' =>
      let event := slots !!! idx in
      if LockEventLog.IsZero event then []
      else event ::
           recentLoop slots n' ((idx + recentEventsBufferSize - 1) mod recentEventsBufferSize)
  end.

(** [GetRecentEvents]; [None] stands for the panic of [make] on a negative
    capacity. *)
Definition GetRecentEvents (limit : Z) (el : RecentEvents) : option (list LockEventLog.t) :=
  let limit :=
    if bool_decide (Z.of_nat recentEventsBufferSize < limit)%Z
    then Z.of_nat recentEventsBufferSize else limit in
  if bool_decide (limit < 0)%Z then None
  else
    Some (recentLoop (recentEvents el) (Z.to_nat limit)
            ((recentEventIdx el + recentEventsBufferSize - 1) mod recentEventsBufferSize)).

(** The buffer after the events [es] have been added, oldest first. *)
Definition addAll (es : list LockEventLog.t) (el : RecentEvents) : RecentEvents :=
  foldl (λ el' e, addToRecentEvents e el') el es.

(** Two lock events, the older first. *)
Definition sampleEvents : list LockEventLog.t :=
  [ {| LockEventLog.Timestamp := 1; LockEventLog.EventType := "lock_requested";
       LockEventLog.RequestID := ""; LockEventLog.TicketID := "u1";
       LockEventLog.ToolID := "A"; LockEventLog.ThreadID := "t";
       LockEventLog.QueuePosition := 1; LockEventLog.QueueLength := 1;
       LockEventLog.WaitDurationMs := 0; LockEventLog.HoldDurationMs := 0;
       LockEventLog.Reason := "" |};
    {| LockEventLog.Timestamp := 2; LockEventLog.EventType := "lock_granted";
       LockEventLog.RequestID := ""; LockEventLog.TicketID := "u1";
       LockEventLog.ToolID := "A"; LockEventLog.ThreadID := "t";
       LockEventLog.QueuePosition := 0; LockEventLog.QueueLength := 0;
       LockEventLog.WaitDurationMs := 0; LockEventLog.HoldDurationMs := 0;
       LockEventLog.Reason := "" |} ].

(** ** package logger: the per-tool usage table and the top tools *)

Module toolStats.

Record t := {
  lockCount : Z;
  totalWaitTime : Z;
  totalHoldTime : Z
}.

Definition zero : t := {| lockCount := 0; totalWaitTime := 0; totalHoldTime := 0 |}.

#[global] Instance t_inhabited : Inhabited t := populate zero.

End toolStats.

Module ToolUsage.

Record t := {
  ToolID : string;
  LockCount : Z;
  AvgWaitMs : Z;
  AvgHoldMs : Z
}.

End ToolUsage.

(** [updateToolUsage]: the three fields are [int64]. *)
Definition updateToolUsage (toolID : string) (holdTime waitTime : Z)
    (toolUsage : gmap string toolStats.t) : gmap string toolStats.t :=
  let stats := default toolStats.zero (toolUsage !! toolID) in
  <[toolID := {|
      toolStats.lockCount := wrap64 (toolStats.lockCount stats + 1);
      toolStats.totalWaitTime := wrap64 (toolStats.totalWaitTime stats + waitTime);
      toolStats.totalHoldTime := wrap64 (toolStats.totalHoldTime stats + holdTime)
    |}]> toolUsage.

(** The effect of a call of the interface on the usage table: only
    [LogLockReleased] calls [updateToolUsage], with a wait time of 0. *)
Definition recordUsage (e : Event) (toolUsage : gmap string toolStats.t)
    : gmap string toolStats.t :=
  match e with
  | LogLockReleased _ toolID _ holdDurationMs =>
      updateToolUsage toolID holdDurationMs 0 toolUsage
  | _ => toolUsage
  end.

Definition usageAfter (es : list Event) : gmap string toolStats.t :=
  foldl (λ toolUsage e, recordUsage e toolUsage) ∅ es.

(** An entry of the slice that [getTopTools] sorts. *)
Abbreviation toolEntry := (string * toolStats.t)%type.

(** The body of the inner loop of the sort: [entries[i]] and [entries[j]]
    are exchanged when the latter has the larger lock count. *)
Definition swapIfMore (i j : nat) (entries : list toolEntry) : list toolEntry :=
  let ei := entries !!! i in
  let ej := entries !!! j in
  if bool_decide (toolStats.lockCount ei.2 < toolStats.lockCount ej.2)%Z
  then <[j := ei]> (<[i := ej]> entries)
  else entries.

(** The two nested loops: [i] from 0 to [len - 2], [j] from [i + 1] to
    [len - 1]. *)
Definition sortByLockCount (entries : list toolEntry) : list toolEntry :=
  let len := length entries in
  foldl (λ es i, foldl (λ es' j, swapIfMore i j es') es (seq (i + 1) (len - (i + 1))))
        entries (seq 0 (len - 1)).

Definition toUsage (e : toolEntry) : ToolUsage.t :=
  let stats := e.2 in
  let positive := bool_decide (0 < toolStats.lockCount stats)%Z in
  {| ToolUsage.ToolID := e.1;
     ToolUsage.LockCount := toolStats.lockCount stats;
     ToolUsage.AvgWaitMs :=
       if positive then (toolStats.totalWaitTime stats ÷ toolStats.lockCount stats)%Z else 0%Z;
     ToolUsage.AvgHoldMs :=
       if positive then (toolStats.totalHoldTime stats ÷ toolStats.lockCount stats)%Z else 0%Z |}.

(** [getTopTools]: the map is ranged over in the order of [map_to_list]
    (Go leaves the order unspecified); [None] stands for the panic of the
    slice expression [entries[:limit]] on a negative limit. *)
Definition getTopTools (limit : Z) (toolUsage : gmap string toolStats.t)
    : option (list ToolUsage.t) :=
  let entries := sortByLockCount (map_to_list toolUsage) in
  if bool_decide (limit < Z.of_nat (length entries))%Z then
    if bool_decide (limit < 0)%Z then None
    else Some (toUsage <$> take (Z.to_nat limit) entries)
  else Some (toUsage <$> entries).

(** The releases of a tool among the events. *)
Definition isReleaseOf (toolID : string) (e : Event) : bool :=
  match e with
  | LogLockReleased _ toolID' _ _ => bool_decide (toolID' = toolID)
  | _ => false
  end.

Definition holdOf (e : Event) : Z :=
  match e with
  | LogLockReleased _ _ _ holdDurationMs => holdDurationMs
  | _ => 0%Z
  end.

(** Three releases by A (two) and B (one), a grant and a lock expiry. *)
Definition sampleDay : list Event :=
  [ LogLockGranted "u1" "A" "t" 5;
    LogLockReleased "u1" "A" "t" 40;
    LogLockReleased "u2" "B" "t" 10;
    LogLockExpired "u3" "B" "t" "max_duration_expired" 20000;
    LogLockReleased "u4" "A" "t" 20 ].

(** ** package logger: the daily counters and the daily summary *)

(** The counters that are reset at midnight, with the usage table. *)
Record Daily := {
  dailyRequests : Z;
  dailyLocksGranted : Z;
  dailyLocksReleased : Z;
  dailyLocksExpired : Z;
  dailyToolsRegistered : Z;
  dailyErrors : Z;
  dailyTotalWaitTime : Z;
  dailyTotalHoldTime : Z;
  dailyWaitCount : Z;
  dailyHoldCount : Z;
  dailyMaxQueueLength : Z;
  dailyMaxWaitTime : Z;
  dailyMaxHoldTime : Z;
  toolUsage : gmap string toolStats.t
}.

Definition NewDaily : Daily := {|
  dailyRequests := 0; dailyLocksGranted := 0; dailyLocksReleased := 0;
  dailyLocksExpired := 0; dailyToolsRegistered := 0; dailyErrors := 0;
  dailyTotalWaitTime := 0; dailyTotalHoldTime := 0;
  dailyWaitCount := 0; dailyHoldCount := 0;
  dailyMaxQueueLength := 0; dailyMaxWaitTime := 0; dailyMaxHoldTime := 0;
  toolUsage := ∅
|}.

Definition isRequest (e : Event) : bool :=
  match e with IncrementRequests => true | _ => false end.
Definition isRegistered (e : Event) : bool :=
  match e with LogToolRegistered _ => true | _ => false end.

(** The value that a call hands to [updateMaxWaitTime], to
    [updateMaxHoldTime] and (converted to [int32]) to
    [updateMaxQueueLength]. *)
Definition waitOf (e : Event) : option Z :=
  match e with LogLockGranted _ _ _ waitDurationMs => Some waitDurationMs | _ => None end.
Definition heldOf (e : Event) : option Z :=
  match e with LogLockReleased _ _ _ holdDurationMs => Some holdDurationMs | _ => None end.
Definition queueLengthOf (e : Event) : option Z :=
  match e with LogLockRequested _ _ _ queuePosition => Some (wrap32 queuePosition) | _ => None end.

Definition bump (b : bool) (counter : Z) : Z :=
  if b then wrap64 (counter + 1) else counter.
Definition addTo (v : option Z) (total : Z) : Z :=
  match v with Some ms => wrap64 (total + ms) | None => total end.
Definition maxWith (v : option Z) (old : Z) : Z :=
  match v with Some x => updateMax x old | None => old end.

(** The effect of one call of the interface on the daily side of the
    logger, field by field: [LogLockGranted] counts a grant and a wait,
    [LogLockReleased] a release and a hold, [LogLockExpired] a lock
    expiry, [LogToolRegistered] a registration; [LogTicketExpired],
    [LogLockExtended] and the other tool events touch no daily counter. *)
Definition recordDaily (e : Event) (d : Daily) : Daily := {|
  dailyRequests := bump (isRequest e) (dailyRequests d);
  dailyLocksGranted := bump (isGranted e) (dailyLocksGranted d);
  dailyLocksReleased := bump (isReleased e) (dailyLocksReleased d);
  dailyLocksExpired := bump (isLockExpired e) (dailyLocksExpired d);
  dailyToolsRegistered := bump (isRegistered e) (dailyToolsRegistered d);
  dailyErrors := bump (isError e) (dailyErrors d);
  dailyTotalWaitTime := addTo (waitOf e) (dailyTotalWaitTime d);
  dailyTotalHoldTime := addTo (heldOf e) (dailyTotalHoldTime d);
  dailyWaitCount := bump (isGranted e) (dailyWaitCount d);
  dailyHoldCount := bump (isReleased e) (dailyHoldCount d);
  dailyMaxQueueLength := maxWith (queueLengthOf e) (dailyMaxQueueLength d);
  dailyMaxWaitTime := maxWith (waitOf e) (dailyMaxWaitTime d);
  dailyMaxHoldTime := maxWith (heldOf e) (dailyMaxHoldTime d);
  toolUsage := recordUsage e (toolUsage d)
|}.

Definition recordDay (es : list Event) (d : Daily) : Daily :=
  foldl (λ d' e, recordDaily e d') d es.

Module DailySummaryLog.

Record t := {
  Date : string;
  TotalRequests : Z;
  TotalLocksGranted : Z;
  TotalLocksExpired : Z;
  TotalLocksReleased : Z;
  TotalToolsRegistered : Z;
  AvgWaitTimeMs : Z;
  AvgHoldTimeMs : Z;
  MaxQueueLength : Z;
  MaxWaitTimeMs : Z;
  MaxHoldTimeMs : Z;
  ErrorCount : Z;
  TopTools : list ToolUsage.t
}.

End DailySummaryLog.

(** [GetDailySummary]: [date] is the formatted clock reading; every counter
    is swapped with 0 and the usage table is replaced by an empty one. *)
Definition GetDailySummary (date : string) (d : Daily)
    : Daily * option DailySummaryLog.t :=
  let waitCount := dailyWaitCount d in
  let holdCount := dailyHoldCount d in
  let totalWait := dailyTotalWaitTime d in
  let totalHold := dailyTotalHoldTime d in
  let avgWait := if bool_decide (0 < waitCount)%Z then (totalWait ÷ waitCount)%Z else 0%Z in
  let avgHold := if bool_decide (0 < holdCount)%Z then (totalHold ÷ holdCount)%Z else 0%Z in
  (NewDaily,
   match getTopTools 10 (toolUsage d) with
   | None => None
   | Some top =>
       Some {| DailySummaryLog.Date := date;
               DailySummaryLog.TotalRequests := dailyRequests d;
               DailySummaryLog.TotalLocksGranted := dailyLocksGranted d;
               DailySummaryLog.TotalLocksExpired := dailyLocksExpired d;
               DailySummaryLog.TotalLocksReleased := dailyLocksReleased d;
               DailySummaryLog.TotalToolsRegistered := dailyToolsRegistered d;
               DailySummaryLog.AvgWaitTimeMs := avgWait;
               DailySummaryLog.AvgHoldTimeMs := avgHold;
               DailySummaryLog.MaxQueueLength := dailyMaxQueueLength d;
               DailySummaryLog.MaxWaitTimeMs := dailyMaxWaitTime d;
               DailySummaryLog.MaxHoldTimeMs := dailyMaxHoldTime d;
               DailySummaryLog.ErrorCount := dailyErrors d;
               DailySummaryLog.TopTools := top |}
   end).

(** The largest of the values that [f] selects from the events, and 0 when
    there is none or all are negative. *)
Definition largest (f : Event → option Z) (es : list Event) : Z :=
  foldr Z.max 0%Z (omap f es).

(** The sum of the values that [f] selects from the events. *)
Definition total (f : Event → option Z) (es : list Event) : Z :=
  foldr Z.add 0%Z (omap f es).

(** The days of a run of the logger: the events of each day, followed by
    the summary made at its end. *)
Fixpoint summaries (days : list (list Event * string)) (d : Daily)
    : list (option DailySummaryLog.t) :=
  match days with
  | [] => []
  | (es, date) :: rest =>
      let '(d', summary) := GetDailySummary date (recordDay es d) in
      summary :: summaries rest d'
  end.

(** ** Executions under a clock that never runs backwards *)

(** The worlds reached when no call reads an earlier instant than the call
    before it; the index is the latest reading. *)
Inductive reachableAt : Z → World → Prop :=
| reachableAt_init now : reachableAt now init
| reachableAt_step cfg now now' op w :
    reachableAt now w → freshUUID op w → (now ≤ now')%Z →
    reachableAt now' (exec cfg now' op w).

(** The time stamps of a ticket are in order and not later than [now]. *)
Definition timed (now : Z) (t : Ticket.t) : Prop :=
  (Ticket.RequestedAt t ≤ Ticket.LastPollAt t)%Z ∧
  (Ticket.LastPollAt t ≤ now)%Z ∧
  (Ticket.Status t = TicketStatusGranted ∨ Ticket.Status t = TicketStatusReleased →
   (Ticket.RequestedAt t ≤ Ticket.GrantedAt t)%Z ∧ (Ticket.GrantedAt t ≤ now)%Z).

(** The duration, in milliseconds, that an event reports. *)
Definition durationOf (e : Event) : Z :=
  match e with
  | LogLockGranted _ _ _ waitDurationMs => waitDurationMs
  | LogLockReleased _ _ _ holdDurationMs => holdDurationMs
  | LogLockExpired _ _ _ _ holdDurationMs => holdDurationMs
  | _ => 0%Z
  end.

(** A monotone execution: C is granted the lock and A queues, both poll,
    C releases. *)
Definition monotoneRun : list (Config * Z * Op) :=
  holderAndWaiter ++
  [ (Default, 3%Z, OpCheckLock "u0");
    (Default, 4%Z, OpCheckLock "u1");
    (Default, 7%Z, OpReleaseLock "u0") ].

(** The last instant read by [steps], [now] when there is none, and the test
    that the instants read do not decrease from [now] on. *)
Fixpoint lastInstant (now : Z) (steps : list (Config * Z * Op)) : Z :=
  match steps with
  | [] => now
  | (_, now', _) :: rest => lastInstant now' rest
  end.

Fixpoint monotoneb (now : Z) (steps : list (Config * Z * Op)) : bool :=
  match steps with
  | [] => true
  | (_, now', _) :: rest => bool_decide (now ≤ now')%Z && monotoneb now' rest
  end.

(** The worlds reached under one configuration that is never patched and a
    clock that never runs backwards. *)
Inductive reachableUnder (cfg : Config) : Z → World → Prop :=
| reachableUnder_init now : reachableUnder cfg now init
| reachableUnder_step now now' op w :
    reachableUnder cfg now w → freshUUID op w → (now ≤ now')%Z →
    reachableUnder cfg now' (exec cfg now' op w).

#[global] Instance Config_eq_dec : EqDecision Config.
Proof. solve_decision. Defined.

(** The test that every call of [steps] is made with [cfg]. *)
Definition sameConfigb (cfg : Config) (steps : list (Config * Z * Op)) : bool :=
  forallb (λ step, bool_decide (step.1.1 = cfg)) steps.

(** After [holderAndWaiter], the holder C extends its lock twice. *)
Definition extendedTwice : list (Config * Z * Op) :=
  holderAndWaiter ++
  [ (Default, seconds 10, OpExtendLock "u0");
    (Default, seconds 25, OpExtendLock "u0") ].

(** ** Executions without extension *)

(** [ExtendLock] is the only call that writes [ExtendCount], and the only
    one that reads [lock_extendable]. *)
Definition isExtend (op : Op) : bool :=
  match op with OpExtendLock _ => true | _ => false end.

(** The test that no call of [steps] is an [ExtendLock]. *)
Definition extendFree (steps : list (Config * Z * Op)) : bool :=
  forallb (λ step, negb (isExtend step.2)) steps.

(** The configuration [cfg] with [lock_extendable] switched off. *)
Definition withoutExtension (cfg : Config) : Config := {|
  HeartbeatTimeout := HeartbeatTimeout cfg;
  TicketTTL := TicketTTL cfg;
  TicketTTLOnPoll := TicketTTLOnPoll cfg;
  LockMaxDuration := LockMaxDuration cfg;
  LockExtendable := false;
  LockExtendMax := LockExtendMax cfg;
  LockGracePeriod := LockGracePeriod cfg
|}.

(** T1 is granted the lock at instant 0, polls it, extends it after one
    second, polls again and extends it after two seconds. *)
Definition pollAfterGrant : list (Config * Z * Op) :=
  [ (Default, 500000000%Z, OpCheckLock "u1") ].

Definition pollAfterExtend : list (Config * Z * Op) :=
  [ (Default, 1500000000%Z, OpCheckLock "u1");
    (Default, 1600000000%Z, OpCheckLockExpiry) ].

(** A configuration whose numbers of seconds no longer fit in an [int64]
    number of nanoseconds. *)
Definition overflowing : Config := {|
  HeartbeatTimeout := 9223372037;
  TicketTTL := 9223372037;
  TicketTTLOnPoll := TicketTTLOnPoll Default;
  LockMaxDuration := 9223372037;
  LockExtendable := LockExtendable Default;
  LockExtendMax := LockExtendMax Default;
  LockGracePeriod := 9223372037
|}.
(** ** Durations *)

(** [time.Duration(n) * time.Second] is [n] seconds whenever that number of
    nanoseconds fits in an [int64]. *)
Lemma seconds_fits n :
  (-9223372036 ≤ n ≤ 9223372036)%Z → seconds n = (n * Second)%Z.
Proof.
  intros Hn. unfold seconds, wrap64, Second.
  rewrite Z.mod_small; lia.
Qed.

(** Whatever the number of seconds, the duration is an [int64]. *)
Lemma seconds_range n : (- 2 ^ 63 ≤ seconds n < 2 ^ 63)%Z.
Proof.
  unfold seconds, wrap64.
  pose proof (Z.mod_pos_bound (n * Second + 2 ^ 63) (2 ^ 64)). lia.
Qed.

(** A non-negative number of seconds is never exceeded by its duration. *)
Lemma seconds_le n : (0 ≤ n)%Z → (seconds n ≤ n * Second)%Z.
Proof.
  intros Hn. unfold seconds, wrap64, Second.
  pose proof (Z.mod_le (n * 1000000000 + 2 ^ 63) (2 ^ 64)). lia.
Qed.

(** The first number of seconds whose duration wraps around: it comes out
    negative, about 292 years in the past. *)
Example seconds_wraps :
  seconds 9223372036 = 9223372036000000000%Z ∧
  seconds 9223372037 = (-9223372036709551616)%Z.
Proof. by vm_compute. Qed.

(** ** Basic facts about the world *)

Lemma deref_lookup w p t : heap w !! p = Some t → deref w p = t.
Proof. intros H. unfold deref. by apply list_lookup_total_correct. Qed.

Lemma heap_update_eq w p f : heap (update p f w) !! p = f <$> heap w !! p.
Proof. simpl. apply list_lookup_alter_eq. Qed.

Lemma heap_update_ne w p q f : p ≠ q → heap (update p f w) !! q = heap w !! q.
Proof. intros H. simpl. by apply list_lookup_alter_ne. Qed.

Lemma heap_update w p q f t :
  heap (update p f w) !! q = Some t →
  ∃ t0, heap w !! q = Some t0 ∧ t = (if decide (p = q) then f t0 else t0).
Proof.
  destruct (decide (p = q)) as [->|Hne].
  - rewrite heap_update_eq. destruct (heap w !! q) as [t0|]; simpl; [|done].
    intros [= <-]. eauto.
  - rewrite heap_update_ne by done. eauto.
Qed.

Lemma wf_init : wf init.
Proof.
  split; simpl.
  - intros i j ti tj H. by rewrite lookup_nil in H.
  - intros id p H. by rewrite lookup_empty in H.
  - intros p H. by apply elem_of_nil in H.
  - done.
  - constructor.
  - done.
  - intros k id H. by rewrite lookup_empty in H.
  - intros t H. by apply elem_of_nil in H.
Qed.

(** The invariant does not read the event log. *)
Lemma wf_ext w w' :
  heap w' = heap w → queue w' = queue w → currentLock w' = currentLock w →
  tickets w' = tickets w → threadKeys w' = threadKeys w → tools w' = tools w →
  wf w → wf w'.
Proof.
  intros Hh Hq Hc Ht Hk Hl [].
  split; rewrite ?Hh, ?Hq, ?Hc, ?Ht, ?Hk, ?Hl; done.
Qed.

Lemma wf_emit e w : wf w → wf (emit e w).
Proof. by apply wf_ext. Qed.

Lemma wf_set_tools m w :
  (∀ k, is_Some (tools w !! k) → is_Some (m !! k)) → wf w → wf (set_tools m w).
Proof.
  intros Hm []. split; simpl; try done.
  intros t Ht. eauto.
Qed.

Lemma Key_sameIdentity t1 t2 : sameIdentity t1 t2 → Ticket.Key t1 = Ticket.Key t2.
Proof. intros (_ & Htool & Hthread). unfold Ticket.Key. by rewrite Htool, Hthread. Qed.

Lemma wf_holder_not_queued w p : wf w → currentLock w = Some p → p ∉ queue w.
Proof. intros Hwf Hc Hq. pose proof (wf_holder_first w Hwf p p Hc Hq). lia. Qed.

(** A method that keeps the identity and the status of the ticket it is
    called on keeps the invariant; its extend counter may only grow, and
    only on the holder. *)
Lemma wf_update w p f :
  wf w →
  (∀ t, sameIdentity (f t) t ∧ Ticket.Status (f t) = Ticket.Status t) →
  (∀ t, heap w !! p = Some t →
        Ticket.ExtendCount (f t) = Ticket.ExtendCount t ∨
        (currentLock w = Some p ∧ (Ticket.ExtendCount t ≤ Ticket.ExtendCount (f t))%Z)) →
  wf (update p f w).
Proof.
  intros Hwf Hf Hcount.
  assert (Hpre : ∀ q t, heap (update p f w) !! q = Some t →
            ∃ t0, heap w !! q = Some t0 ∧ sameIdentity t t0 ∧
                  Ticket.Status t = Ticket.Status t0 ∧
                  (p ≠ q → t = t0) ∧ (p = q → t = f t0)).
  { intros q t Hq. apply heap_update in Hq as (t0 & H0 & ->).
    exists t0. split; [done|].
    destruct (decide (p = q)) as [Heq|Hne].
    - destruct (Hf t0) as [? ?]. by split_and!.
    - split_and!; try done; intros; congruence. }
  assert (Hpost : ∀ q t0, heap w !! q = Some t0 →
            ∃ t, heap (update p f w) !! q = Some t ∧ sameIdentity t t0 ∧
                 Ticket.Status t = Ticket.Status t0 ∧
                 (p ≠ q → t = t0) ∧ (p = q → t = f t0)).
  { intros q t0 H0. destruct (decide (p = q)) as [->|Hne].
    - exists (f t0). rewrite heap_update_eq, H0. destruct (Hf t0) as [? ?].
      by split_and!.
    - exists t0. rewrite heap_update_ne by done.
      split_and!; try done; intros; congruence. }
  split.
  - intros i j ti tj (ti0 & Hi & (Hidi & _) & _)%Hpre (tj0 & Hj & (Hidj & _) & _)%Hpre Heq.
    apply (wf_ids w Hwf i j ti0 tj0 Hi Hj). congruence.
  - intros id q Hq. destruct (wf_tickets w Hwf id q Hq) as (t0 & H0 & Hid & Hkey & Hwhere).
    destruct (Hpost q t0 H0) as (t & Ht & Hsame & _).
    exists t. split; [done|]. rewrite (Key_sameIdentity _ _ Hsame).
    destruct Hsame as (-> & _). done.
  - intros q Hq. destruct (wf_queue w Hwf q Hq) as (t0 & H0 & Hst & Hcnt & Hidx).
    destruct (Hpost q t0 H0) as (t & Ht & Hsame & Hstatus & Hne & Heq).
    exists t. destruct Hsame as (Hid & _). rewrite Hid, Hstatus.
    split_and!; try done.
    destruct (decide (p = q)) as [->|Hpq]; [|by rewrite (Hne Hpq)].
    rewrite (Heq eq_refl). destruct (Hcount t0 H0) as [->|[Hc _]]; [done|].
    by destruct (wf_holder_not_queued w q Hwf Hc).
  - intros q Hq. destruct (wf_holder w Hwf q Hq) as (t0 & H0 & Hst & Hcnt & Hidx).
    destruct (Hpost q t0 H0) as (t & Ht & Hsame & Hstatus & Hne & Heq).
    exists t. destruct Hsame as (Hid & _). rewrite Hid, Hstatus.
    split_and!; try done.
    destruct (decide (p = q)) as [->|Hpq]; [|by rewrite (Hne Hpq)].
    rewrite (Heq eq_refl). destruct (Hcount t0 H0) as [->|[_ Hle]]; [done|lia].
  - apply (wf_sorted w Hwf).
  - apply (wf_holder_first w Hwf).
  - intros k id Hk. destruct (wf_threadKeys w Hwf k id Hk) as (q & t0 & Hq & H0 & Hkey).
    destruct (Hpost q t0 H0) as (t & Ht & Hsame & _).
    exists q, t. split_and!; try done. by rewrite (Key_sameIdentity _ _ Hsame).
  - intros t (q & Hq)%list_elem_of_lookup.
    destruct (Hpre q t Hq) as (t0 & H0 & (_ & Htool & _) & _).
    rewrite Htool. apply (wf_tools w Hwf). apply list_elem_of_lookup. eauto.
Qed.

Lemma sameIdentity_refl t : sameIdentity t t.
Proof. by split_and!. Qed.

Lemma update_pre w p f q t :
  (∀ x, sameIdentity (f x) x) →
  heap (update p f w) !! q = Some t →
  ∃ t0, heap w !! q = Some t0 ∧ sameIdentity t t0 ∧
        (p ≠ q → t = t0) ∧ (p = q → t = f t0).
Proof.
  intros Hf Hq. apply heap_update in Hq as (t0 & H0 & ->).
  exists t0. split; [done|].
  destruct (decide (p = q)) as [Heq|Hne].
  - split_and!; [apply Hf|congruence|done].
  - split_and!; [apply sameIdentity_refl|done|congruence].
Qed.


Lemma update_ids w p f :
  wf w → (∀ x, sameIdentity (f x) x) →
  ∀ i j ti tj,
    heap (update p f w) !! i = Some ti → heap (update p f w) !! j = Some tj →
    Ticket.TicketID ti = Ticket.TicketID tj → i = j.
Proof.
  intros Hwf Hf i j ti tj Hi Hj Heq.
  destruct (update_pre _ _ _ _ _ Hf Hi) as (ti0 & Hi0 & (Hidi & _) & _).
  destruct (update_pre _ _ _ _ _ Hf Hj) as (tj0 & Hj0 & (Hidj & _) & _).
  apply (wf_ids w Hwf i j ti0 tj0 Hi0 Hj0). congruence.
Qed.

Lemma update_tools w p f :
  wf w → (∀ x, sameIdentity (f x) x) →
  ∀ t, t ∈ heap (update p f w) → is_Some (tools w !! Ticket.ToolID t).
Proof.
  intros Hwf Hf t (q & Hq)%list_elem_of_lookup.
  destruct (update_pre _ _ _ _ _ Hf Hq) as (t0 & H0 & (_ & Htool & _) & _).
  rewrite Htool. apply (wf_tools w Hwf). apply list_elem_of_lookup. eauto.
Qed.

Lemma Grant_sameIdentity now d x : sameIdentity (Ticket.Grant now d x) x.
Proof. by split_and!. Qed.

Lemma set_Status_sameIdentity s x : sameIdentity (Ticket.set_Status s x) x.
Proof. by split_and!. Qed.

Lemma UpdatePollTime_sameIdentity now x : sameIdentity (Ticket.UpdatePollTime now x) x.
Proof. by split_and!. Qed.

Lemma Extend_sameIdentity now d x : sameIdentity (Ticket.Extend now d x) x.
Proof. by split_and!. Qed.

Lemma tryGrantNext_unfold cfg now w :
  tryGrantNext cfg now w =
  match currentLock w, queue w with
  | None, p :: rest =>
      let t := deref (granted cfg now p rest w) p in
      emit (LogLockGranted (Ticket.TicketID t) (Ticket.ToolID t) (Ticket.ThreadID t)
              (Milliseconds (Ticket.WaitDuration now (deref w p))))
           (granted cfg now p rest w)
  | _, _ => w
  end.
Proof. unfold tryGrantNext. destruct (currentLock w), (queue w); done. Qed.

Lemma wf_granted cfg now p rest w :
  wf w → currentLock w = None → queue w = p :: rest →
  wf (granted cfg now p rest w).
Proof.
  intros Hwf Hc Hq.
  pose proof (Grant_sameIdentity now (seconds (LockMaxDuration cfg))) as Hf.
  assert (Hsorted := wf_sorted w Hwf). rewrite Hq in Hsorted.
  apply StronglySorted_cons in Hsorted as [Hfirst Hsorted].
  rewrite Forall_forall in Hfirst.
  destruct (wf_queue w Hwf p) as (tp & Hp & Hstp & Hcntp & Hidxp).
  { rewrite Hq. apply elem_of_cons; by left. }
  set (g := Ticket.Grant now (seconds (LockMaxDuration cfg))) in *.
  assert (Hheap : ∀ q t0, heap w !! q = Some t0 →
            heap (granted cfg now p rest w) !! q = Some (if decide (p = q) then g t0 else t0)).
  { intros q t0 H0. unfold granted. simpl.
    destruct (decide (p = q)) as [->|Hne].
    - by rewrite list_lookup_alter_eq, H0.
    - by rewrite list_lookup_alter_ne. }
  split.
  - exact (update_ids w p g Hwf Hf).
  - intros id q Hidx. simpl in Hidx.
    destruct (wf_tickets w Hwf id q Hidx) as (t0 & H0 & Hid & Hkey & Hwhere).
    exists (if decide (p = q) then g t0 else t0). split; [by apply Hheap|].
    assert (Hsame : sameIdentity (if decide (p = q) then g t0 else t0) t0).
    { destruct (decide (p = q)); [apply Hf|apply sameIdentity_refl]. }
    rewrite (Key_sameIdentity _ _ Hsame). destruct Hsame as (-> & _).
    split_and!; try done. simpl.
    destruct Hwhere as [Hh|Hin]; [congruence|].
    rewrite Hq in Hin. apply elem_of_cons in Hin as [->|Hin]; [by left|by right].
  - intros q Hin. simpl in Hin.
    assert (Hpq : p < q) by by apply Hfirst.
    destruct (wf_queue w Hwf q) as (t0 & H0 & Hst & Hcnt & Hidx).
    { rewrite Hq. apply elem_of_cons; by right. }
    exists t0. split_and!; try done.
    rewrite (Hheap q t0 H0). destruct (decide (p = q)); [lia|done].
  - intros q [= <-]. exists (g tp). split_and!.
    + rewrite (Hheap p tp Hp). by rewrite decide_True.
    + done.
    + simpl. lia.
    + done.
  - done.
  - intros h q [= <-] Hin. by apply Hfirst.
  - intros k id Hk. simpl in Hk.
    destruct (wf_threadKeys w Hwf k id Hk) as (q & t0 & Hidx & H0 & Hkey).
    exists q, (if decide (p = q) then g t0 else t0).
    split_and!; [done|by apply Hheap|].
    destruct (decide (p = q)); [|done].
    by rewrite (Key_sameIdentity _ _ (Hf t0)).
  - exact (update_tools w p g Hwf Hf).
Qed.

Lemma wf_tryGrantNext cfg now w : wf w → wf (tryGrantNext cfg now w).
Proof.
  intros Hwf. rewrite tryGrantNext_unfold.
  destruct (currentLock w) as [h|] eqn:Hc; [done|].
  destruct (queue w) as [|p rest] eqn:Hq; [done|].
  apply wf_emit. by apply wf_granted.
Qed.

(** Dropping an indexed ticket [p] from the manager: the ticket object may
    be written to ([f]), it leaves both indices, and the holder slot and
    the queue keep every other ticket. *)
Lemma wf_drop w w' p f tp :
  wf w → (∀ x, sameIdentity (f x) x) →
  heap w !! p = Some tp → tickets w !! Ticket.TicketID tp = Some p →
  heap w' = alter f p (heap w) →
  tickets w' = delete (Ticket.TicketID tp) (tickets w) →
  threadKeys w' = delete (Ticket.Key tp) (threadKeys w) →
  tools w' = tools w →
  (∀ x, x ∈ queue w' ↔ x ∈ queue w ∧ x ≠ p) →
  (∀ x, currentLock w' = Some x ↔ currentLock w = Some x ∧ x ≠ p) →
  StronglySorted lt (queue w') →
  wf w'.
Proof.
  intros Hwf Hf Hp Hidxp Hheap Htickets Hkeys Htools Hqueue Hholder Hsorted.
  destruct (wf_tickets w Hwf _ _ Hidxp) as (tp' & Hp' & _ & Hkeyp & _).
  assert (tp' = tp) as -> by congruence.
  assert (Hother : ∀ q t0, heap w !! q = Some t0 → q ≠ p → heap w' !! q = Some t0).
  { intros q t0 H0 Hne. rewrite Hheap. by rewrite list_lookup_alter_ne. }
  assert (Hdiff : ∀ q t0, heap w !! q = Some t0 → q ≠ p →
            Ticket.TicketID t0 ≠ Ticket.TicketID tp).
  { intros q t0 H0 Hne Heq. apply Hne. by apply (wf_ids w Hwf q p t0 tp). }
  split.
  - rewrite Hheap. exact (update_ids w p f Hwf Hf).
  - intros id q Hidx. rewrite Htickets in Hidx.
    apply lookup_delete_Some in Hidx as [Hid Hidx].
    destruct (wf_tickets w Hwf id q Hidx) as (t0 & H0 & <- & Hkey & Hwhere).
    assert (q ≠ p) as Hqp by (intros ->; congruence).
    exists t0. split_and!; [by apply Hother|done| |].
    + rewrite Hkeys. rewrite lookup_delete_ne; [done|]. congruence.
    + destruct Hwhere as [Hh|Hin]; [left; by apply Hholder|right; by apply Hqueue].
  - intros q [Hin Hqp]%Hqueue.
    destruct (wf_queue w Hwf q Hin) as (t0 & H0 & Hst & Hcnt & Hidx).
    exists t0. split_and!; [by apply Hother|done|done|].
    rewrite Htickets. rewrite lookup_delete_ne; [done|].
    intros Heq. by apply (Hdiff q t0).
  - intros q [Hh Hqp]%Hholder.
    destruct (wf_holder w Hwf q Hh) as (t0 & H0 & Hst & Hcnt & Hidx).
    exists t0. split_and!; [by apply Hother|done|done|].
    rewrite Htickets. rewrite lookup_delete_ne; [done|].
    intros Heq. by apply (Hdiff q t0).
  - done.
  - intros h q [Hh _]%Hholder [Hin _]%Hqueue. by apply (wf_holder_first w Hwf).
  - intros k id Hk. rewrite Hkeys in Hk.
    apply lookup_delete_Some in Hk as [Hne Hk].
    destruct (wf_threadKeys w Hwf k id Hk) as (q & t0 & Hidx & H0 & Hkey).
    assert (q ≠ p) as Hqp by (intros ->; congruence).
    exists q, t0. split_and!; [|by apply Hother|done].
    rewrite Htickets. rewrite lookup_delete_ne; [done|].
    intros Heq. rewrite <- Heq in Hidx. congruence.
  - rewrite Hheap, Htools. exact (update_tools w p f Hwf Hf).
Qed.

Lemma deref_update_eq w p f t :
  heap w !! p = Some t → deref (update p f w) p = f t.
Proof.
  intros H. apply deref_lookup. by rewrite heap_update_eq, H.
Qed.

(** The holder leaves the manager: [ReleaseLock], the forced expiries and
    the holder branch of [RemoveToolTickets]. *)
Lemma wf_drop_holder w p f :
  wf w → (∀ x, sameIdentity (f x) x) → currentLock w = Some p →
  wf (cleanupTicket p (set_currentLock None (update p f w))).
Proof.
  intros Hwf Hf Hc.
  destruct (wf_holder w Hwf p Hc) as (tp & Hp & _ & _ & Hidx).
  assert (Hd : deref (set_currentLock None (update p f w)) p = f tp).
  { by apply (deref_update_eq w p f tp). }
  apply (wf_drop w _ p f tp Hwf Hf Hp Hidx); simpl.
  - done.
  - unfold deref in Hd. simpl in Hd. unfold deref. simpl. rewrite Hd.
    by destruct (Hf tp) as (-> & _).
  - unfold deref in Hd. simpl in Hd. unfold deref. simpl. rewrite Hd.
    by rewrite (Key_sameIdentity _ _ (Hf tp)).
  - done.
  - intros x. split; [|by intros []]. intros Hin. split; [done|].
    intros ->. by apply (wf_holder_not_queued w p).
  - intros x. split; [done|]. intros [Hx Hne]. congruence.
  - apply (wf_sorted w Hwf).
Qed.

(** A queued ticket leaves the manager: the TTL sweep and the queue loop
    of [RemoveToolTickets]. *)
Lemma wf_drop_queued w p f q1 q2 :
  wf w → (∀ x, sameIdentity (f x) x) → queue w = q1 ++ p :: q2 →
  wf (set_queue (q1 ++ q2) (cleanupTicket p (update p f w))).
Proof.
  intros Hwf Hf Hq.
  assert (Hsorted := wf_sorted w Hwf). rewrite Hq in Hsorted.
  apply StronglySorted_app in Hsorted as (H12 & Hs1 & Hs2).
  apply StronglySorted_cons in Hs2 as [Hp2 Hs2]. rewrite Forall_forall in Hp2.
  assert (Hin : p ∈ queue w).
  { rewrite Hq. apply elem_of_app. right. apply elem_of_cons. by left. }
  destruct (wf_queue w Hwf p Hin) as (tp & Hp & _ & _ & Hidx).
  assert (Hd : deref (update p f w) p = f tp) by by apply deref_update_eq.
  apply (wf_drop w _ p f tp Hwf Hf Hp Hidx); simpl.
  - done.
  - unfold deref in Hd. simpl in Hd. unfold deref. simpl. rewrite Hd.
    by destruct (Hf tp) as (-> & _).
  - unfold deref in Hd. simpl in Hd. unfold deref. simpl. rewrite Hd.
    by rewrite (Key_sameIdentity _ _ (Hf tp)).
  - done.
  - intros x. rewrite Hq, !elem_of_app, elem_of_cons. split.
    + intros [H1|H2].
      * split; [by left|]. intros ->.
        assert (p < p) by (apply H12; [done|apply elem_of_cons; by left]). lia.
      * split; [right; by right|]. intros ->.
        assert (p < p) by by apply Hp2. lia.
    + intros [[H1|[->|H2]] Hne]; [by left|done|by right].
  - intros x. split; [|by intros []]. intros Hx. split; [done|].
    intros ->. by apply (wf_holder_not_queued w p).
  - apply StronglySorted_app. split_and!; [|done|done].
    intros x1 x2 H1 H2. apply H12; [done|]. apply elem_of_cons. by right.
Qed.

Lemma wf_live w id p t :
  wf w → tickets w !! id = Some p → heap w !! p = Some t → Ticket.live t = true.
Proof.
  intros Hwf Hidx Hp.
  destruct (wf_tickets w Hwf id p Hidx) as (t' & Hp' & _ & _ & [Hh|Hin]).
  - destruct (wf_holder w Hwf p Hh) as (t'' & Hp'' & Hst & _).
    assert (t'' = t) as -> by congruence.
    unfold Ticket.live, Ticket.IsWaiting, Ticket.IsGranted. rewrite Hst. done.
  - destruct (wf_queue w Hwf p Hin) as (t'' & Hp'' & Hst & _).
    assert (t'' = t) as -> by congruence.
    unfold Ticket.live, Ticket.IsWaiting, Ticket.IsGranted. rewrite Hst. done.
Qed.

(** In a well-formed world the lookup of [RequestLock] finds the ticket
    registered under the key whenever there is one. *)
Lemma existingTicket_Some w key id :
  wf w → threadKeys w !! key = Some id →
  ∃ p t, existingTicket key w = Some p ∧ tickets w !! id = Some p ∧
         heap w !! p = Some t ∧ Ticket.TicketID t = id ∧ Ticket.Key t = key.
Proof.
  intros Hwf Hk.
  destruct (wf_threadKeys w Hwf key id Hk) as (p & t & Hidx & Hp & Hkey).
  exists p, t. unfold existingTicket. rewrite Hk, Hidx.
  rewrite (deref_lookup w p t Hp).
  pose proof (wf_live w id p t Hwf Hidx Hp) as Hlive. unfold Ticket.live in Hlive.
  rewrite Hlive. split_and!; try done.
  destruct (wf_tickets w Hwf id p Hidx) as (t' & Hp' & Hid & _). congruence.
Qed.

Lemma existingTicket_None w key :
  wf w → existingTicket key w = None → threadKeys w !! key = None.
Proof.
  intros Hwf Hnone. destruct (threadKeys w !! key) as [id|] eqn:Hk; [|done].
  destruct (existingTicket_Some w key id Hwf Hk) as (p & t & Hsome & _). congruence.
Qed.

(** The world of [RequestLock] after the new ticket is enqueued. *)
Lemma wf_enqueue now uuid toolID threadID w :
  wf w →
  (∀ t, t ∈ heap w → Ticket.TicketID t ≠ uuid) →
  is_Some (tools w !! toolID) →
  threadKeys w !! (toolID +:+ ":" +:+ threadID) = None →
  wf {| heap := heap w ++ [Ticket.NewTicket now uuid toolID threadID];
        queue := queue w ++ [length (heap w)];
        currentLock := currentLock w;
        tickets := <[uuid := length (heap w)]> (tickets w);
        threadKeys := <[toolID +:+ ":" +:+ threadID := uuid]> (threadKeys w);
        tools := tools w;
        events := events w |}.
Proof.
  intros Hwf Hfresh Htool Hkey.
  set (nt := Ticket.NewTicket now uuid toolID threadID).
  set (key := toolID +:+ ":" +:+ threadID) in *.
  assert (Hold : ∀ q t0, heap w !! q = Some t0 → (heap w ++ [nt]) !! q = Some t0).
  { intros q t0 H0. by apply lookup_app_l_Some. }
  assert (Hnew : (heap w ++ [nt]) !! length (heap w) = Some nt).
  { by apply list_lookup_middle. }
  assert (Hcases : ∀ q t, (heap w ++ [nt]) !! q = Some t →
            (heap w !! q = Some t ∧ q < length (heap w)) ∨ (q = length (heap w) ∧ t = nt)).
  { intros q t [H0|[-> ->]]%lookup_snoc_Some; [left|right; done].
    destruct H0. done. }
  assert (Hfresh' : ∀ q t0, heap w !! q = Some t0 → Ticket.TicketID t0 ≠ uuid).
  { intros q t0 H0. apply Hfresh. apply list_elem_of_lookup. eauto. }
  assert (Hbound : ∀ q t0, heap w !! q = Some t0 → q < length (heap w)).
  { intros q t0 H0. by apply lookup_lt_Some in H0. }
  split; simpl.
  - intros i j ti tj Hi Hj Heq.
    destruct (Hcases i ti Hi) as [[Hi0 _]|[-> ->]], (Hcases j tj Hj) as [[Hj0 _]|[-> ->]].
    + by apply (wf_ids w Hwf i j ti tj).
    + by destruct (Hfresh' i ti Hi0).
    + by destruct (Hfresh' j tj Hj0).
    + done.
  - intros id q Hidx. apply lookup_insert_Some in Hidx as [[<- <-]|[Hne Hidx]].
    + exists nt. split_and!; [done|done| |].
      * fold key. by rewrite lookup_insert_eq.
      * right. apply elem_of_app. right. apply elem_of_cons. by left.
    + destruct (wf_tickets w Hwf id q Hidx) as (t0 & H0 & Hid & Hk & Hwhere).
      exists t0. split_and!; [by apply Hold|done| |].
      * rewrite lookup_insert_ne; [done|]. intros Heq. congruence.
      * destruct Hwhere as [Hh|Hin]; [by left|right].
        apply elem_of_app. by left.
  - intros q [Hin| ->%list_elem_of_singleton]%elem_of_app.
    + destruct (wf_queue w Hwf q Hin) as (t0 & H0 & Hst & Hcnt & Hidx).
      exists t0. split_and!; [by apply Hold|done|done|].
      rewrite lookup_insert_ne; [done|]. intros Heq. by apply (Hfresh' q t0).
    + exists nt. split_and!; [done|done|done|]. simpl. by rewrite lookup_insert_eq.
  - intros q Hh.
    destruct (wf_holder w Hwf q Hh) as (t0 & H0 & Hst & Hcnt & Hidx).
    exists t0. split_and!; [by apply Hold|done|done|].
    rewrite lookup_insert_ne; [done|]. intros Heq. by apply (Hfresh' q t0).
  - apply StronglySorted_app. split_and!.
    + intros x1 x2 H1 ->%list_elem_of_singleton.
      destruct (wf_queue w Hwf x1 H1) as (t0 & H0 & _). by apply (Hbound x1 t0).
    + apply (wf_sorted w Hwf).
    + repeat constructor.
  - intros h q Hh [Hin| ->%list_elem_of_singleton]%elem_of_app.
    + by apply (wf_holder_first w Hwf).
    + destruct (wf_holder w Hwf h Hh) as (t0 & H0 & _). by apply (Hbound h t0).
  - intros k id Hk. apply lookup_insert_Some in Hk as [[<- <-]|[Hne Hk]].
    + exists (length (heap w)), nt. split_and!; [|done|done].
      by rewrite lookup_insert_eq.
    + destruct (wf_threadKeys w Hwf k id Hk) as (q & t0 & Hidx & H0 & Hkey0).
      exists q, t0. split_and!; [|by apply Hold|done].
      rewrite lookup_insert_ne; [done|]. intros Heq.
      destruct (wf_tickets w Hwf id q Hidx) as (t1 & H1 & Hid & _).
      assert (t1 = t0) as -> by congruence. apply (Hfresh' q t0 H0). congruence.
  - intros t [Hin| ->%list_elem_of_singleton]%elem_of_app.
    + by apply (wf_tools w Hwf).
    + done.
Qed.

(** The loop invariant of [ExpireWaitingTickets]: the manager is
    well-formed once the tickets kept so far and the tickets still to visit
    are taken as the queue. *)
Lemma sweep_wf now ttl todo :
  ∀ w expired newQueue,
    wf (set_queue (newQueue ++ todo) w) →
    wf (set_queue (foldl (sweepTicket now ttl) (w, expired, newQueue) todo).2
                  (foldl (sweepTicket now ttl) (w, expired, newQueue) todo).1.1).
Proof.
  induction todo as [|p todo IH]; intros w expired newQueue Hwf; simpl.
  - by rewrite app_nil_r in Hwf.
  - destruct (Ticket.IsTTLExpired now ttl (deref w p)).
    + apply IH.
      pose proof (wf_drop_queued (set_queue (newQueue ++ p :: todo) w) p Ticket.Expire
                    newQueue todo Hwf (set_Status_sameIdentity _) eq_refl) as Hdrop.
      revert Hdrop. by apply wf_ext.
    + apply IH. by rewrite <- app_assoc.
Qed.

Lemma wf_ExpireWaitingTickets cfg now w :
  wf w → wf (ExpireWaitingTickets cfg now w).1.
Proof.
  intros Hwf. unfold ExpireWaitingTickets.
  pose proof (sweep_wf now (seconds (TicketTTL cfg)) (queue w) w [] []) as H.
  destruct (foldl _ _ _) as [[w' expired] newQueue]. simpl in *.
  apply H. revert Hwf. by apply wf_ext.
Qed.

(** The loop invariant of the queue loop of [RemoveToolTickets]. *)
Lemma remove_wf toolID todo :
  ∀ w removed newQueue,
    wf (set_queue (newQueue ++ todo) w) →
    wf (set_queue (foldl (removeTicket toolID) (w, removed, newQueue) todo).2
                  (foldl (removeTicket toolID) (w, removed, newQueue) todo).1.1).
Proof.
  induction todo as [|p todo IH]; intros w removed newQueue Hwf; simpl.
  - by rewrite app_nil_r in Hwf.
  - destruct (bool_decide (Ticket.ToolID (deref w p) = toolID)).
    + apply IH.
      pose proof (wf_drop_queued (set_queue (newQueue ++ p :: todo) w) p (λ x, x)
                    newQueue todo Hwf sameIdentity_refl eq_refl) as Hdrop.
      revert Hdrop.
      apply wf_ext; try done; unfold cleanupTicket, deref; simpl;
        by rewrite list_alter_id.
    + apply IH. by rewrite <- app_assoc.
Qed.

Lemma wf_RemoveToolTickets cfg now toolID w :
  wf w → wf (RemoveToolTickets cfg now toolID w).1.
Proof.
  intros Hwf. unfold RemoveToolTickets.
  set (start := match currentLock w with
                | Some h =>
                    if bool_decide (Ticket.ToolID (deref w h) = toolID)
                    then (set_currentLock None (cleanupTicket h w), [Ticket.TicketID (deref w h)])
                    else (w, [])
                | None => (w, [])
                end).
  assert (Hstart : wf start.1).
  { subst start. destruct (currentLock w) as [h|] eqn:Hc; [|done].
    destruct (bool_decide _); [|done]. simpl.
    pose proof (wf_drop_holder w h (λ x, x) Hwf sameIdentity_refl Hc) as Hdrop.
    revert Hdrop. apply wf_ext; try done.
    - simpl. symmetry. by apply list_alter_id.
    - unfold cleanupTicket, deref. simpl. by rewrite list_alter_id.
    - unfold cleanupTicket, deref. simpl. by rewrite list_alter_id. }
  destruct start as [w1 removed1]. simpl in Hstart.
  pose proof (remove_wf toolID (queue w1) w1 removed1 []) as H.
  destruct (foldl _ _ _) as [[w2 removed] newQueue]. simpl in *.
  assert (wf (set_queue newQueue w2)) as Hw3.
  { apply H. revert Hstart. by apply wf_ext. }
  destruct (bool_decide _); simpl; [by apply wf_tryGrantNext|done].
Qed.

Lemma wf_expireHolder cfg now reason p w :
  wf w → currentLock w = Some p → wf (expireHolder cfg now reason p w).
Proof.
  intros Hwf Hc. unfold expireHolder.
  apply wf_tryGrantNext, wf_emit.
  exact (wf_drop_holder w p Ticket.Expire Hwf (set_Status_sameIdentity _) Hc).
Qed.

Lemma wf_ReleaseLock cfg now ticketID w :
  wf w → wf (ReleaseLock cfg now ticketID w).1.
Proof.
  intros Hwf. unfold ReleaseLock.
  destruct (tickets w !! ticketID) as [p|] eqn:Hidx; [|done].
  destruct (isCurrentLock ticketID w) eqn:Hcur; [|done]. simpl.
  unfold isCurrentLock in Hcur.
  destruct (currentLock w) as [h|] eqn:Hc; [|done].
  apply bool_decide_eq_true in Hcur.
  destruct (wf_holder w Hwf h Hc) as (th & Hh & _ & _ & Hidxh).
  rewrite (deref_lookup w h th Hh) in Hcur. rewrite Hcur in Hidxh.
  assert (h = p) as -> by congruence.
  apply wf_tryGrantNext, wf_emit.
  exact (wf_drop_holder w p Ticket.Release Hwf (set_Status_sameIdentity _) Hc).
Qed.

Lemma wf_CheckLock cfg now ticketID w :
  wf w → wf (CheckLock cfg now ticketID w).1.
Proof.
  intros Hwf. unfold CheckLock.
  destruct (tickets w !! ticketID) as [p|]; [|done]. simpl.
  assert (Hpoll : ∀ w0, wf w0 → wf (update p (Ticket.UpdatePollTime now) w0)).
  { intros w0 Hwf0. apply wf_update; [done| |].
    - intros t. split; [apply UpdatePollTime_sameIdentity|done].
    - intros t _. by left. }
  set (w1 := if TicketTTLOnPoll cfg && Ticket.IsWaiting (deref w p)
             then update p (Ticket.UpdatePollTime now) w else w).
  assert (wf w1) as Hwf1.
  { subst w1. destruct (_ && _); [by apply Hpoll|done]. }
  destruct (Ticket.IsGranted (deref w1 p)); [by apply Hpoll|done].
Qed.

Lemma wf_ExtendLock cfg now ticketID w :
  wf w → wf (ExtendLock cfg now ticketID w).1.
Proof.
  intros Hwf. unfold ExtendLock.
  destruct (LockExtendable cfg); [|done]. simpl.
  destruct (tickets w !! ticketID) as [p|] eqn:Hidx; [|done].
  destruct (isCurrentLock ticketID w) eqn:Hcur; [|done]. simpl.
  destruct (bool_decide _); [done|]. simpl.
  unfold isCurrentLock in Hcur.
  destruct (currentLock w) as [h|] eqn:Hc; [|done].
  apply bool_decide_eq_true in Hcur.
  destruct (wf_holder w Hwf h Hc) as (th & Hh & _ & _ & Hidxh).
  rewrite (deref_lookup w h th Hh) in Hcur. rewrite Hcur in Hidxh.
  assert (h = p) as -> by congruence.
  apply wf_emit, wf_update; [done| |].
  - intros t. split; [apply Extend_sameIdentity|done].
  - intros t _. right. split; [done|]. simpl. lia.
Qed.

Lemma wf_RequestLock cfg now uuid toolID threadID w :
  wf w → (∀ t, t ∈ heap w → Ticket.TicketID t ≠ uuid) →
  wf (RequestLock cfg now uuid toolID threadID w).1.
Proof.
  intros Hwf Hfresh. unfold RequestLock.
  destruct (IsOnline toolID w) eqn:Honline; [|done]. simpl.
  destruct (existingTicket _ w) as [p|] eqn:Hex; [done|]. simpl.
  apply wf_tryGrantNext, wf_emit.
  apply (wf_enqueue now uuid toolID threadID w Hwf Hfresh).
  - unfold IsOnline in Honline. by destruct (tools w !! toolID).
  - by apply existingTicket_None.
Qed.

Lemma wf_registry_step w w' :
  heap w' = heap w → queue w' = queue w → currentLock w' = currentLock w →
  tickets w' = tickets w → threadKeys w' = threadKeys w →
  (∀ k, is_Some (tools w !! k) → is_Some (tools w' !! k)) →
  wf w → wf w'.
Proof.
  intros Hh Hq Hc Ht Hk Hl Hwf.
  apply (wf_ext (set_tools (tools w') w)); try done.
  by apply wf_set_tools.
Qed.

Lemma foldl_emit_fields {A} (f : A → Event) (l : list A) w :
  let w' := foldl (λ w0 a, emit (f a) w0) w l in
  heap w' = heap w ∧ queue w' = queue w ∧ currentLock w' = currentLock w ∧
  tickets w' = tickets w ∧ threadKeys w' = threadKeys w ∧ tools w' = tools w.
Proof.
  revert w. induction l as [|a l IH]; intros w; simpl; [done|].
  destruct (IH (emit (f a) w)) as (? & ? & ? & ? & ? & ?). done.
Qed.

(** A registry call overwrites the entry of one tool and keeps the others. *)
Local Ltac registry_step w toolID :=
  apply (wf_registry_step w); try done; simpl; intros k Hk;
  destruct (decide (toolID = k)) as [->|];
  [by rewrite lookup_insert_eq|by rewrite lookup_insert_ne].

(** Every call preserves the invariant. *)
Lemma wf_exec cfg now op w : wf w → freshUUID op w → wf (exec cfg now op w).
Proof.
  intros Hwf Hfresh. destruct op; simpl.
  - unfold Register. destruct (tools w !! toolID) as [tool|] eqn:Ht.
    + destruct (Tool.IsOnline tool); [done|]. simpl. registry_step w toolID.
    + simpl. registry_step w toolID.
  - unfold Heartbeat. destruct (tools w !! toolID) as [tool|] eqn:Ht; [|done].
    simpl. registry_step w toolID.
  - unfold Unregister. destruct (tools w !! toolID) as [tool|] eqn:Ht; [|done].
    simpl. registry_step w toolID.
  - unfold CheckAndMarkOffline. simpl.
    match goal with |- wf (foldl _ ?w0 ?l) =>
      destruct (foldl_emit_fields (λ toolID, LogToolOffline toolID "heartbeat_timeout") l w0)
        as (Hh & Hq & Hc & Ht & Hk & Hl)
    end.
    apply (wf_registry_step w); try done.
    rewrite Hl. simpl. intros k Hk'. rewrite lookup_fmap.
    destruct Hk' as [x ->]. done.
  - by apply wf_RequestLock.
  - by apply wf_CheckLock.
  - by apply wf_ReleaseLock.
  - by apply wf_ExtendLock.
  - unfold ExpireCurrentLock. destruct (currentLock w) as [p|] eqn:Hc; [|done].
    by apply wf_expireHolder.
  - by apply wf_ExpireWaitingTickets.
  - unfold CheckGracePeriod. destruct (currentLock w) as [p|] eqn:Hc; [|done].
    destruct (Ticket.IsGracePeriodExpired _ _ _); [|done].
    by apply wf_expireHolder.
  - unfold CheckLockExpiry. destruct (currentLock w) as [p|] eqn:Hc; [|done].
    destruct (Ticket.IsLockExpired _ _); [|done].
    by apply wf_expireHolder.
  - by apply wf_RemoveToolTickets.
Qed.

Lemma reachable_wf w : reachable w → wf w.
Proof.
  induction 1 as [|cfg now op w _ IH Hfresh]; [apply wf_init|by apply wf_exec].
Qed.

Lemma reachable_run steps w :
  reachable w → freshUUIDs steps w → reachable (run steps w).
Proof.
  revert w. induction steps as [|[[cfg now] op] steps IH]; intros w Hr Hf; [done|].
  destruct Hf as [Hf1 Hf2]. simpl. apply IH; [|done]. by constructor.
Qed.

(** ** The position of a ticket *)

Lemma queueIndex_found w id q i p :
  p ∈ q → Ticket.TicketID (deref w p) = id → (i + 1 ≤ queueIndex w id q i)%Z.
Proof.
  revert i. induction q as [|p' q IH]; intros i Hin Hid; simpl.
  - by apply elem_of_nil in Hin.
  - destruct (bool_decide (Ticket.TicketID (deref w p') = id)) eqn:Hb; [lia|].
    apply elem_of_cons in Hin as [->|Hin].
    + apply bool_decide_eq_false in Hb. done.
    + specialize (IH (i + 1)%Z Hin Hid). lia.
Qed.

Lemma getQueuePosition_indexed w id p :
  wf w → tickets w !! id = Some p → (0 ≤ getQueuePosition id w)%Z.
Proof.
  intros Hwf Hidx. unfold getQueuePosition.
  destruct (isCurrentLock id w) eqn:Hcur; [lia|].
  destruct (wf_tickets w Hwf id p Hidx) as (t & Hp & Hid & _ & [Hh|Hin]).
  - unfold isCurrentLock in Hcur. rewrite Hh in Hcur.
    rewrite (deref_lookup w p t Hp) in Hcur.
    apply bool_decide_eq_false in Hcur. done.
  - pose proof (queueIndex_found w id (queue w) 0 p Hin) as H.
    rewrite (deref_lookup w p t Hp) in H. specialize (H Hid). lia.
Qed.

(** ** Terminal tickets *)

Lemma terminal_not_indexed w p t :
  wf w → heap w !! p = Some t → terminal t →
  tickets w !! Ticket.TicketID t = None ∧
  threadKeys w !! Ticket.Key t ≠ Some (Ticket.TicketID t).
Proof.
  intros Hwf Hp Hterm.
  assert (Hnone : tickets w !! Ticket.TicketID t = None).
  { destruct (tickets w !! Ticket.TicketID t) as [q|] eqn:Hidx; [|done].
    destruct (wf_tickets w Hwf _ q Hidx) as (t' & Hq & Hid & _).
    assert (q = p) as -> by by apply (wf_ids w Hwf q p t' t).
    pose proof (wf_live w _ p t Hwf Hidx Hp) as Hlive.
    unfold Ticket.live, Ticket.IsWaiting, Ticket.IsGranted in Hlive.
    destruct Hterm as [Hs|Hs]; rewrite Hs in Hlive; done. }
  split; [done|]. intros Hk.
  destruct (wf_threadKeys w Hwf _ _ Hk) as (q & t' & Hidx & _). congruence.
Qed.

(** ** Mutual exclusion *)

Lemma managed_cases w p :
  wf w → managed w p →
  ∃ t, heap w !! p = Some t ∧
       ((currentLock w = Some p ∧ Ticket.Status t = TicketStatusGranted) ∨
        (p ∈ queue w ∧ Ticket.Status t = TicketStatusWaiting)).
Proof.
  intros Hwf Hm.
  assert (currentLock w = Some p ∨ p ∈ queue w) as [Hh|Hin].
  { destruct Hm as [Hh|[Hin|[id Hidx]]]; [by left|by right|].
    by destruct (wf_tickets w Hwf id p Hidx) as (t & _ & _ & _ & Hwhere). }
  - destruct (wf_holder w Hwf p Hh) as (t & Hp & Hst & _). exists t. split; [done|by left].
  - destruct (wf_queue w Hwf p Hin) as (t & Hp & Hst & _). exists t. split; [done|by right].
Qed.

(** C1. Mutual exclusion.  In every world reached from the empty manager
    by any finite sequence of registry and lock-manager calls, a ticket the
    manager points to (through the holder slot, the queue or the id index)
    and whose status is granted is the ticket of the holder slot; hence two
    such granted tickets are the same ticket, and every queued ticket is
    waiting. *)
Theorem mutual_exclusion w (Hreach : reachable w) :
  (∀ p, managed w p →
        Ticket.Status (deref w p) = TicketStatusGranted → currentLock w = Some p) ∧
  (∀ p1 p2, managed w p1 → managed w p2 →
        Ticket.Status (deref w p1) = TicketStatusGranted →
        Ticket.Status (deref w p2) = TicketStatusGranted → p1 = p2) ∧
  (∀ p, p ∈ queue w → Ticket.Status (deref w p) = TicketStatusWaiting) ∧
  (∀ p, currentLock w = Some p →
        Ticket.Status (deref w p) = TicketStatusGranted ∧ p ∉ queue w).
Proof.
  pose proof (reachable_wf w Hreach) as Hwf.
  assert (Hholder : ∀ p, managed w p →
            Ticket.Status (deref w p) = TicketStatusGranted → currentLock w = Some p).
  { intros p Hm Hst.
    destruct (managed_cases w p Hwf Hm) as (t & Hp & [[Hh _]|[_ Hw]]); [done|].
    rewrite (deref_lookup w p t Hp) in Hst. congruence. }
  split_and!.
  - done.
  - intros p1 p2 Hm1 Hm2 Hs1 Hs2.
    pose proof (Hholder p1 Hm1 Hs1). pose proof (Hholder p2 Hm2 Hs2). congruence.
  - intros p Hin. destruct (wf_queue w Hwf p Hin) as (t & Hp & Hst & _).
    by rewrite (deref_lookup w p t Hp).
  - intros p Hh. destruct (wf_holder w Hwf p Hh) as (t & Hp & Hst & _).
    split; [by rewrite (deref_lookup w p t Hp)|by apply wf_holder_not_queued].
Qed.

(** C10. Terminal tickets are unreachable through [CheckLock].  In every
    reachable world a ticket of the id index is indexed under its own id,
    is waiting or granted, is the holder or a queued ticket, and its
    position is not negative; a ticket whose status is released or expired
    is in neither index, and [CheckLock] on its id answers
    [ErrTicketNotFound] and changes nothing. *)
Theorem terminal_tickets_not_found cfg now w (Hreach : reachable w) :
  (∀ id p, tickets w !! id = Some p →
     Ticket.TicketID (deref w p) = id ∧
     (Ticket.Status (deref w p) = TicketStatusWaiting ∨
      Ticket.Status (deref w p) = TicketStatusGranted) ∧
     (currentLock w = Some p ∨ p ∈ queue w) ∧
     (0 ≤ getQueuePosition id w)%Z ∧
     ∃ pos, CheckLock cfg now id w = ((CheckLock cfg now id w).1, Ok (p, pos)) ∧ (0 ≤ pos)%Z) ∧
  (∀ p t, heap w !! p = Some t → terminal t →
     tickets w !! Ticket.TicketID t = None ∧
     threadKeys w !! Ticket.Key t ≠ Some (Ticket.TicketID t) ∧
     CheckLock cfg now (Ticket.TicketID t) w = (w, Err ErrTicketNotFound)).
Proof.
  pose proof (reachable_wf w Hreach) as Hwf. split.
  - intros id p Hidx.
    destruct (wf_tickets w Hwf id p Hidx) as (t & Hp & Hid & _ & Hwhere).
    rewrite (deref_lookup w p t Hp).
    pose proof (wf_live w id p t Hwf Hidx Hp) as Hlive.
    split_and!; try done.
    + unfold Ticket.live, Ticket.IsWaiting, Ticket.IsGranted in Hlive.
      apply orb_true_iff in Hlive as [H|H]; apply bool_decide_eq_true in H; eauto.
    + by apply (getQueuePosition_indexed w id p).
    + pose proof (wf_CheckLock cfg now id w Hwf) as Hwf'.
      unfold CheckLock in *. rewrite Hidx in *. simpl in *.
      eexists. split; [done|].
      apply (getQueuePosition_indexed _ id p); [done|].
      destruct (_ && _); destruct (Ticket.IsGranted _); done.
  - intros p t Hp Hterm.
    destruct (terminal_not_indexed w p t Hwf Hp Hterm) as [Hnone Hkey].
    split_and!; try done. unfold CheckLock. by rewrite Hnone.
Qed.

Lemma freshUUIDb_sound op w : freshUUIDb op w = true → freshUUID op w.
Proof.
  destruct op; simpl; try done.
  intros H t Ht. rewrite forallb_forall in H.
  apply list_elem_of_In in Ht. specialize (H t Ht).
  apply negb_true_iff, bool_decide_eq_false in H. done.
Qed.

Lemma freshUUIDsb_sound steps w : freshUUIDsb steps w = true → freshUUIDs steps w.
Proof.
  revert w. induction steps as [|[[cfg now] op] steps IH]; intros w H; [done|].
  simpl in H. apply andb_true_iff in H as [H1 H2].
  split; [by apply freshUUIDb_sound|by apply IH].
Qed.

(** ** The grant step *)

Lemma tryGrantNext_holder cfg now w h :
  currentLock w = Some h → tryGrantNext cfg now w = w.
Proof. intros H. unfold tryGrantNext. by rewrite H. Qed.

Lemma tryGrantNext_empty cfg now w :
  queue w = [] → tryGrantNext cfg now w = w.
Proof. intros H. unfold tryGrantNext. rewrite H. by destruct (currentLock w). Qed.

Lemma tryGrantNext_grant cfg now w q rest :
  currentLock w = None → queue w = q :: rest →
  currentLock (tryGrantNext cfg now w) = Some q ∧
  queue (tryGrantNext cfg now w) = rest ∧
  heap (tryGrantNext cfg now w) =
    alter (Ticket.Grant now (seconds (LockMaxDuration cfg))) q (heap w) ∧
  tickets (tryGrantNext cfg now w) = tickets w ∧
  threadKeys (tryGrantNext cfg now w) = threadKeys w ∧
  tools (tryGrantNext cfg now w) = tools w.
Proof. intros Hc Hq. rewrite tryGrantNext_unfold, Hc, Hq. done. Qed.

Lemma tryGrantNext_indices cfg now w :
  tickets (tryGrantNext cfg now w) = tickets w ∧
  threadKeys (tryGrantNext cfg now w) = threadKeys w ∧
  tools (tryGrantNext cfg now w) = tools w ∧
  length (heap (tryGrantNext cfg now w)) = length (heap w).
Proof.
  rewrite tryGrantNext_unfold.
  destruct (currentLock w); [done|]. destruct (queue w); [done|].
  simpl. by rewrite length_alter.
Qed.

Lemma isCurrentLock_spec w id p :
  wf w → tickets w !! id = Some p →
  isCurrentLock id w = bool_decide (currentLock w = Some p).
Proof.
  intros Hwf Hidx. unfold isCurrentLock.
  destruct (currentLock w) as [h|] eqn:Hc; [|done].
  destruct (wf_holder w Hwf h Hc) as (th & Hh & _ & _ & Hidxh).
  rewrite (deref_lookup w h th Hh).
  destruct (decide (h = p)) as [->|Hne].
  - destruct (wf_tickets w Hwf id p Hidx) as (t & Hp & Hid & _).
    assert (t = th) as -> by congruence.
    rewrite !bool_decide_eq_true_2; done.
  - rewrite !bool_decide_eq_false_2; [done|congruence|].
    intros Heq. rewrite Heq in Hidxh. congruence.
Qed.

(** ** ReleaseLock *)

(** C7. [ReleaseLock] in a reachable world.  An id that is not in the
    ticket map gives [ErrTicketNotFound]; a ticket that is not in the holder
    slot gives [ErrNotLockHolder]; a call that fails returns the world it
    was given.  When the ticket is the holder the call succeeds: its status
    becomes released, it leaves the id index and the thread-key index, and
    the grant step runs on the emptied holder slot, so the head of the
    queue, if any, becomes the granted holder and leaves the queue. *)
Theorem ReleaseLock_semantics cfg now id w (Hreach : reachable w) :
  (tickets w !! id = None →
     ReleaseLock cfg now id w = (w, Err ErrTicketNotFound)) ∧
  (∀ p, tickets w !! id = Some p → currentLock w ≠ Some p →
     ReleaseLock cfg now id w = (w, Err ErrNotLockHolder)) ∧
  (∀ w' e, ReleaseLock cfg now id w = (w', Err e) → w' = w) ∧
  (∀ p, tickets w !! id = Some p → currentLock w = Some p →
     ∃ w', ReleaseLock cfg now id w = (w', Ok p) ∧
       Ticket.Status (deref w' p) = TicketStatusReleased ∧
       tickets w' = delete id (tickets w) ∧
       threadKeys w' = delete (Ticket.Key (deref w p)) (threadKeys w) ∧
       tools w' = tools w ∧
       match queue w with
       | [] => currentLock w' = None ∧ queue w' = []
       | q :: rest =>
           currentLock w' = Some q ∧ queue w' = rest ∧
           Ticket.Status (deref w' q) = TicketStatusGranted
       end).
Proof.
  pose proof (reachable_wf w Hreach) as Hwf. split_and!.
  - intros Hnone. unfold ReleaseLock. by rewrite Hnone.
  - intros p Hidx Hne. unfold ReleaseLock. rewrite Hidx.
    rewrite (isCurrentLock_spec w id p Hwf Hidx).
    by rewrite bool_decide_eq_false_2.
  - intros w' e. unfold ReleaseLock.
    destruct (tickets w !! id) as [p|]; [|by intros [= <- _]].
    destruct (isCurrentLock id w); simpl; [done|by intros [= <- _]].
  - intros p Hidx Hc.
    destruct (wf_holder w Hwf p Hc) as (tp & Hp & Hst & _ & Hidxp).
    destruct (wf_tickets w Hwf id p Hidx) as (tp' & Hp' & Hid & _).
    assert (tp' = tp) as -> by congruence.
    unfold ReleaseLock. rewrite Hidx.
    rewrite (isCurrentLock_spec w id p Hwf Hidx), bool_decide_eq_true_2 by done.
    simpl. eexists. split; [reflexivity|].
    set (w3 := cleanupTicket p (set_currentLock None (update p Ticket.Release w))).
    set (w4 := emit _ w3).
    assert (Hd3 : deref w3 p = Ticket.Release tp).
    { apply deref_lookup. subst w3. simpl. by rewrite list_lookup_alter_eq, Hp. }
    assert (Hdel : tickets w4 = delete id (tickets w) ∧
                   threadKeys w4 = delete (Ticket.Key (deref w p)) (threadKeys w)).
    { subst w4 w3. unfold cleanupTicket. simpl.
      change (deref (set_currentLock None (update p Ticket.Release w)) p)
        with (deref (update p Ticket.Release w) p).
      rewrite (deref_update_eq w p Ticket.Release tp Hp).
      rewrite (deref_lookup w p tp Hp). simpl. by rewrite <- Hid. }
    destruct Hdel as [Hdel1 Hdel2].
    destruct (tryGrantNext_indices cfg now w4) as (Ht & Hk & Hl & _).
    rewrite Ht, Hk, Hl.
    assert (Hc4 : currentLock w4 = None) by done.
    assert (Hq4 : queue w4 = queue w) by done.
    assert (Hh4 : heap w4 !! p = Some (Ticket.Release tp)).
    { subst w4 w3. simpl. by rewrite list_lookup_alter_eq, Hp. }
    split_and!; try done.
    + destruct (queue w) as [|q rest] eqn:Hq.
      * rewrite (tryGrantNext_empty cfg now w4 Hq4). by rewrite (deref_lookup _ _ _ Hh4).
      * destruct (tryGrantNext_grant cfg now w4 q rest Hc4 Hq4) as (_ & _ & Hheap & _).
        rewrite (deref_lookup _ p (Ticket.Release tp)); [done|].
        rewrite Hheap.
        rewrite list_lookup_alter_ne; [done|].
        intros ->. apply (wf_holder_not_queued w p Hwf Hc). rewrite Hq.
        apply elem_of_cons. by left.
    + destruct (queue w) as [|q rest] eqn:Hq.
      * by rewrite (tryGrantNext_empty cfg now w4 Hq4).
      * destruct (tryGrantNext_grant cfg now w4 q rest Hc4 Hq4) as (Hc' & Hq' & Hheap & _).
        split_and!; try done.
        assert (q ∈ queue w) as Hin by (rewrite Hq; apply elem_of_cons; by left).
        destruct (wf_queue w Hwf q Hin) as (tq & Hq0 & _).
        assert (p ≠ q) as Hpq.
        { intros ->. by apply (wf_holder_not_queued w q Hwf Hc). }
        rewrite (deref_lookup _ q (Ticket.Grant now (seconds (LockMaxDuration cfg)) tq));
          [done|].
        rewrite Hheap, list_lookup_alter_eq.
        subst w4 w3. simpl. rewrite list_lookup_alter_ne by done. by rewrite Hq0.
Qed.

(** ** ExtendLock *)

Lemma ExtendLock_Ok_inv cfg now id w w' p :
  wf w → ExtendLock cfg now id w = (w', Ok p) →
  ∃ tp, LockExtendable cfg = true ∧ tickets w !! id = Some p ∧
        currentLock w = Some p ∧ heap w !! p = Some tp ∧
        (Ticket.ExtendCount tp < LockExtendMax cfg)%Z ∧
        heap w' = alter (Ticket.Extend now (seconds (LockMaxDuration cfg))) p (heap w) ∧
        queue w' = queue w ∧ currentLock w' = currentLock w ∧
        tickets w' = tickets w ∧ threadKeys w' = threadKeys w ∧ tools w' = tools w.
Proof.
  intros Hwf. unfold ExtendLock.
  destruct (LockExtendable cfg); [|done]. simpl.
  destruct (tickets w !! id) as [q|] eqn:Hidx; [|done].
  rewrite (isCurrentLock_spec w id q Hwf Hidx).
  destruct (bool_decide (currentLock w = Some q)) eqn:Hcur; [|done]. simpl.
  apply bool_decide_eq_true in Hcur.
  destruct (wf_holder w Hwf q Hcur) as (tq & Hq & _).
  rewrite (deref_lookup w q tq Hq).
  destruct (bool_decide (LockExtendMax cfg ≤ Ticket.ExtendCount tq)%Z) eqn:Hmax; [done|].
  apply bool_decide_eq_false in Hmax.
  intros [= <- <-]. exists tq. split_and!; try done. lia.
Qed.

Lemma ExtendLock_Ok cfg now id w p tp :
  wf w → LockExtendable cfg = true → tickets w !! id = Some p →
  currentLock w = Some p → heap w !! p = Some tp →
  (Ticket.ExtendCount tp < LockExtendMax cfg)%Z →
  ∃ w', ExtendLock cfg now id w = (w', Ok p).
Proof.
  intros Hwf Hext Hidx Hc Hp Hlt. unfold ExtendLock.
  rewrite Hext, Hidx. simpl.
  rewrite (isCurrentLock_spec w id p Hwf Hidx), bool_decide_eq_true_2 by done.
  simpl. rewrite (deref_lookup w p tp Hp).
  rewrite bool_decide_eq_false_2 by lia. eauto.
Qed.

Lemma ExtendLock_Ok_deref cfg now id w w' p :
  wf w → ExtendLock cfg now id w = (w', Ok p) →
  deref w' p = Ticket.Extend now (seconds (LockMaxDuration cfg)) (deref w p).
Proof.
  intros Hwf Hok.
  destruct (ExtendLock_Ok_inv cfg now id w w' p Hwf Hok) as (tp & _ & _ & _ & Hp & _ & Hheap & _).
  rewrite (deref_lookup w p tp Hp). apply deref_lookup.
  by rewrite Hheap, list_lookup_alter_eq, Hp.
Qed.

Lemma ExtendLock_Ok_wf cfg now id w w' r :
  wf w → ExtendLock cfg now id w = (w', r) → wf w'.
Proof.
  intros Hwf Heq. pose proof (wf_ExtendLock cfg now id w Hwf) as H.
  by rewrite Heq in H.
Qed.

Lemma extendAll_count cfg nows id w p :
  wf w → (extendAll cfg nows id w).2 = true →
  tickets w !! id = Some p → currentLock w = Some p →
  wf (extendAll cfg nows id w).1 ∧
  tickets (extendAll cfg nows id w).1 !! id = Some p ∧
  currentLock (extendAll cfg nows id w).1 = Some p ∧
  Ticket.ExtendCount (deref (extendAll cfg nows id w).1 p) =
    (Ticket.ExtendCount (deref w p) + Z.of_nat (length nows))%Z.
Proof.
  revert w. induction nows as [|now nows IH]; intros w Hwf Hall Hidx Hc; simpl in *.
  - split_and!; try done. lia.
  - destruct (ExtendLock cfg now id w) as [w1 [q|e]] eqn:Hext; [|done].
    pose proof (ExtendLock_Ok_wf _ _ _ _ _ _ Hwf Hext) as Hwf1.
    destruct (ExtendLock_Ok_inv cfg now id w w1 q Hwf Hext)
      as (tp & _ & Hidx' & _ & _ & _ & _ & _ & Hc1 & Ht1 & _).
    assert (q = p) as -> by congruence.
    pose proof (ExtendLock_Ok_deref cfg now id w w1 p Hwf Hext) as Hd.
    destruct (IH w1 Hwf1 Hall) as (H1 & H2 & H3 & H4).
    { by rewrite Ht1. }
    { by rewrite Hc1. }
    split_and!; try done. rewrite H4, Hd. simpl. lia.
Qed.

Lemma extendAll_succeeds cfg nows id w p :
  wf w → LockExtendable cfg = true →
  tickets w !! id = Some p → currentLock w = Some p →
  (Ticket.ExtendCount (deref w p) + Z.of_nat (length nows) ≤ LockExtendMax cfg)%Z →
  (extendAll cfg nows id w).2 = true.
Proof.
  revert w. induction nows as [|now nows IH]; intros w Hwf Hext Hidx Hc Hle; [done|].
  simpl in *.
  destruct (wf_holder w Hwf p Hc) as (tp & Hp & _).
  rewrite (deref_lookup w p tp Hp) in Hle.
  destruct (ExtendLock_Ok cfg now id w p tp Hwf Hext Hidx Hc Hp) as [w1 Hok]; [lia|].
  rewrite Hok.
  pose proof (ExtendLock_Ok_wf _ _ _ _ _ _ Hwf Hok) as Hwf1.
  destruct (ExtendLock_Ok_inv cfg now id w w1 p Hwf Hok)
    as (tp' & _ & _ & _ & _ & _ & _ & _ & Hc1 & Ht1 & _).
  pose proof (ExtendLock_Ok_deref cfg now id w w1 p Hwf Hok) as Hd.
  apply IH; try done.
  - by rewrite Ht1.
  - by rewrite Hc1.
  - rewrite Hd, (deref_lookup w p tp Hp). simpl. lia.
Qed.

(** C6. The errors of [ExtendLock] in a reachable world.  With
    [lock_extendable] off every call fails with [ErrExtendDisabled].
    Otherwise an absent id gives [ErrTicketNotFound], a ticket that is not
    the holder gives [ErrNotLockHolder], and a holder whose extend count has
    reached [lock_extend_max] gives [ErrMaxExtendReached].  A failed call
    returns the world it was given.  A holder that was never extended can
    be extended [lock_extend_max] times, and after [lock_extend_max]
    successful extends of the holder the next one fails with
    [ErrMaxExtendReached]. *)
Theorem ExtendLock_errors cfg now id w (Hreach : reachable w) :
  (LockExtendable cfg = false →
     ExtendLock cfg now id w = (w, Err ErrExtendDisabled)) ∧
  (LockExtendable cfg = true → tickets w !! id = None →
     ExtendLock cfg now id w = (w, Err ErrTicketNotFound)) ∧
  (∀ p, LockExtendable cfg = true → tickets w !! id = Some p →
     currentLock w ≠ Some p →
     ExtendLock cfg now id w = (w, Err ErrNotLockHolder)) ∧
  (∀ p, LockExtendable cfg = true → tickets w !! id = Some p →
     currentLock w = Some p →
     (LockExtendMax cfg ≤ Ticket.ExtendCount (deref w p))%Z →
     ExtendLock cfg now id w = (w, Err ErrMaxExtendReached)) ∧
  (∀ w' e, ExtendLock cfg now id w = (w', Err e) → w' = w) ∧
  (∀ p nows, LockExtendable cfg = true → tickets w !! id = Some p →
     currentLock w = Some p → Ticket.ExtendCount (deref w p) = 0%Z →
     Z.of_nat (length nows) = LockExtendMax cfg →
     (extendAll cfg nows id w).2 = true) ∧
  (∀ p nows, LockExtendable cfg = true → tickets w !! id = Some p →
     currentLock w = Some p →
     Z.of_nat (length nows) = LockExtendMax cfg →
     (extendAll cfg nows id w).2 = true →
     ExtendLock cfg now id (extendAll cfg nows id w).1 =
       ((extendAll cfg nows id w).1, Err ErrMaxExtendReached)).
Proof.
  pose proof (reachable_wf w Hreach) as Hwf.
  assert (Hmax : ∀ w0 p, wf w0 → LockExtendable cfg = true → tickets w0 !! id = Some p →
     currentLock w0 = Some p →
     (LockExtendMax cfg ≤ Ticket.ExtendCount (deref w0 p))%Z →
     ExtendLock cfg now id w0 = (w0, Err ErrMaxExtendReached)).
  { intros w0 p Hwf0 Hext Hidx Hc Hle. unfold ExtendLock. rewrite Hext, Hidx. simpl.
    rewrite (isCurrentLock_spec w0 id p Hwf0 Hidx), bool_decide_eq_true_2 by done.
    simpl. by rewrite bool_decide_eq_true_2. }
  split_and!.
  - intros Hext. unfold ExtendLock. by rewrite Hext.
  - intros Hext Hnone. unfold ExtendLock. by rewrite Hext, Hnone.
  - intros p Hext Hidx Hne. unfold ExtendLock. rewrite Hext, Hidx. simpl.
    rewrite (isCurrentLock_spec w id p Hwf Hidx).
    by rewrite bool_decide_eq_false_2.
  - intros p. by apply Hmax.
  - intros w' e. unfold ExtendLock.
    destruct (LockExtendable cfg); simpl; [|by intros [= <- _]].
    destruct (tickets w !! id) as [p|]; [|by intros [= <- _]].
    destruct (isCurrentLock id w); simpl; [|by intros [= <- _]].
    destruct (bool_decide _); [by intros [= <- _]|done].
  - intros p nows Hext Hidx Hc Hzero Hlen.
    apply (extendAll_succeeds cfg nows id w p); try done. lia.
  - intros p nows Hext Hidx Hc Hlen Hall.
    destruct (extendAll_count cfg nows id w p Hwf Hall Hidx Hc) as (Hwf' & Hidx' & Hc' & Hcnt).
    apply (Hmax _ p); try done.
    destruct (wf_holder w Hwf p Hc) as (tp & Hp & _ & Hge & _).
    rewrite (deref_lookup w p tp Hp) in Hcnt. lia.
Qed.

(** ** RequestLock *)





(** ** Tickets of offline tools *)

(** Every managed ticket belongs to a tool that the registry knows. *)
Lemma managed_tool_registered w p :
  reachable w → managed w p → is_Some (tools w !! Ticket.ToolID (deref w p)).
Proof.
  intros Hreach Hm. pose proof (reachable_wf w Hreach) as Hwf.
  destruct (managed_cases w p Hwf Hm) as (t & Hp & _).
  rewrite (deref_lookup w p t Hp). apply (wf_tools w Hwf).
  apply list_elem_of_lookup. eauto.
Qed.

(** [Unregister] writes to the registry only. *)
Lemma Unregister_keeps_tickets toolID w :
  heap (Unregister toolID w).1 = heap w ∧
  queue (Unregister toolID w).1 = queue w ∧
  currentLock (Unregister toolID w).1 = currentLock w ∧
  tickets (Unregister toolID w).1 = tickets w ∧
  threadKeys (Unregister toolID w).1 = threadKeys w.
Proof. unfold Unregister. by destruct (tools w !! toolID). Qed.

(** The heartbeat path does remove the tickets of the tool it takes
    offline: when B's heartbeat times out while it waits, [checkHeartbeats]
    drops its ticket from the queue and from the id index. *)
Example heartbeat_timeout_removes_tickets :
  let w := run silentWhileQueued init in
  let w' := checkHeartbeats Default (seconds 301) w in
  queue w = [1] ∧ tickets w !! "u2" = Some 1 ∧
  IsOnline "B" w' = false ∧ queue w' = [] ∧ tickets w' !! "u2" = None ∧
  currentLock w' = Some 0.
Proof. by vm_compute. Qed.

(** C2 (failing execution).  Tools A and B register; A is granted the lock
    and B queues behind it; B unregisters, which takes it offline but
    leaves its ticket at the head of the queue; when A releases, the grant
    step hands the lock to the ticket of the offline tool B. *)
Theorem grant_to_unregistered_tool :
  let w := run unregisterWhileQueued init in
  let w' := (ReleaseLock Default 5 "u1" w).1 in
  reachable w ∧ reachable w' ∧
  IsOnline "B" w = false ∧ queue w = [1] ∧ tickets w !! "u2" = Some 1 ∧
  Ticket.ToolID (deref w 1) = "B" ∧
  currentLock w' = Some 1 ∧
  Ticket.Status (deref w' 1) = TicketStatusGranted ∧
  Ticket.ToolID (deref w' 1) = "B" ∧
  IsOnline "B" w' = false.
Proof.
  intros w w'.
  assert (Hreach : reachable w).
  { apply reachable_run; [apply reachable_init|].
    apply freshUUIDsb_sound. by vm_compute. }
  split_and!; try by vm_compute.
  by apply (reachable_step Default 5 (OpReleaseLock "u1") w).
Qed.

(** C5 (counterexample).  With the default configuration
    ([lock_max_duration] = 20 s) a ticket is granted at instant 0 and
    extended after one second and again after two seconds.  Both extends
    succeed; the deadline set at grant time is 20 s and the deadline after
    the two extends is 22 s: it has advanced by 2 s, not by 40 s. *)
Lemma extend_twice_advances_by_elapsed_time :
  let wg := run grantedAtZero init in
  let r1 := ExtendLock Default (seconds 1) "u1" wg in
  let r2 := ExtendLock Default (seconds 2) "u1" r1.1 in
  reachable wg ∧ currentLock wg = Some 0 ∧
  r1.2 = Ok 0 ∧ r2.2 = Ok 0 ∧
  Ticket.ExpiresAt (deref wg 0) = seconds 20 ∧
  Ticket.ExpiresAt (deref r2.1 0) = seconds 22 ∧
  (Ticket.ExpiresAt (deref r2.1 0) - Ticket.ExpiresAt (deref wg 0))%Z
    ≠ (2 * seconds (LockMaxDuration Default))%Z.
Proof.
  intros wg r1 r2. split_and!; try by vm_compute.
  apply reachable_run; [apply reachable_init|].
  apply freshUUIDsb_sound. by vm_compute.
Qed.

(** ** FIFO order *)

(** Addresses follow the order of allocation, and [RequestLock] enqueues
    the ticket it allocates at the tail: the order of the addresses in the
    queue is the order of enqueueing. *)
Lemma RequestLock_enqueues_at_tail cfg now uuid toolID threadID w :
  IsOnline toolID w = true →
  existingTicket (toolID +:+ ":" +:+ threadID) w = None →
  ∃ w5, (RequestLock cfg now uuid toolID threadID w).1 = tryGrantNext cfg now w5 ∧
        heap w5 = heap w ++ [Ticket.NewTicket now uuid toolID threadID] ∧
        queue w5 = queue w ++ [length (heap w)] ∧
        currentLock w5 = currentLock w.
Proof.
  intros Honline Hex. unfold RequestLock. rewrite Honline. simpl. rewrite Hex.
  simpl. eexists. split; [reflexivity|]. done.
Qed.

(** The grant step takes the head of the queue. *)
Lemma tryGrantNext_takes_head cfg now w p :
  currentLock (tryGrantNext cfg now w) = Some p → currentLock w ≠ Some p →
  ∃ rest, queue w = p :: rest ∧ queue (tryGrantNext cfg now w) = rest.
Proof.
  rewrite tryGrantNext_unfold.
  destruct (currentLock w) as [h|] eqn:Hc; [congruence|].
  destruct (queue w) as [|q rest] eqn:Hq; [congruence|].
  simpl. intros [= ->] _. eauto.
Qed.

Lemma enqueuedAfter_lt w a b : wf w → enqueuedAfter a b w → a ∈ queue w ∧ a < b.
Proof.
  intros Hwf [(q1 & q2 & q3 & Hq)|[Hin Hb]].
  - assert (Hsorted := wf_sorted w Hwf). rewrite Hq in Hsorted.
    apply StronglySorted_app_1_r, StronglySorted_cons in Hsorted as [Hall _].
    rewrite Forall_forall in Hall. split.
    + rewrite Hq. apply elem_of_app. right. apply elem_of_cons. by left.
    + apply Hall. apply elem_of_app. right. apply elem_of_cons. by left.
  - split; [done|].
    destruct (wf_queue w Hwf a Hin) as (t & Ha & _).
    apply lookup_lt_Some in Ha. lia.
Qed.

Lemma waits_until_granted a steps :
  ∀ w, leavesOnlyByGrant a steps w →
       a ∈ queue w ∨ currentLock w = Some a →
       a ∈ queue (run steps w) ∨ currentLock (run steps w) = Some a ∨
       ∃ wa, wa ∈ visited steps w ∧ currentLock wa = Some a.
Proof.
  induction steps as [|[[cfg now] op] steps IH]; intros w Hleave Hstart.
  - destruct Hstart; [by left|right; by left].
  - destruct Hleave as [Hstep Hleave]. cbn [run visited foldl].
    destruct Hstart as [Hin|Hh].
    + destruct (IH _ Hleave (Hstep Hin)) as [H|[H|(wa & Hwa & Hh)]].
      * by left.
      * right. by left.
      * right. right. exists wa. split; [|done]. apply elem_of_cons. by right.
    + right. right. exists w. split; [|done]. apply elem_of_cons. by left.
Qed.

(** C4. FIFO fairness.  Ticket [a] waits in a reachable world and ticket
    [b] is enqueued after it (it stands behind [a], or is allocated later).
    In any execution from there in which [a] leaves the queue only by being
    granted (no TTL expiry and no removal for an offline tool) and which
    ends with [b] in the holder slot, [a] held the lock in a world the
    execution went through before; and in the world where [b] holds the
    lock every ticket still waiting was enqueued after [b]. *)
Theorem fifo_fairness a b steps w
    (Hreach : reachable w) (Hfresh : freshUUIDs steps w)
    (Horder : enqueuedAfter a b w)
    (Hleave : leavesOnlyByGrant a steps w)
    (Hgranted : currentLock (run steps w) = Some b) :
  (∃ wa, wa ∈ visited steps w ∧ currentLock wa = Some a) ∧
  (∀ q, q ∈ queue (run steps w) → b < q).
Proof.
  pose proof (reachable_wf w Hreach) as Hwf.
  pose proof (reachable_wf _ (reachable_run steps w Hreach Hfresh)) as Hwfn.
  destruct (enqueuedAfter_lt w a b Hwf Horder) as [Hin Hlt].
  assert (Hfirst : ∀ q, q ∈ queue (run steps w) → b < q).
  { intros q Hq. by apply (wf_holder_first _ Hwfn). }
  split; [|done].
  destruct (waits_until_granted a steps w Hleave (or_introl Hin)) as [H|[H|H]].
  - specialize (Hfirst a H). lia.
  - assert (a = b) by congruence. lia.
  - done.
Qed.

(** ** The TTL sweep *)

Lemma filter_ext_elem {A} (P1 P2 : A → Prop)
    `{!∀ x, Decision (P1 x), !∀ x, Decision (P2 x)} (l : list A) :
  (∀ x, x ∈ l → (P1 x ↔ P2 x)) → filter P1 l = filter P2 l.
Proof.
  induction l as [|x l IH]; intros Hext; [done|].
  assert (filter P1 l = filter P2 l) as Hl.
  { apply IH. intros y Hy. apply Hext. apply elem_of_cons. by right. }
  assert (P1 x ↔ P2 x) as Hx by (apply Hext; apply elem_of_cons; by left).
  destruct (decide (P1 x)) as [H1|H1].
  - rewrite !filter_cons_True by tauto. by rewrite Hl.
  - rewrite !filter_cons_False by tauto. done.
Qed.

Lemma sweepTicket_expired now ttl w expired newQueue p :
  Ticket.IsTTLExpired now ttl (deref w p) = true →
  ∃ w3, sweepTicket now ttl (w, expired, newQueue) p = (w3, expired ++ [p], newQueue) ∧
        heap w3 = alter Ticket.Expire p (heap w) ∧
        queue w3 = queue w ∧ currentLock w3 = currentLock w ∧ tools w3 = tools w ∧
        tickets w3 ⊆ tickets w ∧ threadKeys w3 ⊆ threadKeys w.
Proof.
  intros H. unfold sweepTicket. rewrite H. eexists. split; [reflexivity|].
  simpl. split_and!; try done; apply delete_subseteq.
Qed.

Lemma sweep_fold now ttl todo :
  ∀ w expired newQueue, NoDup todo →
    let P := λ p, Ticket.IsTTLExpired now ttl (deref w p) = true in
    let r := foldl (sweepTicket now ttl) (w, expired, newQueue) todo in
    r.1.2 = expired ++ filter P todo ∧
    r.2 = newQueue ++ filter (λ p, ¬ P p) todo ∧
    queue r.1.1 = queue w ∧ currentLock r.1.1 = currentLock w ∧
    tools r.1.1 = tools w ∧
    tickets r.1.1 ⊆ tickets w ∧ threadKeys r.1.1 ⊆ threadKeys w ∧
    (∀ q, q ∈ filter P todo → heap r.1.1 !! q = Ticket.Expire <$> heap w !! q) ∧
    (∀ q, q ∉ filter P todo → heap r.1.1 !! q = heap w !! q).
Proof.
  induction todo as [|p todo IH]; intros w expired newQueue Hnd P r.
  - subst r. simpl. rewrite !app_nil_r. split_and!; try done.
    intros q Hq. by apply elem_of_nil in Hq.
  - apply NoDup_cons in Hnd as [Hp Hnd]. subst r. cbn [foldl].
    destruct (Ticket.IsTTLExpired now ttl (deref w p)) eqn:HP.
    + destruct (sweepTicket_expired now ttl w expired newQueue p HP)
        as (w3 & -> & Hheap & Hq3 & Hc3 & Hl3 & Ht3 & Hk3).
      assert (Hsame : ∀ q, q ∈ todo →
                (Ticket.IsTTLExpired now ttl (deref w3 q) = true ↔ P q)).
      { intros q Hq. subst P. simpl. unfold deref. rewrite Hheap.
        rewrite list_lookup_total_alter_ne; [done|]. intros ->. done. }
      destruct (IH w3 (expired ++ [p]) newQueue Hnd)
        as (He & Hn & Hqu & Hc & Hl & Ht & Hk & Hin & Hout).
      rewrite (filter_ext_elem _ P todo Hsame) in He, Hin, Hout.
      rewrite (filter_ext_elem _ (λ q, ¬ P q) todo) in Hn
        by (intros q' Hq'; by rewrite (Hsame q' Hq')).
      rewrite filter_cons_True by done.
      rewrite (filter_cons_False (λ q, ¬ P q)) by (intros H; by apply H).
      split_and!.
      * rewrite He. by rewrite <- app_assoc.
      * done.
      * congruence.
      * congruence.
      * congruence.
      * by etrans.
      * by etrans.
      * intros q [->|Hq]%elem_of_cons.
        -- rewrite Hout, Hheap; [by apply list_lookup_alter_eq|].
           intros [_ ?]%list_elem_of_filter. done.
        -- rewrite (Hin q Hq), Hheap. rewrite list_lookup_alter_ne; [done|].
           intros ->. apply list_elem_of_filter in Hq as [_ ?]. done.
      * intros q Hq. rewrite Hout, Hheap.
        -- rewrite list_lookup_alter_ne; [done|]. intros ->.
           apply Hq. apply elem_of_cons. by left.
        -- intros H. apply Hq. apply elem_of_cons. by right.
    + assert (sweepTicket now ttl (w, expired, newQueue) p
                = (w, expired, newQueue ++ [p])) as ->.
      { unfold sweepTicket. by rewrite HP. }
      destruct (IH w expired (newQueue ++ [p]) Hnd)
        as (He & Hn & Hqu & Hc & Hl & Ht & Hk & Hin & Hout).
      assert (¬ P p) as HnP by (subst P; simpl; by rewrite HP).
      rewrite filter_cons_False by done.
      rewrite (filter_cons_True (λ q, ¬ P q)) by done.
      split_and!; try done. rewrite Hn. by rewrite <- app_assoc.
Qed.

Lemma StronglySorted_lt_NoDup (l : list nat) : StronglySorted lt l → NoDup l.
Proof.
  induction 1 as [|x l _ IH Hall]; [constructor|].
  apply NoDup_cons. split; [|done].
  intros Hin. rewrite Forall_forall in Hall. specialize (Hall x Hin). lia.
Qed.


(** The ticket that [RequestLock] creates starts its TTL clock at the
    instant of the request. *)
Lemma NewTicket_clock now uuid toolID threadID :
  Ticket.LastPollAt (Ticket.NewTicket now uuid toolID threadID) = now ∧
  Ticket.RequestedAt (Ticket.NewTicket now uuid toolID threadID) = now ∧
  Ticket.Status (Ticket.NewTicket now uuid toolID threadID) = TicketStatusWaiting.
Proof. done. Qed.


(** ** Counters *)

Lemma countEvents_snoc f es e :
  countEvents f (es ++ [e]) = (countEvents f es + if f e then 1 else 0)%Z.
Proof.
  unfold countEvents. rewrite filter_app, length_app.
  destruct (f e) eqn:He.
  - rewrite (filter_cons_True _ e []) by done. simpl. lia.
  - rewrite (filter_cons_False _ e []) by (by rewrite He). simpl. lia.
Qed.

Lemma countEvents_cons f e es :
  countEvents f (e :: es) = ((if f e then 1 else 0) + countEvents f es)%Z.
Proof.
  unfold countEvents. destruct (f e) eqn:He.
  - rewrite filter_cons_True by done. simpl length. lia.
  - rewrite filter_cons_False by (by rewrite He). lia.
Qed.

Lemma balance_ext w w' :
  events w' = events w → currentLock w' = currentLock w → balance w' = balance w.
Proof.
  intros He Hc. unfold balance, holderCount. by rewrite He, Hc.
Qed.

Lemma balance_emit e w :
  balance (emit e w) =
  (balance w + (if isGranted e then 1 else 0) - (if isReleased e then 1 else 0)
   - (if isLockExpired e then 1 else 0))%Z.
Proof.
  unfold balance, holderCount. simpl. rewrite !countEvents_snoc. lia.
Qed.

Lemma balance_tryGrantNext cfg now w : balance (tryGrantNext cfg now w) = balance w.
Proof.
  rewrite tryGrantNext_unfold.
  destruct (currentLock w) as [h|] eqn:Hc; [done|].
  destruct (queue w) as [|p rest] eqn:Hq; [done|].
  cbv zeta. rewrite balance_emit. simpl.
  unfold balance, holderCount. simpl. rewrite Hc. lia.
Qed.

Lemma balance_drop_holder f p w e :
  currentLock w = Some p → isGranted e = false →
  balance (emit e (cleanupTicket p (set_currentLock None (update p f w)))) =
  (balance w + 1 - (if isReleased e then 1 else 0) - (if isLockExpired e then 1 else 0))%Z.
Proof.
  intros Hc He. rewrite balance_emit, He.
  unfold balance, holderCount. simpl. rewrite Hc. lia.
Qed.

Lemma sweep_fold_events now ttl todo :
  ∀ w expired newQueue,
    balance (foldl (sweepTicket now ttl) (w, expired, newQueue) todo).1.1 = balance w.
Proof.
  induction todo as [|p todo IH]; intros w expired newQueue; [done|].
  cbn [foldl]. unfold sweepTicket at 2.
  destruct (Ticket.IsTTLExpired now ttl (deref w p)); [|apply IH].
  rewrite IH, balance_emit. simpl.
  unfold balance, holderCount. simpl. lia.
Qed.

Lemma remove_fold_events toolID todo :
  ∀ w removed newQueue,
    balance (foldl (removeTicket toolID) (w, removed, newQueue) todo).1.1 = balance w.
Proof.
  induction todo as [|p todo IH]; intros w removed newQueue; [done|].
  cbn [foldl]. unfold removeTicket at 2.
  destruct (bool_decide _); [|apply IH].
  rewrite IH. by apply balance_ext.
Qed.

Lemma balance_registry w w' e :
  currentLock w' = currentLock w → events w' = events w →
  isGranted e = false → isReleased e = false → isLockExpired e = false →
  balance (emit e w') = balance w.
Proof.
  intros Hc He H1 H2 H3. rewrite balance_emit, H1, H2, H3.
  rewrite (balance_ext w w') by done. lia.
Qed.

(** Each call changes the balance by the holder it drops silently. *)
Lemma balance_exec cfg now op w :
  balance (exec cfg now op w) = (balance w + dropsHolder op w)%Z.
Proof.
  destruct op; simpl; rewrite ?Z.add_0_r.
  - unfold Register. destruct (tools w !! toolID) as [tool|].
    + destruct (Tool.IsOnline tool); [done|]. by apply balance_registry.
    + by apply balance_registry.
  - unfold Heartbeat. destruct (tools w !! toolID); [|done]. by apply balance_registry.
  - unfold Unregister. destruct (tools w !! toolID); [|done]. by apply balance_registry.
  - unfold CheckAndMarkOffline. simpl.
    match goal with |- balance (foldl _ ?w0 ?l) = _ =>
      assert (∀ w1, balance (foldl (λ w' toolID,
                 emit (LogToolOffline toolID "heartbeat_timeout") w') w1 l) = balance w1) as ->
    end.
    { intros w1. match goal with |- balance (foldl _ _ ?l) = _ => generalize l end.
      intros l. revert w1. induction l as [|a l IH]; intros w1; [done|].
      simpl. rewrite IH, balance_emit. simpl. lia. }
    by apply balance_ext.
  - unfold RequestLock. destruct (IsOnline toolID w); [|done]. simpl.
    destruct (existingTicket _ w); [done|]. simpl.
    rewrite balance_tryGrantNext, balance_emit. simpl.
    rewrite Z.add_0_r, !Z.sub_0_r. by apply balance_ext.
  - unfold CheckLock. destruct (tickets w !! ticketID) as [p|]; [|done]. simpl.
    destruct (_ && _); destruct (Ticket.IsGranted _); by apply balance_ext.
  - unfold ReleaseLock. destruct (tickets w !! ticketID) as [p|]; [|done].
    destruct (isCurrentLock ticketID w) eqn:Hcur; [|done]. simpl.
    unfold isCurrentLock in Hcur. destruct (currentLock w) as [h|] eqn:Hc; [|done].
    rewrite balance_tryGrantNext, balance_emit. simpl.
    unfold balance, holderCount. simpl. rewrite Hc. lia.
  - unfold ExtendLock. destruct (LockExtendable cfg); [|done]. simpl.
    destruct (tickets w !! ticketID) as [p|]; [|done].
    destruct (isCurrentLock ticketID w); [|done]. simpl.
    destruct (bool_decide _); [done|]. simpl.
    rewrite balance_emit. simpl. rewrite Z.add_0_r, !Z.sub_0_r. by apply balance_ext.
  - unfold ExpireCurrentLock. destruct (currentLock w) as [p|] eqn:Hc; [|done].
    simpl. unfold expireHolder. rewrite balance_tryGrantNext.
    rewrite (balance_drop_holder _ _ _ _ Hc) by done. simpl. lia.
  - unfold ExpireWaitingTickets.
    pose proof (sweep_fold_events now (seconds (TicketTTL cfg)) (queue w) w [] []) as H.
    destruct (foldl _ _ _) as [[w' expired] newQueue]. simpl in *.
    rewrite <- H. by apply balance_ext.
  - unfold CheckGracePeriod. destruct (currentLock w) as [p|] eqn:Hc; [|done].
    destruct (Ticket.IsGracePeriodExpired _ _ _); [|done].
    simpl. unfold expireHolder. rewrite balance_tryGrantNext.
    rewrite (balance_drop_holder _ _ _ _ Hc) by done. simpl. lia.
  - unfold CheckLockExpiry. destruct (currentLock w) as [p|] eqn:Hc; [|done].
    destruct (Ticket.IsLockExpired _ _); [|done].
    simpl. unfold expireHolder. rewrite balance_tryGrantNext.
    rewrite (balance_drop_holder _ _ _ _ Hc) by done. simpl. lia.
  - unfold RemoveToolTickets.
    set (start := match currentLock w with
                  | Some h =>
                      if bool_decide (Ticket.ToolID (deref w h) = toolID)
                      then (set_currentLock None (cleanupTicket h w),
                            [Ticket.TicketID (deref w h)])
                      else (w, [])
                  | None => (w, [])
                  end).
    assert (Hstart : balance start.1 =
              (balance w + match currentLock w with
                           | Some h =>
                               if bool_decide (Ticket.ToolID (deref w h) = toolID)
                               then 1 else 0
                           | None => 0
                           end)%Z).
    { subst start. destruct (currentLock w) as [h|] eqn:Hc; [|simpl; lia].
      destruct (bool_decide _); [|simpl; lia].
      unfold balance, holderCount. simpl. rewrite Hc. lia. }
    destruct start as [w1 removed1]. simpl in Hstart.
    pose proof (remove_fold_events toolID (queue w1) w1 removed1 []) as H.
    destruct (foldl _ _ _) as [[w2 removed] newQueue]. simpl in H.
    rewrite <- Hstart, <- H.
    destruct (bool_decide _); simpl; [rewrite balance_tryGrantNext|];
      by apply balance_ext.
Qed.

Lemma balance_run steps w :
  balance (run steps w) = (balance w + droppedHolders steps w)%Z.
Proof.
  revert w. induction steps as [|[[cfg now] op] steps IH]; intros w.
  - simpl. lia.
  - change (run ((cfg, now, op) :: steps) w) with (run steps (exec cfg now op w)).
    rewrite IH, balance_exec. simpl. lia.
Qed.

Lemma dropsHolder_nonneg op w : (0 ≤ dropsHolder op w)%Z.
Proof.
  destruct op; simpl; try lia.
  destruct (currentLock w); [|lia]. destruct (bool_decide _); lia.
Qed.

Lemma droppedHolders_nonneg steps w : (0 ≤ droppedHolders steps w)%Z.
Proof.
  revert w. induction steps as [|[[cfg now] op] steps IH]; intros w; simpl; [lia|].
  pose proof (dropsHolder_nonneg op w). specialize (IH (exec cfg now op w)). lia.
Qed.

Lemma wrap64_add_l a b : wrap64 (wrap64 a + b) = wrap64 (a + b).
Proof.
  unfold wrap64.
  replace ((a + 2 ^ 63) `mod` 2 ^ 64 - 2 ^ 63 + b + 2 ^ 63)%Z
    with ((a + 2 ^ 63) `mod` 2 ^ 64 + b)%Z by lia.
  rewrite Zplus_mod_idemp_l. f_equal. f_equal. lia.
Qed.

Lemma recordAll_cons e es el : recordAll (e :: es) el = recordAll es (record e el).
Proof. done. Qed.

(** A counter that [record] bumps on the events selected by [f] holds, after
    a segment, the number of selected events of the segment, added to its
    start value modulo 2^64. *)
Lemma counter_recordAll (c : EventLogger → Z) (f : Event → bool) :
  (∀ e el, c (record e el) = if f e then wrap64 (c el + 1) else c el) →
  ∀ es el, wrap64 (c el) = c el →
    c (recordAll es el) = wrap64 (c el + countEvents f es).
Proof.
  intros Hc es. induction es as [|e es IH]; intros el Hok.
  - simpl. unfold countEvents. simpl. by rewrite Z.add_0_r.
  - rewrite recordAll_cons, countEvents_cons. rewrite IH.
    + rewrite Hc. destruct (f e).
      * rewrite wrap64_add_l. f_equal; lia.
      * f_equal; lia.
    + rewrite Hc. destruct (f e); [|done].
      rewrite <- (Z.add_0_r (wrap64 (c el + 1))) at 1. rewrite wrap64_add_l.
      f_equal; lia.
Qed.

Lemma locksGranted_recordAll es el :
  locksGranted el = 0%Z →
  locksGranted (recordAll es el) = wrap64 (countEvents isGranted es).
Proof.
  intros H0. rewrite (counter_recordAll locksGranted isGranted).
  - by rewrite H0.
  - by intros [] el'.
  - by rewrite H0.
Qed.

Lemma locksReleased_recordAll es el :
  locksReleased el = 0%Z →
  locksReleased (recordAll es el) = wrap64 (countEvents isReleased es).
Proof.
  intros H0. rewrite (counter_recordAll locksReleased isReleased).
  - by rewrite H0.
  - by intros [] el'.
  - by rewrite H0.
Qed.

Lemma locksExpired_recordAll es el :
  locksExpired el = 0%Z →
  locksExpired (recordAll es el) = wrap64 (countEvents isLockExpired es).
Proof.
  intros H0. rewrite (counter_recordAll locksExpired isLockExpired).
  - by rewrite H0.
  - by intros [] el'.
  - by rewrite H0.
Qed.

Lemma expiredTickets_recordAll es el :
  expiredTickets el = 0%Z →
  expiredTickets (recordAll es el) = wrap64 (countEvents isTicketExpired es).
Proof.
  intros H0. rewrite (counter_recordAll expiredTickets isTicketExpired).
  - by rewrite H0.
  - by intros [] el'.
  - by rewrite H0.
Qed.

Lemma failedRequests_recordAll es el :
  failedRequests el = 0%Z →
  failedRequests (recordAll es el) = wrap64 (countEvents isError es).
Proof.
  intros H0. rewrite (counter_recordAll failedRequests isError).
  - by rewrite H0.
  - by intros [] el'.
  - by rewrite H0.
Qed.

Lemma collect_reports minutes :
  ∀ el, locksGranted el = 0%Z → expiredTickets el = 0%Z → failedRequests el = 0%Z →
        Forall2 reports minutes (collect minutes el).2.
Proof.
  induction minutes as [|[es now] minutes IH]; intros el Hg He Hf; simpl.
  - constructor.
  - destruct (collect minutes _) as [el2 ms] eqn:Hrest. simpl.
    constructor.
    + unfold reports. simpl.
      rewrite (locksGranted_recordAll es el Hg).
      rewrite (expiredTickets_recordAll es el He).
      by rewrite (failedRequests_recordAll es el Hf).
    + specialize (IH (GetMinuteMetrics now (recordAll es el)).1). simpl in IH.
      rewrite Hrest in IH. by apply IH.
Qed.

(** C9 (counterexample).  A tool that has stopped sending heartbeats is
    granted the lock shortly before its heartbeat times out, and is swept
    while it holds it: the holder is dropped without a release or an expiry
    being logged, so that with no holder and an empty queue the logger has
    counted one grant, no release and no lock expiry.  Moreover a logged
    lock expiry is reset by [GetMinuteMetrics] without appearing in the
    snapshot: the snapshot and the logger after the call are the same as if
    the event had never been recorded. *)
Lemma minute_metrics_lose_holder_events :
  let w := run heartbeatLost init in
  let el := recordAll (events w) NewEventLogger in
  let el1 := record (LogLockExpired "u1" "A" "t" "max_duration_expired" 0) NewEventLogger in
  reachable w ∧ currentLock w = None ∧ queue w = [] ∧
  locksGranted el = 1%Z ∧ locksReleased el = 0%Z ∧ locksExpired el = 0%Z ∧
  locksGranted el ≠ (locksReleased el + locksExpired el)%Z ∧
  locksExpired el1 = 1%Z ∧
  GetMinuteMetrics 60 el1 = GetMinuteMetrics 60 NewEventLogger.
Proof.
  intros w el el1. split_and!; try by vm_compute.
  apply reachable_run; [apply reachable_init|].
  apply freshUUIDsb_sound. by vm_compute.
Qed.

(** C9 (amended).  [GetMinuteMetrics] returns [locks_granted],
    [expired_tickets] and [failed_requests] and the truncated averages of the
    wait and hold times, and resets these counters, the sums and the counts,
    and also [locks_released] and [locks_expired], which it does not return.
    The snapshots of successive calls therefore report, minute by minute,
    exactly the grants, the ticket expiries and the failed requests of that
    minute (modulo 2^64).  Over an execution of the manager the grants equal
    the releases plus the lock expiries plus the present holder plus the
    holders dropped by [RemoveToolTickets]. *)
Theorem minute_metrics_partition minutes steps :
  (∀ now el,
     let r := GetMinuteMetrics now el in
     LocksGrantedLastMin r.2 = locksGranted el ∧
     ExpiredTickets r.2 = expiredTickets el ∧
     FailedRequests r.2 = failedRequests el ∧
     AvgWaitTimeMs r.2 =
       (if bool_decide (0 < waitCount el)%Z then (totalWaitTime el ÷ waitCount el)%Z else 0%Z) ∧
     AvgHoldTimeMs r.2 =
       (if bool_decide (0 < holdCount el)%Z then (totalHoldTime el ÷ holdCount el)%Z else 0%Z) ∧
     locksGranted r.1 = 0%Z ∧ expiredTickets r.1 = 0%Z ∧ failedRequests r.1 = 0%Z ∧
     locksReleased r.1 = 0%Z ∧ locksExpired r.1 = 0%Z ∧
     totalWaitTime r.1 = 0%Z ∧ totalHoldTime r.1 = 0%Z ∧
     waitCount r.1 = 0%Z ∧ holdCount r.1 = 0%Z) ∧
  Forall2 reports minutes (collect minutes NewEventLogger).2 ∧
  (let w := run steps init in
   countEvents isGranted (events w) =
     (countEvents isReleased (events w) + countEvents isLockExpired (events w)
      + holderCount w + droppedHolders steps init)%Z ∧
   (0 ≤ droppedHolders steps init)%Z).
Proof.
  split_and!.
  - intros now el. simpl. by split_and!.
  - by apply collect_reports.
  - pose proof (balance_run steps init) as H. unfold balance in H.
    change (countEvents isGranted (events init)) with 0%Z in H.
    change (countEvents isReleased (events init)) with 0%Z in H.
    change (countEvents isLockExpired (events init)) with 0%Z in H.
    change (holderCount init) with 0%Z in H. cbv zeta.
    split; [lia|apply droppedHolders_nonneg].
Qed.

(** ** Where the holder changes *)

Lemma remove_fold_currentLock toolID todo :
  ∀ w removed newQueue,
    currentLock (foldl (removeTicket toolID) (w, removed, newQueue) todo).1.1 = currentLock w.
Proof.
  induction todo as [|p todo IH]; intros w removed newQueue; [done|].
  cbn [foldl]. unfold removeTicket at 2.
  destruct (bool_decide _); [|apply IH]. by rewrite IH.
Qed.

(** A call either leaves the holder slot as it was, or empties it, or ends
    with the grant step run on a well-formed world whose holder slot is
    empty or unchanged. *)
Lemma exec_shape cfg now op w :
  wf w → freshUUID op w →
  currentLock (exec cfg now op w) = currentLock w ∨
  currentLock (exec cfg now op w) = None ∨
  ∃ w4, wf w4 ∧ exec cfg now op w = tryGrantNext cfg now w4 ∧
        (currentLock w4 = None ∨ currentLock w4 = currentLock w).
Proof.
  intros Hwf Hfresh.
  assert (Hexpire : ∀ reason p, currentLock w = Some p →
            ∃ w4, wf w4 ∧ expireHolder cfg now reason p w = tryGrantNext cfg now w4 ∧
                  (currentLock w4 = None ∨ currentLock w4 = currentLock w)).
  { intros reason p Hc. eexists. split_and!; [|reflexivity|by left].
    apply wf_emit.
    exact (wf_drop_holder w p Ticket.Expire Hwf (set_Status_sameIdentity _) Hc). }
  destruct op; simpl.
  - left. unfold Register. destruct (tools w !! toolID) as [tool|]; [|done].
    by destruct (Tool.IsOnline tool).
  - left. unfold Heartbeat. by destruct (tools w !! toolID).
  - left. unfold Unregister. by destruct (tools w !! toolID).
  - left. unfold CheckAndMarkOffline. simpl.
    match goal with |- currentLock (foldl _ ?w0 ?l) = _ =>
      destruct (foldl_emit_fields (λ toolID, LogToolOffline toolID "heartbeat_timeout") l w0)
        as (_ & _ & Hc & _)
    end.
    by rewrite Hc.
  - unfold RequestLock. destruct (IsOnline toolID w) eqn:Honline; [|by left]. simpl.
    destruct (existingTicket _ w) as [p|] eqn:Hex; [by left|]. simpl.
    right. right. eexists. split_and!; [|reflexivity|by right].
    apply wf_emit. apply (wf_enqueue now uuid toolID threadID w Hwf Hfresh).
    + unfold IsOnline in Honline. by destruct (tools w !! toolID).
    + by apply existingTicket_None.
  - left. unfold CheckLock. destruct (tickets w !! ticketID) as [p|]; [|done]. simpl.
    by destruct (_ && _); destruct (Ticket.IsGranted _).
  - unfold ReleaseLock.
    destruct (tickets w !! ticketID) as [p|] eqn:Hidx; [|by left].
    rewrite (isCurrentLock_spec w ticketID p Hwf Hidx).
    destruct (bool_decide (currentLock w = Some p)) eqn:Hcur; [|by left]. simpl.
    apply bool_decide_eq_true in Hcur.
    right. right. eexists. split_and!; [|reflexivity|by left].
    apply wf_emit.
    exact (wf_drop_holder w p Ticket.Release Hwf (set_Status_sameIdentity _) Hcur).
  - left. unfold ExtendLock. destruct (LockExtendable cfg); [|done]. simpl.
    destruct (tickets w !! ticketID) as [p|]; [|done].
    destruct (isCurrentLock ticketID w); [|done]. simpl.
    by destruct (bool_decide _).
  - unfold ExpireCurrentLock. destruct (currentLock w) as [p|] eqn:Hc; [|by left].
    right. right. simpl. by apply Hexpire.
  - left. unfold ExpireWaitingTickets.
    pose proof (sweep_fold now (seconds (TicketTTL cfg)) (queue w) w [] []
                  (StronglySorted_lt_NoDup _ (wf_sorted w Hwf)))
      as (_ & _ & _ & Hc & _).
    destruct (foldl _ _ _) as [[w' expired] newQueue]. done.
  - unfold CheckGracePeriod. destruct (currentLock w) as [p|] eqn:Hc; [|by left].
    destruct (Ticket.IsGracePeriodExpired _ _ _); [|by left].
    right. right. simpl. by apply Hexpire.
  - unfold CheckLockExpiry. destruct (currentLock w) as [p|] eqn:Hc; [|by left].
    destruct (Ticket.IsLockExpired _ _); [|by left].
    right. right. simpl. by apply Hexpire.
  - pose proof (wf_RemoveToolTickets cfg now toolID w Hwf) as Hwf'.
    unfold RemoveToolTickets in *.
    set (start := match currentLock w with
                  | Some h =>
                      if bool_decide (Ticket.ToolID (deref w h) = toolID)
                      then (set_currentLock None (cleanupTicket h w),
                            [Ticket.TicketID (deref w h)])
                      else (w, [])
                  | None => (w, [])
                  end) in *.
    assert (Hstart : wf start.1 ∧
              (currentLock start.1 = None ∨ currentLock start.1 = currentLock w)).
    { subst start. destruct (currentLock w) as [h|] eqn:Hc; [|split; [done|by left]].
      destruct (bool_decide _); [|split; [done|by right]]. simpl.
      split; [|by left].
      pose proof (wf_drop_holder w h (λ x, x) Hwf sameIdentity_refl Hc) as Hdrop.
      revert Hdrop.
      apply wf_ext; try done; unfold cleanupTicket, deref; simpl;
        by rewrite list_alter_id. }
    destruct start as [w1 removed1]. simpl in Hstart. destruct Hstart as [Hwf1 Hc1].
    pose proof (remove_wf toolID (queue w1) w1 removed1 []) as Hloop.
    pose proof (remove_fold_currentLock toolID (queue w1) w1 removed1 []) as Hc2.
    destruct (foldl _ _ _) as [[w2 removed] newQueue]. simpl in *.
    assert (wf (set_queue newQueue w2)) as Hwf3.
    { apply Hloop. revert Hwf1. by apply wf_ext. }
    destruct (bool_decide _); simpl.
    + right. right. exists (set_queue newQueue w2).
      split_and!; [done|done|]. simpl. rewrite Hc2. done.
    + rewrite Hc2. destruct Hc1 as [->| ->]; [right; by left|by left].
Qed.

(** The call that puts [p] in the holder slot grants it at the instant of
    the call, for [lock_max_duration], with extend count 0. *)
Lemma exec_grant cfg now op w p :
  wf w → freshUUID op w →
  currentLock (exec cfg now op w) = Some p → currentLock w ≠ Some p →
  ∃ tp, heap (exec cfg now op w) !! p =
          Some (Ticket.Grant now (seconds (LockMaxDuration cfg)) tp) ∧
        Ticket.ExtendCount tp = 0%Z.
Proof.
  intros Hwf Hfresh Hh Hnew.
  destruct (exec_shape cfg now op w Hwf Hfresh) as [Hsame|[Hnone|(w4 & Hwf4 & Heq & Hc4)]];
    [congruence|congruence|].
  rewrite Heq in Hh |- *.
  assert (currentLock w4 ≠ Some p) as Hne by (destruct Hc4; congruence).
  destruct (tryGrantNext_takes_head cfg now w4 p Hh Hne) as (rest & Hq & _).
  assert (currentLock w4 = None) as Hfree.
  { destruct (currentLock w4) as [h|] eqn:Hc; [|done].
    rewrite (tryGrantNext_holder cfg now w4 h Hc) in Hh. congruence. }
  destruct (tryGrantNext_grant cfg now w4 p rest Hfree Hq) as (_ & _ & Hheap & _).
  assert (p ∈ queue w4) as Hin by (rewrite Hq; apply elem_of_cons; by left).
  destruct (wf_queue w4 Hwf4 p Hin) as (tp & Hp & _ & Hcnt & _).
  exists tp. split; [|done]. by rewrite Hheap, list_lookup_alter_eq, Hp.
Qed.

(** ** The statements on sample executions *)

Lemma reachable_sample steps :
  freshUUIDsb steps init = true → reachable (run steps init).
Proof.
  intros H. apply reachable_run; [apply reachable_init|by apply freshUUIDsb_sound].
Qed.

(** Reachability of a sample world, by running the freshness test. *)
Local Ltac sample := apply reachable_sample; vm_compute; reflexivity.

Lemma mutual_exclusion_witness :
  reachable (run unregisterWhileQueued init) ∧
  ∀ p, p ∈ queue (run unregisterWhileQueued init) →
       Ticket.Status (deref (run unregisterWhileQueued init) p) = TicketStatusWaiting.
Proof.
  assert (Hr : reachable (run unregisterWhileQueued init)).
  { sample. }
  split; [exact Hr|].
  exact (proj1 (proj2 (proj2 (mutual_exclusion _ Hr)))).
Defined.

Lemma terminal_tickets_not_found_witness :
  reachable (run releaseAfterUnregister init) ∧
  CheckLock Default 6 "u1" (run releaseAfterUnregister init) =
    (run releaseAfterUnregister init, Err ErrTicketNotFound).
Proof.
  assert (Hr : reachable (run releaseAfterUnregister init)).
  { sample. }
  split; [exact Hr|].
  destruct (terminal_tickets_not_found Default 6 _ Hr) as [_ H].
  edestruct (H 0) as (_ & _ & Hc).
  - vm_compute. reflexivity.
  - left. reflexivity.
  - exact Hc.
Defined.

Lemma ReleaseLock_semantics_witness :
  reachable (run unregisterWhileQueued init) ∧
  ∃ w', ReleaseLock Default 5 "u1" (run unregisterWhileQueued init) = (w', Ok 0) ∧
        Ticket.Status (deref w' 0) = TicketStatusReleased.
Proof.
  assert (Hr : reachable (run unregisterWhileQueued init)).
  { sample. }
  split; [exact Hr|].
  destruct (ReleaseLock_semantics Default 5 "u1" _ Hr) as (_ & _ & _ & H).
  destruct (H 0) as (w' & Heq & Hst & _).
  - vm_compute. reflexivity.
  - vm_compute. reflexivity.
  - exists w'. split; [exact Heq|exact Hst].
Defined.

Lemma ExtendLock_errors_witness :
  reachable (run unregisterWhileQueued init) ∧
  ExtendLock Default 5 "u2" (run unregisterWhileQueued init) =
    (run unregisterWhileQueued init, Err ErrNotLockHolder).
Proof.
  assert (Hr : reachable (run unregisterWhileQueued init)).
  { sample. }
  split; [exact Hr|].
  destruct (ExtendLock_errors Default 5 "u2" _ Hr) as (_ & _ & H & _).
  apply (H 1).
  - reflexivity.
  - vm_compute. reflexivity.
  - vm_compute. discriminate.
Defined.


Lemma fifo_fairness_witness :
  let w := run holderAndWaiter init in
  reachable w ∧ enqueuedAfter 1 2 w ∧
  currentLock (run requestThenReleases w) = Some 2 ∧
  ∃ wa, wa ∈ visited requestThenReleases w ∧ currentLock wa = Some 1.
Proof.
  intros w.
  assert (Hr : reachable w).
  { sample. }
  assert (Horder : enqueuedAfter 1 2 w).
  { right. split.
    - apply (bool_decide_unpack _). vm_compute. exact I.
    - vm_compute. lia. }
  assert (Hgranted : currentLock (run requestThenReleases w) = Some 2).
  { vm_compute. reflexivity. }
  split; [exact Hr|]. split; [exact Horder|]. split; [exact Hgranted|].
  refine (proj1 (fifo_fairness 1 2 requestThenReleases w Hr _ Horder _ Hgranted)).
  - apply freshUUIDsb_sound. vm_compute. reflexivity.
  - unfold requestThenReleases. cbn [leavesOnlyByGrant].
    apply (bool_decide_unpack _). vm_compute. exact I.
Defined.


(** The sweep of the sample expires the ticket that has waited 150 s and
    keeps the one that has waited 50 s. *)
Example sweep_sample :
  (ExpireWaitingTickets Default (seconds 150) (run staleAndFresh init)).2 = [1] ∧
  queue (ExpireWaitingTickets Default (seconds 150) (run staleAndFresh init)).1 = [2].
Proof. by vm_compute. Qed.

(** * Further properties of the core *)

(** ** The lock is never idle while tickets wait *)

Lemma remove_fold toolID todo :
  ∀ w removed newQueue,
    let r := foldl (removeTicket toolID) (w, removed, newQueue) todo in
    r.1.2 = removed ++ ((λ p, Ticket.TicketID (deref w p)) <$>
                          filter (λ p, toolOf w p = toolID) todo) ∧
    r.2 = newQueue ++ filter (λ p, toolOf w p ≠ toolID) todo ∧
    heap r.1.1 = heap w ∧ queue r.1.1 = queue w ∧
    currentLock r.1.1 = currentLock w ∧ tools r.1.1 = tools w ∧
    events r.1.1 = events w ∧
    tickets r.1.1 ⊆ tickets w ∧ threadKeys r.1.1 ⊆ threadKeys w.
Proof.
  induction todo as [|p todo IH]; intros w removed newQueue r.
  - subst r. simpl. rewrite !app_nil_r. done.
  - subst r. cbn [foldl]. unfold toolOf in *.
    destruct (bool_decide (Ticket.ToolID (deref w p) = toolID)) eqn:Hb.
    + assert (removeTicket toolID (w, removed, newQueue) p =
              (cleanupTicket p w, removed ++ [Ticket.TicketID (deref w p)], newQueue)) as ->.
      { unfold removeTicket. by rewrite Hb. }
      apply bool_decide_eq_true in Hb.
      destruct (IH (cleanupTicket p w) (removed ++ [Ticket.TicketID (deref w p)]) newQueue)
        as (Hr & Hn & Hh & Hq & Hc & Hl & He & Ht & Hk).
      change (deref (cleanupTicket p w)) with (deref w) in Hr, Hn.
      rewrite filter_cons_True by done.
      rewrite (filter_cons_False (λ q, Ticket.ToolID (deref w q) ≠ toolID))
        by (intros H; by apply H).
      split_and!; try done.
      * rewrite Hr. rewrite fmap_cons. by rewrite <- app_assoc.
      * etrans; [exact Ht|]. apply delete_subseteq.
      * etrans; [exact Hk|]. apply delete_subseteq.
    + assert (removeTicket toolID (w, removed, newQueue) p =
              (w, removed, newQueue ++ [p])) as ->.
      { unfold removeTicket. by rewrite Hb. }
      apply bool_decide_eq_false in Hb.
      destruct (IH w removed (newQueue ++ [p]))
        as (Hr & Hn & Hh & Hq & Hc & Hl & He & Ht & Hk).
      rewrite filter_cons_False by done.
      rewrite (filter_cons_True (λ q, Ticket.ToolID (deref w q) ≠ toolID)) by done.
      split_and!; try done. rewrite Hn. by rewrite <- app_assoc.
Qed.

Lemma tryGrantNext_busy cfg now w :
  currentLock (tryGrantNext cfg now w) = None → queue (tryGrantNext cfg now w) = [].
Proof.
  rewrite tryGrantNext_unfold.
  destruct (currentLock w) as [h|] eqn:Hc; [congruence|].
  destruct (queue w) as [|p rest] eqn:Hq; [done|]. done.
Qed.

Lemma exec_busy cfg now op w :
  wf w → (currentLock w = None → queue w = []) →
  currentLock (exec cfg now op w) = None → queue (exec cfg now op w) = [].
Proof.
  intros Hwf Hbusy. destruct op; simpl.
  - unfold Register. destruct (tools w !! toolID) as [tool|]; [|done].
    by destruct (Tool.IsOnline tool).
  - unfold Heartbeat. by destruct (tools w !! toolID).
  - unfold Unregister. by destruct (tools w !! toolID).
  - unfold CheckAndMarkOffline. simpl.
    match goal with |- currentLock (foldl _ ?w0 ?l) = _ → _ =>
      destruct (foldl_emit_fields (λ toolID, LogToolOffline toolID "heartbeat_timeout") l w0)
        as (_ & Hq & Hc & _)
    end.
    rewrite Hq, Hc. done.
  - unfold RequestLock. destruct (IsOnline toolID w); [|done]. simpl.
    destruct (existingTicket _ w); [done|]. simpl. apply tryGrantNext_busy.
  - unfold CheckLock. destruct (tickets w !! ticketID) as [p|]; [|done]. simpl.
    by destruct (_ && _); destruct (Ticket.IsGranted _).
  - unfold ReleaseLock. destruct (tickets w !! ticketID) as [p|]; [|done].
    destruct (isCurrentLock ticketID w); [|done]. simpl. apply tryGrantNext_busy.
  - unfold ExtendLock. destruct (LockExtendable cfg); [|done]. simpl.
    destruct (tickets w !! ticketID) as [p|]; [|done].
    destruct (isCurrentLock ticketID w); [|done]. simpl.
    by destruct (bool_decide _).
  - unfold ExpireCurrentLock. destruct (currentLock w) as [p|] eqn:Hc; [|intros _; by apply Hbusy].
    simpl. apply tryGrantNext_busy.
  - unfold ExpireWaitingTickets.
    pose proof (sweep_fold now (seconds (TicketTTL cfg)) (queue w) w [] []
                  (StronglySorted_lt_NoDup _ (wf_sorted w Hwf)))
      as (_ & Hn & _ & Hc & _).
    destruct (foldl _ _ _) as [[w' expired] newQueue]. simpl in *.
    rewrite Hc. intros Hnone. rewrite Hn, (Hbusy Hnone). done.
  - unfold CheckGracePeriod. destruct (currentLock w) as [p|] eqn:Hc; [|intros _; by apply Hbusy].
    destruct (Ticket.IsGracePeriodExpired _ _ _); [|simpl; congruence].
    simpl. apply tryGrantNext_busy.
  - unfold CheckLockExpiry. destruct (currentLock w) as [p|] eqn:Hc; [|intros _; by apply Hbusy].
    destruct (Ticket.IsLockExpired _ _); [|simpl; congruence].
    simpl. apply tryGrantNext_busy.
  - unfold RemoveToolTickets.
    destruct (currentLock w) as [h|] eqn:Hc.
    + destruct (bool_decide (Ticket.ToolID (deref w h) = toolID)) eqn:Hb.
      * pose proof (remove_fold toolID (queue (set_currentLock None (cleanupTicket h w)))
                      (set_currentLock None (cleanupTicket h w))
                      [Ticket.TicketID (deref w h)] []) as (Hr & _).
        destruct (foldl _ _ _) as [[w2 removed] newQueue]. simpl in Hr.
        rewrite Hr. rewrite bool_decide_eq_true_2 by (simpl; lia).
        simpl. apply tryGrantNext_busy.
      * pose proof (remove_fold toolID (queue w) w [] []) as (_ & _ & _ & _ & Hc2 & _).
        destruct (foldl _ _ _) as [[w2 removed] newQueue]. simpl in Hc2.
        destruct (bool_decide (0 < length removed)); simpl; [apply tryGrantNext_busy|].
        rewrite Hc2, Hc. done.
    + rewrite (Hbusy eq_refl). simpl. done.
Qed.

Lemma reachable_busy w : reachable w → currentLock w = None → queue w = [].
Proof.
  induction 1 as [|cfg now op w Hreach IH Hfresh]; [done|].
  apply exec_busy; [by apply reachable_wf|done].
Qed.

(** X1. Work conservation.  In every reachable world the holder slot is
    empty only when the queue is empty: whenever a ticket waits, some
    ticket holds the lock. *)
Theorem lock_never_idle w (Hreach : reachable w) (Hfree : currentLock w = None) :
  queue w = [] ∧ tickets w = ∅ ∧ threadKeys w = ∅.
Proof.
  pose proof (reachable_wf w Hreach) as Hwf.
  pose proof (reachable_busy w Hreach Hfree) as Hq.
  split_and!; [done| |].
  - apply map_empty. intros id. destruct (tickets w !! id) as [p|] eqn:Hidx; [|done].
    destruct (wf_tickets w Hwf id p Hidx) as (t & _ & _ & _ & [Hh|Hin]); [congruence|].
    rewrite Hq in Hin. by apply elem_of_nil in Hin.
  - apply map_empty. intros k. destruct (threadKeys w !! k) as [id|] eqn:Hk; [|done].
    destruct (wf_threadKeys w Hwf k id Hk) as (p & t & Hidx & _).
    destruct (wf_tickets w Hwf id p Hidx) as (t' & _ & _ & _ & [Hh|Hin]); [congruence|].
    rewrite Hq in Hin. by apply elem_of_nil in Hin.
Qed.

(** ** The serving line and the two indices *)

Lemma line_elem w p : p ∈ line w ↔ currentLock w = Some p ∨ p ∈ queue w.
Proof.
  unfold line. destruct (currentLock w) as [h|].
  - rewrite elem_of_cons. split.
    + intros [->|H]; [by left|by right].
    + intros [[= ->]|H]; [by left|by right].
  - split; [by right|]. intros [H|H]; [done|done].
Qed.

Lemma line_managed w p : wf w → managed w p ↔ p ∈ line w.
Proof.
  intros Hwf. rewrite line_elem. unfold managed. split.
  - intros [H|[H|[id Hidx]]]; [by left|by right|].
    by destruct (wf_tickets w Hwf id p Hidx) as (t & _ & _ & _ & Hwhere).
  - intros [H|H]; [by left|right; by left].
Qed.

Lemma line_NoDup w : wf w → NoDup (line w).
Proof.
  intros Hwf. pose proof (StronglySorted_lt_NoDup _ (wf_sorted w Hwf)) as Hnd.
  unfold line. destruct (currentLock w) as [h|] eqn:Hc; [|done].
  apply NoDup_cons. split; [|done]. by apply wf_holder_not_queued.
Qed.

Lemma line_lookup w p :
  wf w → p ∈ line w →
  ∃ t, heap w !! p = Some t ∧ tickets w !! Ticket.TicketID t = Some p ∧
       threadKeys w !! Ticket.Key t = Some (Ticket.TicketID t).
Proof.
  intros Hwf [Hh|Hin]%line_elem.
  - destruct (wf_holder w Hwf p Hh) as (t & Hp & _ & _ & Hidx).
    destruct (wf_tickets w Hwf _ p Hidx) as (t' & Hp' & _ & Hkey & _).
    assert (t' = t) as -> by congruence. eauto.
  - destruct (wf_queue w Hwf p Hin) as (t & Hp & _ & _ & Hidx).
    destruct (wf_tickets w Hwf _ p Hidx) as (t' & Hp' & _ & Hkey & _).
    assert (t' = t) as -> by congruence. eauto.
Qed.

Lemma line_key_inj w p1 p2 :
  wf w → p1 ∈ line w → p2 ∈ line w →
  Ticket.Key (deref w p1) = Ticket.Key (deref w p2) → p1 = p2.
Proof.
  intros Hwf H1 H2 Hkey.
  destruct (line_lookup w p1 Hwf H1) as (t1 & Hp1 & Hidx1 & Hk1).
  destruct (line_lookup w p2 Hwf H2) as (t2 & Hp2 & Hidx2 & Hk2).
  rewrite (deref_lookup w p1 t1 Hp1), (deref_lookup w p2 t2 Hp2) in Hkey.
  rewrite Hkey in Hk1. assert (Ticket.TicketID t1 = Ticket.TicketID t2) by congruence.
  by apply (wf_ids w Hwf p1 p2 t1 t2).
Qed.

Lemma line_id_inj w p1 p2 :
  wf w → p1 ∈ line w → p2 ∈ line w →
  Ticket.TicketID (deref w p1) = Ticket.TicketID (deref w p2) → p1 = p2.
Proof.
  intros Hwf H1 H2 Hid.
  destruct (line_lookup w p1 Hwf H1) as (t1 & Hp1 & _).
  destruct (line_lookup w p2 Hwf H2) as (t2 & Hp2 & _).
  rewrite (deref_lookup w p1 t1 Hp1), (deref_lookup w p2 t2 Hp2) in Hid.
  by apply (wf_ids w Hwf p1 p2 t1 t2).
Qed.

Lemma tickets_as_line w :
  wf w →
  tickets w = list_to_map ((λ p, (Ticket.TicketID (deref w p), p)) <$> line w) ∧
  NoDup ((λ p, (Ticket.TicketID (deref w p), p)) <$> line w).*1.
Proof.
  intros Hwf.
  assert (Hnd : NoDup ((λ p, (Ticket.TicketID (deref w p), p)) <$> line w).*1).
  { rewrite <- list_fmap_compose.
    apply NoDup_fmap_2_strong; [|by apply line_NoDup].
    intros p1 p2 H1 H2 Heq. by apply (line_id_inj w). }
  split; [|done]. apply map_eq. intros id. apply option_eq. intros p.
  rewrite <- (elem_of_list_to_map _ _ _ Hnd). rewrite list_elem_of_fmap. split.
  - intros Hidx. exists p.
    destruct (wf_tickets w Hwf id p Hidx) as (t & Hp & Hid & _ & Hwhere).
    rewrite (deref_lookup w p t Hp), Hid. split; [done|]. by apply line_elem.
  - intros (q & [= -> ->] & Hq).
    destruct (line_lookup w q Hwf Hq) as (t & Hp & Hidx & _).
    by rewrite (deref_lookup w q t Hp).
Qed.

Lemma threadKeys_as_line w :
  wf w →
  threadKeys w =
    list_to_map ((λ p, (Ticket.Key (deref w p), Ticket.TicketID (deref w p))) <$> line w) ∧
  NoDup ((λ p, (Ticket.Key (deref w p), Ticket.TicketID (deref w p))) <$> line w).*1.
Proof.
  intros Hwf.
  assert (Hnd : NoDup ((λ p, (Ticket.Key (deref w p),
                               Ticket.TicketID (deref w p))) <$> line w).*1).
  { rewrite <- list_fmap_compose.
    apply NoDup_fmap_2_strong; [|by apply line_NoDup].
    intros p1 p2 H1 H2 Heq. by apply (line_key_inj w). }
  split; [|done]. apply map_eq. intros k. apply option_eq. intros id.
  rewrite <- (elem_of_list_to_map _ _ _ Hnd). rewrite list_elem_of_fmap. split.
  - intros Hk.
    destruct (wf_threadKeys w Hwf k id Hk) as (p & t & Hidx & Hp & Hkey).
    destruct (wf_tickets w Hwf id p Hidx) as (t' & Hp' & Hid & _ & Hwhere).
    assert (t' = t) as -> by congruence.
    exists p. rewrite (deref_lookup w p t Hp), Hid, Hkey. split; [done|].
    by apply line_elem.
  - intros (q & [= -> ->] & Hq).
    destruct (line_lookup w q Hwf Hq) as (t & Hp & _ & Hk).
    by rewrite (deref_lookup w q t Hp).
Qed.

(** X2. The indices hold the live tickets and nothing else.  In every
    reachable world the id index and the thread-key index have one entry per
    ticket of the serving line: their size is the queue length, plus one
    when the lock is held. *)
Theorem indices_hold_live_tickets w (Hreach : reachable w) :
  size (tickets w) = LockManager.QueueLength w + Z.to_nat (holderCount w) ∧
  size (threadKeys w) = size (tickets w) ∧
  (∀ id, is_Some (tickets w !! id) ↔
         ∃ p, p ∈ line w ∧ Ticket.TicketID (deref w p) = id) ∧
  (∀ k, is_Some (threadKeys w !! k) ↔
        ∃ p, p ∈ line w ∧ Ticket.Key (deref w p) = k).
Proof.
  pose proof (reachable_wf w Hreach) as Hwf.
  destruct (tickets_as_line w Hwf) as [Ht Hndt].
  destruct (threadKeys_as_line w Hwf) as [Hk Hndk].
  assert (Hlen : length (line w) = LockManager.QueueLength w + Z.to_nat (holderCount w)).
  { unfold line, LockManager.QueueLength, holderCount.
    destruct (currentLock w); simpl; lia. }
  split_and!.
  - rewrite Ht at 1. rewrite (map_size_list_to_map _ Hndt), length_fmap. done.
  - rewrite Ht at 1. rewrite Hk at 1.
    rewrite (map_size_list_to_map _ Hndt), (map_size_list_to_map _ Hndk).
    by rewrite !length_fmap.
  - intros id. split.
    + intros [p Hidx].
      destruct (wf_tickets w Hwf id p Hidx) as (t & Hp & Hid & _ & Hwhere).
      exists p. rewrite (deref_lookup w p t Hp). split; [by apply line_elem|done].
    + intros (p & Hp & <-).
      destruct (line_lookup w p Hwf Hp) as (t & Hpt & Hidx & _).
      rewrite (deref_lookup w p t Hpt). eauto.
  - intros k. split.
    + intros [id Hk'].
      destruct (wf_threadKeys w Hwf k id Hk') as (p & t & Hidx & Hp & Hkey).
      destruct (wf_tickets w Hwf id p Hidx) as (t' & _ & _ & _ & Hwhere).
      exists p. rewrite (deref_lookup w p t Hp). split; [by apply line_elem|done].
    + intros (p & Hp & <-).
      destruct (line_lookup w p Hwf Hp) as (t & Hpt & _ & Hk').
      rewrite (deref_lookup w p t Hpt). eauto.
Qed.

(** X3. One live ticket per thread key.  In every reachable world two
    tickets of the manager (holder or queued) with the same thread key
    [tool_id:thread_id] are the same ticket; in particular a tool and
    thread have at most one live ticket. *)
Theorem one_live_ticket_per_key w p1 p2 (Hreach : reachable w)
    (H1 : managed w p1) (H2 : managed w p2) :
  (Ticket.Key (deref w p1) = Ticket.Key (deref w p2) → p1 = p2) ∧
  (Ticket.ToolID (deref w p1) = Ticket.ToolID (deref w p2) →
   Ticket.ThreadID (deref w p1) = Ticket.ThreadID (deref w p2) → p1 = p2).
Proof.
  pose proof (reachable_wf w Hreach) as Hwf.
  apply (line_managed w p1 Hwf) in H1. apply (line_managed w p2 Hwf) in H2.
  split.
  - by apply line_key_inj.
  - intros Htool Hthread. apply (line_key_inj w p1 p2 Hwf H1 H2).
    unfold Ticket.Key. by rewrite Htool, Hthread.
Qed.

(** ** Positions *)

Lemma queueIndex_lookup w id q :
  ∀ k j p,
    (∀ j' p', q !! j' = Some p' → Ticket.TicketID (deref w p') = id → j' = j) →
    q !! j = Some p → Ticket.TicketID (deref w p) = id →
    queueIndex w id q k = (k + Z.of_nat j + 1)%Z.
Proof.
  induction q as [|p0 q IH]; intros k j p Huniq Hj Hid; [done|].
  simpl. destruct j as [|j].
  - simpl in Hj. injection Hj as ->. rewrite bool_decide_eq_true_2 by done. lia.
  - rewrite bool_decide_eq_false_2.
    + rewrite (IH (k + 1)%Z j p); [lia| |done|done].
      intros j' p' Hj' Hid'. specialize (Huniq (S j') p' Hj' Hid'). lia.
    + intros Hid0. specialize (Huniq 0 p0 eq_refl Hid0). lia.
Qed.

Lemma queueIndex_absent w id q k :
  (∀ p, p ∈ q → Ticket.TicketID (deref w p) ≠ id) → queueIndex w id q k = (-1)%Z.
Proof.
  revert k. induction q as [|p0 q IH]; intros k Hne; [done|].
  simpl. rewrite bool_decide_eq_false_2.
  - apply IH. intros p Hp. apply Hne. apply elem_of_cons. by right.
  - apply Hne. apply elem_of_cons. by left.
Qed.

Lemma getQueuePosition_line w i p :
  wf w → (currentLock w = None → queue w = []) →
  line w !! i = Some p →
  getQueuePosition (Ticket.TicketID (deref w p)) w = Z.of_nat i.
Proof.
  intros Hwf Hbusy Hi.
  assert (Hline : p ∈ line w) by (apply list_elem_of_lookup; eauto).
  unfold getQueuePosition, isCurrentLock. unfold line in Hi.
  destruct (currentLock w) as [h|] eqn:Hc.
  - destruct i as [|i].
    + simpl in Hi. injection Hi as ->. by rewrite bool_decide_eq_true_2.
    + simpl in Hi. rewrite bool_decide_eq_false_2.
      * rewrite (queueIndex_lookup w _ (queue w) 0 i p); [lia| |done|done].
        intros j' p' Hj' Hid.
        assert (p' = p).
        { apply (line_id_inj w p' p Hwf); [|done|done].
          apply line_elem. right. apply list_elem_of_lookup. eauto. }
        subst p'. apply (NoDup_lookup (queue w) j' i p); [|done|done].
        apply StronglySorted_lt_NoDup, (wf_sorted w Hwf).
      * intros Hid. assert (h = p).
        { apply (line_id_inj w h p Hwf); [|done|done]. apply line_elem. by left. }
        subst h. apply (wf_holder_not_queued w p Hwf Hc).
        apply list_elem_of_lookup. eauto.
  - rewrite (Hbusy eq_refl) in Hi. done.
Qed.

Lemma getQueuePosition_absent w id :
  wf w → tickets w !! id = None → getQueuePosition id w = (-1)%Z.
Proof.
  intros Hwf Hnone.
  assert (Hne : ∀ p, p ∈ line w → Ticket.TicketID (deref w p) ≠ id).
  { intros p Hp Hid. destruct (line_lookup w p Hwf Hp) as (t & Hpt & Hidx & _).
    rewrite (deref_lookup w p t Hpt) in Hid. congruence. }
  unfold getQueuePosition, isCurrentLock.
  destruct (currentLock w) as [h|] eqn:Hc.
  - rewrite bool_decide_eq_false_2.
    + apply queueIndex_absent. intros p Hp. apply Hne. apply line_elem. by right.
    + apply Hne. apply line_elem. by left.
  - apply queueIndex_absent. intros p Hp. apply Hne. apply line_elem. by right.
Qed.

(** X4. Positions.  In every reachable world the position computed for a
    ticket is its index in the serving line (0 for the holder, [n] for the
    [n]-th queued ticket), it is -1 exactly for the ids that are not in the
    ticket map, and it is 0 exactly for the ticket whose status is granted. *)
Theorem position_is_index_in_line w (Hreach : reachable w) :
  (∀ i p, line w !! i = Some p →
          getQueuePosition (Ticket.TicketID (deref w p)) w = Z.of_nat i) ∧
  (∀ id, tickets w !! id = None ↔ getQueuePosition id w = (-1)%Z) ∧
  (∀ id p, tickets w !! id = Some p →
           (getQueuePosition id w = 0%Z ↔
            Ticket.Status (deref w p) = TicketStatusGranted) ∧
           line w !! Z.to_nat (getQueuePosition id w) = Some p).
Proof.
  pose proof (reachable_wf w Hreach) as Hwf.
  pose proof (reachable_busy w Hreach) as Hbusy.
  assert (Hidx : ∀ id p, tickets w !! id = Some p →
            ∃ i, line w !! i = Some p ∧ getQueuePosition id w = Z.of_nat i ∧
                 Ticket.TicketID (deref w p) = id).
  { intros id p Hp.
    destruct (wf_tickets w Hwf id p Hp) as (t & Hpt & Hid & _ & Hwhere).
    apply line_elem, list_elem_of_lookup in Hwhere as [i Hi].
    exists i. rewrite <- Hid at 1. rewrite <- (deref_lookup w p t Hpt).
    split_and!; [done|by apply getQueuePosition_line|].
    by rewrite (deref_lookup w p t Hpt). }
  split_and!.
  - intros i p. by apply getQueuePosition_line.
  - intros id. split; [by apply getQueuePosition_absent|].
    intros Hneg. destruct (tickets w !! id) as [p|] eqn:Hp; [|done].
    destruct (Hidx id p Hp) as (i & _ & Hpos & _). lia.
  - intros id p Hp. destruct (Hidx id p Hp) as (i & Hi & Hpos & Hid).
    rewrite Hpos, Nat2Z.id. split; [|done].
    unfold line in Hi. destruct (currentLock w) as [h|] eqn:Hc.
    + destruct (wf_holder w Hwf h Hc) as (th & Hh & Hst & _).
      destruct i as [|i]; simpl in Hi.
      * injection Hi as ->. rewrite (deref_lookup w p th Hh). done.
      * assert (p ∈ queue w) as Hin by (apply list_elem_of_lookup; eauto).
        destruct (wf_queue w Hwf p Hin) as (t & Hpt & Hstw & _).
        rewrite (deref_lookup w p t Hpt), Hstw. split; [lia|done].
    + rewrite (Hbusy eq_refl) in Hi. done.
Qed.

(** ** The outcome of RequestLock *)

(** The grant step moves the head of the queue into the holder slot: the
    serving line is unchanged. *)
Lemma tryGrantNext_line cfg now w : line (tryGrantNext cfg now w) = line w.
Proof.
  rewrite tryGrantNext_unfold. unfold line.
  destruct (currentLock w) as [h|] eqn:Hc; [by rewrite Hc|].
  destruct (queue w) as [|p rest] eqn:Hq; [by rewrite Hc, Hq|]. done.
Qed.

(** X5. The outcome of [RequestLock] in a reachable world.  A request of a
    tool that is not online fails with [ErrToolOffline] and changes nothing.
    When the tool is online and no ticket is registered under its thread
    key, the call allocates a ticket carrying the drawn uuid, the tool and
    the thread, puts it at the end of the serving line, indexes it, and
    returns it with its index in the line as position: the ticket is
    granted at once when the lock is free (position 0, expiring at [now]
    plus the [int64] duration [seconds] that the code computes from
    [lock_max_duration]), and waits at position [queue length + 1]
    otherwise. *)
Theorem RequestLock_new_ticket cfg now uuid toolID threadID w
    (Hreach : reachable w)
    (Hfresh : ∀ t, t ∈ heap w → Ticket.TicketID t ≠ uuid) :
  (IsOnline toolID w = false →
     RequestLock cfg now uuid toolID threadID w = (w, Err ErrToolOffline)) ∧
  (IsOnline toolID w = true →
   threadKeys w !! (toolID +:+ ":" +:+ threadID) = None →
   let p := length (heap w) in
   let nt := Ticket.NewTicket now uuid toolID threadID in
   ∃ w', RequestLock cfg now uuid toolID threadID w =
           (w', Ok (p, Z.of_nat (length (line w)))) ∧
         line w' = line w ++ [p] ∧
         tickets w' = <[uuid := p]> (tickets w) ∧
         threadKeys w' = <[toolID +:+ ":" +:+ threadID := uuid]> (threadKeys w) ∧
         tools w' = tools w ∧
         deref w' p =
           match currentLock w with
           | None => Ticket.Grant now (seconds (LockMaxDuration cfg)) nt
           | Some _ => nt
           end ∧
         (Z.of_nat (length (line w)) = 0%Z ↔ currentLock w = None)).
Proof.
  pose proof (reachable_wf w Hreach) as Hwf.
  pose proof (reachable_busy w Hreach) as Hbusy.
  split.
  - intros Hoff. unfold RequestLock. by rewrite Hoff.
  - intros Honline Hnokey p nt.
    assert (Hreach' : reachable (exec cfg now (OpRequestLock uuid toolID threadID) w)).
    { by apply reachable_step. }
    pose proof (reachable_wf _ Hreach') as Hwf'.
    pose proof (reachable_busy _ Hreach') as Hbusy'.
    simpl in Hreach', Hwf', Hbusy'. revert Hwf' Hbusy'.
    unfold RequestLock. rewrite Honline. simpl.
    assert (existingTicket (toolID +:+ ":" +:+ threadID) w = None) as ->.
    { unfold existingTicket. by rewrite Hnokey. }
    simpl. fold nt. fold p.
    set (w5 := emit _ _). intros Hwf' Hbusy'.
    assert (Hline5 : line w5 = line w ++ [p]).
    { subst w5. unfold line. simpl. by destruct (currentLock w). }
    assert (Hline : line (tryGrantNext cfg now w5) = line w ++ [p]).
    { by rewrite tryGrantNext_line. }
    destruct (tryGrantNext_indices cfg now w5) as (Ht & Hk & Hl & _).
    assert (Hp5 : heap w5 !! p = Some nt).
    { subst w5 p. simpl. by apply list_lookup_middle. }
    assert (Hd : deref (tryGrantNext cfg now w5) p =
                   match currentLock w with
                   | None => Ticket.Grant now (seconds (LockMaxDuration cfg)) nt
                   | Some _ => nt
                   end).
    { apply deref_lookup. destruct (currentLock w) as [h|] eqn:Hc.
      - by rewrite (tryGrantNext_holder cfg now w5 h).
      - destruct (tryGrantNext_grant cfg now w5 p []) as (_ & _ & Hheap & _).
        + done.
        + subst w5. simpl. by rewrite (Hbusy eq_refl).
        + by rewrite Hheap, list_lookup_alter_eq, Hp5. }
    eexists. split_and!; try done.
    + f_equal. f_equal. f_equal.
      assert (Hid : Ticket.TicketID (deref (tryGrantNext cfg now w5) p) = uuid).
      { rewrite Hd. by destruct (currentLock w). }
      rewrite <- Hid.
      apply (getQueuePosition_line _ (length (line w)) p Hwf' Hbusy').
      rewrite Hline. by apply list_lookup_middle.
    + unfold line. destruct (currentLock w) as [h|] eqn:Hc; simpl.
      * split; [lia|done].
      * rewrite (Hbusy eq_refl). done.
Qed.

(** ** The life of a ticket object *)

Lemma tryGrantNext_step cfg now w q t :
  wf w → heap w !! q = Some t →
  ∃ t', heap (tryGrantNext cfg now w) !! q = Some t' ∧
        (t' = t ∨ (Ticket.Status t = TicketStatusWaiting ∧ currentLock w = None ∧
                   head (queue w) = Some q ∧
                   t' = Ticket.Grant now (seconds (LockMaxDuration cfg)) t)).
Proof.
  intros Hwf Hq. rewrite tryGrantNext_unfold.
  destruct (currentLock w) as [h|] eqn:Hc; [eauto|].
  destruct (queue w) as [|p rest] eqn:Hqu; [eauto|].
  cbv zeta. simpl.
  destruct (decide (p = q)) as [->|Hne].
  - rewrite list_lookup_alter_eq, Hq. simpl. eexists. split; [done|]. right.
    destruct (wf_queue w Hwf q) as (t0 & H0 & Hst & _).
    { rewrite Hqu. apply elem_of_cons. by left. }
    assert (t0 = t) as -> by congruence. done.
  - rewrite list_lookup_alter_ne by done. eauto.
Qed.

Lemma live_waiting t : Ticket.Status t = TicketStatusWaiting → Ticket.live t = true.
Proof. intros H. unfold Ticket.live, Ticket.IsWaiting. by rewrite H. Qed.

Lemma live_granted t : Ticket.Status t = TicketStatusGranted → Ticket.live t = true.
Proof.
  intros H. unfold Ticket.live, Ticket.IsWaiting, Ticket.IsGranted. by rewrite H.
Qed.

(** The holder leaves through [f] (release or expiry), then the grant step
    runs. *)
Lemma holder_leaves_step cfg now w h f e q t :
  wf w → currentLock w = Some h → (∀ x, sameIdentity (f x) x) →
  (∀ x, Ticket.Status (f x) ≠ TicketStatusWaiting) →
  heap w !! q = Some t →
  ∃ t', heap (tryGrantNext cfg now
                (emit e (cleanupTicket h (set_currentLock None (update h f w))))) !! q
          = Some t' ∧
        ((q = h ∧ t' = f t ∧ Ticket.Status t = TicketStatusGranted) ∨
         (q ≠ h ∧ (t' = t ∨ (Ticket.Status t = TicketStatusWaiting ∧
                   t' = Ticket.Grant now (seconds (LockMaxDuration cfg)) t)))).
Proof.
  intros Hwf Hc Hf Hnw Hq.
  set (w4 := emit e _).
  assert (Hwf4 : wf w4) by (apply wf_emit; by apply wf_drop_holder).
  destruct (wf_holder w Hwf h Hc) as (th & Hh & Hst & _).
  destruct (decide (q = h)) as [->|Hne].
  - assert (t = th) as -> by congruence.
    assert (H4 : heap w4 !! h = Some (f th)).
    { subst w4. simpl. by rewrite list_lookup_alter_eq, Hh. }
    destruct (tryGrantNext_step cfg now w4 h _ Hwf4 H4) as (t' & Ht' & [->|(Hw & _)]).
    + exists (f th). split; [done|]. left. done.
    + by destruct (Hnw th).
  - assert (H4 : heap w4 !! q = Some t).
    { subst w4. simpl. by rewrite list_lookup_alter_ne. }
    destruct (tryGrantNext_step cfg now w4 q _ Hwf4 H4) as (t' & Ht' & [->|(Hw & _ & _ & ->)]).
    + exists t. split; [done|]. right. split; [done|by left].
    + eexists. split; [done|]. right. split; [done|right; done].
Qed.

Lemma ExtendLock_Err cfg now id w w' e :
  ExtendLock cfg now id w = (w', Err e) → w' = w.
Proof.
  unfold ExtendLock.
  destruct (LockExtendable cfg); simpl; [|by intros [= <- _]].
  destruct (tickets w !! id) as [p|]; [|by intros [= <- _]].
  destruct (isCurrentLock id w); simpl; [|by intros [= <- _]].
  destruct (bool_decide _); [by intros [= <- _]|done].
Qed.

(** The shape of [RemoveToolTickets]: the tickets of the tool leave the
    line and the indices, no ticket object is written to, then the grant
    step runs if something was removed. *)
Lemma RemoveToolTickets_shape cfg now toolID w :
  wf w →
  ∃ w3, wf w3 ∧ heap w3 = heap w ∧ tools w3 = tools w ∧ events w3 = events w ∧
        tickets w3 ⊆ tickets w ∧ threadKeys w3 ⊆ threadKeys w ∧
        line w3 = filter (λ p, toolOf w p ≠ toolID) (line w) ∧
        (RemoveToolTickets cfg now toolID w).2 =
          ((λ p, Ticket.TicketID (deref w p)) <$>
             filter (λ p, toolOf w p = toolID) (line w)) ∧
        currentLock w3 =
          match currentLock w with
          | Some h => if bool_decide (toolOf w h = toolID) then None else Some h
          | None => None
          end ∧
        (RemoveToolTickets cfg now toolID w).1 =
          (if bool_decide (0 < length (RemoveToolTickets cfg now toolID w).2)
           then tryGrantNext cfg now w3 else w3).
Proof.
  intros Hwf. unfold RemoveToolTickets.
  set (start := match currentLock w with
                | Some h =>
                    if bool_decide (Ticket.ToolID (deref w h) = toolID)
                    then (set_currentLock None (cleanupTicket h w),
                          [Ticket.TicketID (deref w h)])
                    else (w, [])
                | None => (w, [])
                end).
  assert (Hstart : wf start.1 ∧ heap start.1 = heap w ∧ tools start.1 = tools w ∧
            events start.1 = events w ∧ queue start.1 = queue w ∧
            tickets start.1 ⊆ tickets w ∧ threadKeys start.1 ⊆ threadKeys w ∧
            line (set_queue (filter (λ p, toolOf w p ≠ toolID) (queue w)) start.1) =
              filter (λ p, toolOf w p ≠ toolID) (line w) ∧
            start.2 ++ ((λ p, Ticket.TicketID (deref w p)) <$>
                          filter (λ p, toolOf w p = toolID) (queue w)) =
              (λ p, Ticket.TicketID (deref w p)) <$>
                filter (λ p, toolOf w p = toolID) (line w) ∧
            currentLock start.1 =
              match currentLock w with
              | Some h => if bool_decide (toolOf w h = toolID) then None else Some h
              | None => None
              end).
  { subst start. unfold line, toolOf. destruct (currentLock w) as [h|] eqn:Hc.
    - destruct (bool_decide (Ticket.ToolID (deref w h) = toolID)) eqn:Hb.
      + apply bool_decide_eq_true in Hb. simpl.
        rewrite filter_cons_False by (intros H; by apply H).
        rewrite filter_cons_True by done.
        split_and!; try done; try apply delete_subseteq.
        pose proof (wf_drop_holder w h (λ x, x) Hwf sameIdentity_refl Hc) as Hdrop.
        revert Hdrop.
        apply wf_ext; try done; unfold cleanupTicket, deref; simpl;
          by rewrite list_alter_id.
      + apply bool_decide_eq_false in Hb. simpl. rewrite Hc.
        rewrite filter_cons_True by done.
        rewrite filter_cons_False by done.
        split_and!; done.
    - simpl. rewrite Hc. split_and!; done. }
  destruct start as [w1 removed1]. simpl in Hstart.
  destruct Hstart as (Hwf1 & Hh1 & Hl1 & He1 & Hq1 & Ht1 & Hk1 & Hline1 & Hrem1 & Hc1).
  pose proof (remove_wf toolID (queue w1) w1 removed1 []) as Hloop.
  pose proof (remove_fold toolID (queue w1) w1 removed1 [])
    as (Hr & Hn & Hh & Hq & Hc & Hl & He & Ht & Hk).
  destruct (foldl _ _ _) as [[w2 removed] newQueue]. simpl in *.
  assert (Hderef : ∀ p, deref w1 p = deref w p).
  { intros p. unfold deref. by rewrite Hh1. }
  assert (Htool : ∀ p, toolOf w1 p = toolOf w p).
  { intros p. unfold toolOf. by rewrite Hderef. }
  rewrite Hq1 in Hr, Hn.
  rewrite (filter_ext_elem (λ p, toolOf w1 p = toolID) (λ p, toolOf w p = toolID))
    in Hr by (intros p _; by rewrite Htool).
  rewrite (filter_ext_elem (λ p, toolOf w1 p ≠ toolID) (λ p, toolOf w p ≠ toolID))
    in Hn by (intros p _; by rewrite Htool).
  assert (removed = (λ p, Ticket.TicketID (deref w p)) <$>
                      filter (λ p, toolOf w p = toolID) (line w)) as Hremoved.
  { rewrite Hr, <- Hrem1. f_equal. apply list_fmap_ext. intros i p _. by rewrite Hderef. }
  exists (set_queue newQueue w2). split_and!.
  - apply Hloop. revert Hwf1. by apply wf_ext.
  - simpl. congruence.
  - simpl. congruence.
  - simpl. congruence.
  - simpl. by etrans.
  - simpl. by etrans.
  - rewrite <- Hline1. unfold line. simpl. by rewrite Hc, Hn.
  - by destruct (bool_decide _).
  - simpl. by rewrite Hc.
  - destruct (bool_decide (0 < length removed)) eqn:Hb; simpl; by rewrite Hb.
Qed.

Lemma exec_ticketStep cfg now op w p t :
  wf w → freshUUID op w → heap w !! p = Some t →
  ∃ t', heap (exec cfg now op w) !! p = Some t' ∧ ticketStep cfg now t t'.
Proof.
  intros Hwf Hfresh Hp.
  assert (Hsame : ∀ w', heap w' = heap w →
            ∃ t', heap w' !! p = Some t' ∧ ticketStep cfg now t t').
  { intros w' ->. exists t. split; [done|constructor]. }
  destruct op as [toolID|toolID|toolID| |uuid toolID threadID|id|id|id|reason| | | |toolID];
    simpl in *.
  - apply Hsame. unfold Register.
    destruct (tools w !! toolID) as [ex|]; [destruct (Tool.IsOnline ex)|]; done.
  - apply Hsame. unfold Heartbeat. by destruct (tools w !! toolID).
  - apply Hsame. unfold Unregister. by destruct (tools w !! toolID).
  - apply Hsame. unfold CheckAndMarkOffline. simpl.
    by destruct (foldl_emit_fields (λ toolID, LogToolOffline toolID "heartbeat_timeout")
      (map_to_list (filter (λ kv, heartbeat_lost now (seconds (HeartbeatTimeout cfg)) kv.2 = true)
                      (tools w))).*1
      (set_tools ((λ tool, if heartbeat_lost now (seconds (HeartbeatTimeout cfg)) tool
                           then Tool.MarkOffline tool else tool) <$> tools w) w)) as (-> & _).
  - unfold RequestLock.
    destruct (negb (IsOnline toolID w)) eqn:Hon; [by apply Hsame|].
    destruct (existingTicket _ w) as [q|] eqn:Hex; [by apply Hsame|].
    cbv zeta.
    set (w5 := emit _ _).
    assert (Hwf5 : wf w5).
    { apply wf_emit. apply (wf_enqueue now uuid toolID threadID w Hwf Hfresh).
      - apply negb_false_iff in Hon. unfold IsOnline in Hon.
        by destruct (tools w !! toolID).
      - by apply existingTicket_None. }
    assert (H5 : heap w5 !! p = Some t).
    { subst w5. simpl. by apply lookup_app_l_Some. }
    destruct (tryGrantNext_step cfg now w5 p t Hwf5 H5) as (t' & Ht' & [->|(Hw & _ & _ & ->)]).
    + exists t. split; [done|constructor].
    + eexists. split; [done|]. by constructor.
  - unfold CheckLock. destruct (tickets w !! id) as [q|] eqn:Hid; [|by apply Hsame].
    simpl. destruct (wf_tickets w Hwf id q Hid) as (tq & Hq & _ & _ & Hm).
    rewrite (deref_lookup w q tq Hq).
    destruct (decide (q = p)) as [->|Hne].
    + assert (tq = t) as -> by congruence.
      assert (Hlive : Ticket.live t = true) by (by eapply wf_live).
      destruct (TicketTTLOnPoll cfg && Ticket.IsWaiting t) eqn:Hb.
      * apply andb_true_iff in Hb as [_ Hw].
        assert (Hd : deref (update p (Ticket.UpdatePollTime now) w) p
                     = Ticket.UpdatePollTime now t).
        { apply deref_lookup. simpl. by rewrite list_lookup_alter_eq, Hp. }
        rewrite Hd.
        assert (Ticket.IsGranted (Ticket.UpdatePollTime now t) = false) as ->.
        { unfold Ticket.IsWaiting, Ticket.IsGranted in *. simpl.
          apply bool_decide_eq_true in Hw. rewrite Hw. done. }
        eexists. split; [simpl; by rewrite list_lookup_alter_eq, Hp|]. by constructor.
      * rewrite (deref_lookup w p t Hp). destruct (Ticket.IsGranted t).
        -- eexists. split; [simpl; by rewrite list_lookup_alter_eq, Hp|]. by constructor.
        -- exists t. split; [done|constructor].
    + exists t. split; [|constructor].
      destruct (TicketTTLOnPoll cfg && Ticket.IsWaiting tq);
        [destruct (Ticket.IsGranted (deref (update q (Ticket.UpdatePollTime now) w) q))
        |destruct (Ticket.IsGranted (deref w q))]; simpl;
        rewrite ?list_lookup_alter_ne by done; done.
  - unfold ReleaseLock. destruct (tickets w !! id) as [h|] eqn:Hid; [|by apply Hsame].
    rewrite (isCurrentLock_spec w id h Hwf Hid).
    destruct (bool_decide (currentLock w = Some h)) eqn:Hb; [|by apply Hsame].
    apply bool_decide_eq_true in Hb. simpl.
    edestruct (holder_leaves_step cfg now w h Ticket.Release) as (t' & Ht' & Hcase);
      [done|done|apply set_Status_sameIdentity|done|exact Hp|].
    exists t'. split; [exact Ht'|].
    destruct Hcase as [(-> & -> & Hst)|(_ & [->|(Hst & ->)])]; by constructor.
  - destruct (ExtendLock cfg now id w) as [w' [h|e]] eqn:Hext; simpl.
    + destruct (ExtendLock_Ok_inv cfg now id w w' h Hwf Hext)
        as (th & Hable & _ & Hc & Hh & Hcnt & Hheap & _).
      rewrite Hheap. destruct (decide (h = p)) as [->|Hne].
      * rewrite list_lookup_alter_eq, Hp. eexists. split; [done|].
        assert (th = t) as -> by congruence.
        apply step_extend; [|done|done].
        destruct (wf_holder w Hwf p Hc) as (t0 & H0 & Hst & _).
        congruence.
      * rewrite list_lookup_alter_ne by done. exists t. split; [done|constructor].
    + apply ExtendLock_Err in Hext as ->. by apply Hsame.
  - unfold ExpireCurrentLock. destruct (currentLock w) as [h|] eqn:Hc; [|by apply Hsame].
    simpl. unfold expireHolder.
    edestruct (holder_leaves_step cfg now w h Ticket.Expire) as (t' & Ht' & Hcase);
      [done|done|apply set_Status_sameIdentity|done|exact Hp|].
    exists t'. split; [exact Ht'|].
    destruct Hcase as [(-> & -> & Hst)|(_ & [->|(Hst & ->)])];
      try by constructor.
    apply step_expire. by apply live_granted.
  - unfold ExpireWaitingTickets.
    pose proof (sweep_fold now (seconds (TicketTTL cfg)) (queue w) w [] [])
      as Hfold.
    destruct (foldl _ _ _) as [[w' expired] newQueue]. simpl in *.
    destruct Hfold as (_ & _ & _ & _ & _ & _ & _ & Hin & Hout).
    { apply StronglySorted_lt_NoDup, Hwf. }
    destruct (decide (p ∈ filter
      (λ p, Ticket.IsTTLExpired now (seconds (TicketTTL cfg)) (deref w p) = true) (queue w)))
      as [Hel|Hel].
    + rewrite (Hin p Hel), Hp. eexists. split; [done|]. apply step_expire.
      apply list_elem_of_filter in Hel as [_ Hq].
      destruct (wf_queue w Hwf p Hq) as (t0 & H0 & Hst & _).
      apply live_waiting. congruence.
    + rewrite (Hout p Hel), Hp. exists t. split; [done|constructor].
  - unfold CheckGracePeriod. destruct (currentLock w) as [h|] eqn:Hc; [|by apply Hsame].
    destruct (Ticket.IsGracePeriodExpired _ _ _); [|by apply Hsame].
    simpl. unfold expireHolder.
    edestruct (holder_leaves_step cfg now w h Ticket.Expire) as (t' & Ht' & Hcase);
      [done|done|apply set_Status_sameIdentity|done|exact Hp|].
    exists t'. split; [exact Ht'|].
    destruct Hcase as [(-> & -> & Hst)|(_ & [->|(Hst & ->)])];
      try by constructor.
    apply step_expire. by apply live_granted.
  - unfold CheckLockExpiry. destruct (currentLock w) as [h|] eqn:Hc; [|by apply Hsame].
    destruct (Ticket.IsLockExpired _ _); [|by apply Hsame].
    simpl. unfold expireHolder.
    edestruct (holder_leaves_step cfg now w h Ticket.Expire) as (t' & Ht' & Hcase);
      [done|done|apply set_Status_sameIdentity|done|exact Hp|].
    exists t'. split; [exact Ht'|].
    destruct Hcase as [(-> & -> & Hst)|(_ & [->|(Hst & ->)])];
      try by constructor.
    apply step_expire. by apply live_granted.
  - destruct (RemoveToolTickets_shape cfg now toolID w Hwf)
      as (w3 & Hwf3 & Hh3 & _ & _ & _ & _ & _ & _ & _ & ->).
    destruct (bool_decide _); [|by apply Hsame].
    assert (H3 : heap w3 !! p = Some t) by congruence.
    destruct (tryGrantNext_step cfg now w3 p t Hwf3 H3) as (t' & Ht' & [->|(Hw & _ & _ & ->)]).
    + exists t. split; [done|constructor].
    + eexists. split; [done|]. by constructor.
Qed.

Lemma ticketStep_order cfg now t t' :
  ticketStep cfg now t t' →
  sameIdentity t' t ∧
  Ticket.RequestedAt t' = Ticket.RequestedAt t ∧
  statusRank (Ticket.Status t) ≤ statusRank (Ticket.Status t') ∧
  (terminal t → t' = t) ∧
  (Ticket.Status t ≠ TicketStatusWaiting → Ticket.GrantedAt t' = Ticket.GrantedAt t) ∧
  (Ticket.ExtendCount t ≤ Ticket.ExtendCount t')%Z.
Proof.
  assert (Hlive : ∀ x, Ticket.live x = true → ¬ terminal x).
  { intros x Hx [H|H]; unfold Ticket.live, Ticket.IsWaiting, Ticket.IsGranted in Hx;
      by rewrite H in Hx. }
  destruct 1 as [t|t Hl|t Hg _ _|t Hw|t Hg|t Hl]; unfold sameIdentity; simpl.
  - split_and!; try done; lia.
  - split_and!; try done; try lia. intros Ht. by destruct (Hlive t).
  - split_and!; try done; try lia. intros [H|H]; congruence.
  - rewrite Hw. simpl. split_and!; try done; try lia. intros [H|H]; congruence.
  - rewrite Hg. simpl. split_and!; try done; try lia. intros [H|H]; congruence.
  - split_and!; try done; try lia.
    + destruct (Ticket.Status t); simpl; lia.
    + intros Ht. by destruct (Hlive t).
Qed.

(** X6. A ticket object, once allocated, stays at its address through every
    later call: its id, tool, thread and request time never change, its
    status only moves forward (waiting, then granted, then released or
    expired), a released or expired ticket is never written again, the grant
    time of a ticket that has left the waiting status is final, and the
    extension counter never decreases. *)
Theorem ticket_lifecycle steps w p t
    (Hreach : reachable w) (Hfresh : freshUUIDs steps w) (Hp : heap w !! p = Some t) :
  ∃ t', heap (run steps w) !! p = Some t' ∧
        sameIdentity t' t ∧
        Ticket.RequestedAt t' = Ticket.RequestedAt t ∧
        statusRank (Ticket.Status t) ≤ statusRank (Ticket.Status t') ∧
        (terminal t → t' = t) ∧
        (Ticket.Status t ≠ TicketStatusWaiting →
         Ticket.GrantedAt t' = Ticket.GrantedAt t) ∧
        (Ticket.ExtendCount t ≤ Ticket.ExtendCount t')%Z.
Proof.
  pose proof (reachable_wf w Hreach) as Hwf. clear Hreach.
  revert w t Hwf Hfresh Hp.
  induction steps as [|[[cfg now] op] steps IH]; intros w t Hwf Hfresh Hp.
  - exists t. unfold sameIdentity. split_and!; try done; lia.
  - destruct Hfresh as [Hf Hfs].
    destruct (exec_ticketStep cfg now op w p t Hwf Hf Hp) as (t1 & H1 & Hstep).
    apply ticketStep_order in Hstep as (Hi1 & Hr1 & Hs1 & Ht1 & Hg1 & He1).
    destruct (IH (exec cfg now op w) t1 (wf_exec cfg now op w Hwf Hf) Hfs H1)
      as (t' & Ht' & Hi & Hr & Hs & Ht & Hg & He).
    exists t'. split; [exact Ht'|].
    destruct Hi1 as (? & ? & ?), Hi as (? & ? & ?).
    unfold sameIdentity. split_and!; try congruence; try lia.
    + intros Hterm. rewrite <- (Ht1 Hterm). apply Ht. by rewrite (Ht1 Hterm).
    + intros Hnw. rewrite <- (Hg1 Hnw). apply Hg. intros Hw1.
      rewrite Hw1 in Hs1. destruct (Ticket.Status t); simpl in Hs1; try done; lia.
Qed.

(** ** The holder is expired *)

(** The world after the holder has left through [f] and the grant step has
    run. *)
Lemma holder_leaves cfg now w h f e :
  wf w → currentLock w = Some h → (∀ x, sameIdentity (f x) x) →
  let w' := tryGrantNext cfg now
              (emit e (cleanupTicket h (set_currentLock None (update h f w)))) in
  deref w' h = f (deref w h) ∧
  tickets w' = delete (Ticket.TicketID (deref w h)) (tickets w) ∧
  threadKeys w' = delete (Ticket.Key (deref w h)) (threadKeys w) ∧
  tools w' = tools w ∧
  currentLock w' = head (queue w) ∧ queue w' = tail (queue w) ∧
  (∀ q, q ≠ h →
     deref w' q = if decide (head (queue w) = Some q)
                  then Ticket.Grant now (seconds (LockMaxDuration cfg)) (deref w q)
                  else deref w q) ∧
  events w' = events w ++ e ::
    match head (queue w) with
    | Some q => [LogLockGranted (Ticket.TicketID (deref w q)) (Ticket.ToolID (deref w q))
                   (Ticket.ThreadID (deref w q))
                   (Milliseconds (now - Ticket.RequestedAt (deref w q)))]
    | None => []
    end.
Proof.
  intros Hwf Hc Hf w'.
  destruct (wf_holder w Hwf h Hc) as (th & Hh & Hst & _).
  pose proof (wf_holder_not_queued w h Hwf Hc) as Hnq.
  set (w4 := emit e (cleanupTicket h (set_currentLock None (update h f w)))) in *.
  assert (Hd4 : deref (set_currentLock None (update h f w)) h = f th).
  { apply deref_lookup. simpl. by rewrite list_lookup_alter_eq, Hh. }
  assert (Hid : Ticket.TicketID (f th) = Ticket.TicketID th) by apply Hf.
  assert (Hkey : Ticket.Key (f th) = Ticket.Key th) by apply Key_sameIdentity, Hf.
  assert (H4 : heap w4 = alter f h (heap w) ∧ queue w4 = queue w ∧ currentLock w4 = None ∧
               tickets w4 = delete (Ticket.TicketID th) (tickets w) ∧
               threadKeys w4 = delete (Ticket.Key th) (threadKeys w) ∧
               tools w4 = tools w ∧ events w4 = events w ++ [e]).
  { subst w4. unfold cleanupTicket. rewrite Hd4, Hid, Hkey. done. }
  destruct H4 as (Hh4 & Hq4 & Hc4 & Ht4 & Hk4 & Hl4 & He4).
  rewrite (deref_lookup w h th Hh).
  assert (Hderef4 : ∀ q, q ≠ h → deref w4 q = deref w q).
  { intros q Hq. unfold deref. rewrite Hh4. by apply list_lookup_total_alter_ne. }
  assert (Hd4h : deref w4 h = f th).
  { apply deref_lookup. by rewrite Hh4, list_lookup_alter_eq, Hh. }
  clearbody w4.
  destruct (queue w) as [|q0 rest] eqn:Hqu.
  - subst w'. rewrite (tryGrantNext_empty cfg now w4 Hq4).
    rewrite Ht4, Hk4, Hl4, Hc4, Hq4, He4. simpl.
    split_and!; try done.
  - assert (Hq0 : q0 ≠ h).
    { intros ->. apply Hnq. apply elem_of_cons. by left. }
    destruct (wf_queue w Hwf q0) as (t0 & H0 & Hst0 & _).
    { rewrite Hqu. apply elem_of_cons. by left. }
    subst w'. rewrite tryGrantNext_unfold, Hc4, Hq4. cbv zeta. unfold granted. simpl.
    split_and!; try done.
    + apply deref_lookup. simpl.
      rewrite list_lookup_alter_ne by done. by rewrite Hh4, list_lookup_alter_eq, Hh.
    + intros q Hq. destruct (decide (Some q0 = Some q)) as [[= ->]|Hne].
      * apply deref_lookup. simpl. rewrite list_lookup_alter_eq, Hh4.
        rewrite list_lookup_alter_ne by done. rewrite H0.
        by rewrite (deref_lookup w q t0 H0).
      * unfold deref. simpl.
        rewrite list_lookup_total_alter_ne by congruence. rewrite Hh4.
        by rewrite list_lookup_total_alter_ne by done.
    + rewrite He4, <- app_assoc. simpl. do 3 f_equal.
      assert (Hd : deref (set_currentLock (Some q0)
                    (update q0 (Ticket.Grant now (seconds (LockMaxDuration cfg)))
                       (set_queue rest w4))) q0
                   = Ticket.Grant now (seconds (LockMaxDuration cfg)) t0).
      { apply deref_lookup. simpl. rewrite list_lookup_alter_eq, Hh4.
        rewrite list_lookup_alter_ne by done. by rewrite H0. }
      rewrite Hd. simpl.
      rewrite (Hderef4 q0 Hq0), (deref_lookup w q0 t0 H0).
      unfold Ticket.WaitDuration, Ticket.IsGranted. rewrite Hst0. done.
Qed.

(** X7. [ExpireCurrentLock] without a holder does nothing and returns nil.
    With a holder it returns it, marks it expired, drops it from both
    indices, hands the lock to the head of the queue (granted now, for the
    [int64] duration [seconds] that the code computes from
    [lock_max_duration]) and touches no other ticket; the hold time it logs
    is the time since the grant, read before the status changes. *)
Theorem ExpireCurrentLock_effect cfg now reason w (Hreach : reachable w) :
  (currentLock w = None → ExpireCurrentLock cfg now reason w = (w, None)) ∧
  (∀ h, currentLock w = Some h →
     let w' := (ExpireCurrentLock cfg now reason w).1 in
     let t := deref w h in
     (ExpireCurrentLock cfg now reason w).2 = Some h ∧
     deref w' h = Ticket.Expire t ∧
     tickets w' = delete (Ticket.TicketID t) (tickets w) ∧
     threadKeys w' = delete (Ticket.Key t) (threadKeys w) ∧
     tools w' = tools w ∧
     currentLock w' = head (queue w) ∧ queue w' = tail (queue w) ∧
     (∀ q, q ≠ h →
        deref w' q = if decide (head (queue w) = Some q)
                     then Ticket.Grant now (seconds (LockMaxDuration cfg)) (deref w q)
                     else deref w q) ∧
     events w' = events w ++
       LogLockExpired (Ticket.TicketID t) (Ticket.ToolID t) (Ticket.ThreadID t) reason
         (Milliseconds (now - Ticket.GrantedAt t)) ::
       match head (queue w) with
       | Some q => [LogLockGranted (Ticket.TicketID (deref w q)) (Ticket.ToolID (deref w q))
                      (Ticket.ThreadID (deref w q))
                      (Milliseconds (now - Ticket.RequestedAt (deref w q)))]
       | None => []
       end).
Proof.
  pose proof (reachable_wf w Hreach) as Hwf.
  split; [intros Hc; unfold ExpireCurrentLock; by rewrite Hc|].
  intros h Hc w' t. subst w'. unfold ExpireCurrentLock. rewrite Hc. simpl.
  split; [done|]. unfold expireHolder.
  destruct (wf_holder w Hwf h Hc) as (th & Hh & Hst & _).
  assert (Hd : deref (cleanupTicket h (set_currentLock None (update h Ticket.Expire w))) h
               = Ticket.Expire th).
  { apply deref_lookup. simpl. by rewrite list_lookup_alter_eq, Hh. }
  rewrite Hd. subst t. rewrite (deref_lookup w h th Hh).
  assert (Hhold : Ticket.HoldDuration now th = (now - Ticket.GrantedAt th)%Z).
  { unfold Ticket.HoldDuration, Ticket.IsGranted. by rewrite Hst. }
  rewrite Hhold.
  pose proof (holder_leaves cfg now w h Ticket.Expire
                (LogLockExpired (Ticket.TicketID (Ticket.Expire th))
                   (Ticket.ToolID (Ticket.Expire th)) (Ticket.ThreadID (Ticket.Expire th))
                   reason (Milliseconds (now - Ticket.GrantedAt th)))
                Hwf Hc (set_Status_sameIdentity _)) as Hl.
  cbv zeta in Hl. rewrite (deref_lookup w h th Hh) in Hl. exact Hl.
Qed.

(** ** Polling *)

Lemma queueIndex_ext w w' id q :
  (∀ p, Ticket.TicketID (deref w' p) = Ticket.TicketID (deref w p)) →
  ∀ i, queueIndex w' id q i = queueIndex w id q i.
Proof.
  intros Hid. induction q as [|p q IH]; intros i; simpl; [done|].
  rewrite Hid. destruct (bool_decide _); [done|apply IH].
Qed.

Lemma getQueuePosition_ext w w' id :
  (∀ p, Ticket.TicketID (deref w' p) = Ticket.TicketID (deref w p)) →
  queue w' = queue w → currentLock w' = currentLock w →
  getQueuePosition id w' = getQueuePosition id w.
Proof.
  intros Hid Hq Hc. unfold getQueuePosition, isCurrentLock. rewrite Hc, Hq.
  rewrite (queueIndex_ext w w' id (queue w) Hid).
  destruct (currentLock w); [by rewrite Hid|done].
Qed.

Lemma deref_update w p f q :
  p < length (heap w) →
  deref (update p f w) q = if decide (p = q) then f (deref w q) else deref w q.
Proof.
  intros Hlen. unfold deref. simpl. destruct (decide (p = q)) as [->|Hne].
  - apply lookup_lt_is_Some in Hlen as [t Ht].
    rewrite (list_lookup_total_correct _ _ _ Ht).
    apply list_lookup_total_correct. by rewrite list_lookup_alter_eq, Ht.
  - by apply list_lookup_total_alter_ne.
Qed.

(** The world after [CheckLock] on an indexed ticket. *)
Lemma CheckLock_found cfg now id w p :
  wf w → tickets w !! id = Some p →
  let t := deref w p in
  let polled := Ticket.IsGranted t || TicketTTLOnPoll cfg in
  let w' := if polled then update p (Ticket.UpdatePollTime now) w else w in
  CheckLock cfg now id w = (w', Ok (p, getQueuePosition id w)).
Proof.
  intros Hwf Hid t polled w'. unfold CheckLock. rewrite Hid.
  destruct (wf_tickets w Hwf id p Hid) as (tp & Hp & _ & _ & _).
  assert (Hlive : Ticket.live tp = true) by (by eapply wf_live).
  assert (Hlen : p < length (heap w)) by (apply lookup_lt_is_Some; eauto).
  assert (Hpos : getQueuePosition id (update p (Ticket.UpdatePollTime now) w)
                 = getQueuePosition id w).
  { apply getQueuePosition_ext; try done. intros q. rewrite deref_update by done.
    by destruct (decide (p = q)). }
  subst w' polled t. rewrite (deref_lookup w p tp Hp).
  unfold Ticket.live in Hlive.
  destruct (Ticket.IsWaiting tp) eqn:Hw, (Ticket.IsGranted tp) eqn:Hg; simpl in *;
    try done.
  - unfold Ticket.IsWaiting, Ticket.IsGranted in *.
    apply bool_decide_eq_true in Hw, Hg. congruence.
  - rewrite andb_true_r. destruct (TicketTTLOnPoll cfg).
    + rewrite (deref_update_eq w p _ tp Hp).
      assert (Ticket.IsGranted (Ticket.UpdatePollTime now tp) = false) as -> by done.
      by rewrite Hpos.
    + rewrite (deref_lookup w p tp Hp), Hg. done.
  - rewrite andb_false_r. rewrite (deref_lookup w p tp Hp), Hg. by rewrite Hpos.
Qed.

(** The outcome of the TTL sweep, read off the loop. *)
Lemma sweep_queue cfg now w :
  wf w →
  (ExpireWaitingTickets cfg now w).2 =
    filter (λ p, Ticket.IsTTLExpired now (seconds (TicketTTL cfg)) (deref w p) = true)
      (queue w) ∧
  queue (ExpireWaitingTickets cfg now w).1 =
    filter (λ p, ¬ Ticket.IsTTLExpired now (seconds (TicketTTL cfg)) (deref w p) = true)
      (queue w).
Proof.
  intros Hwf.
  pose proof (sweep_fold now (seconds (TicketTTL cfg)) (queue w) w [] []
                (StronglySorted_lt_NoDup _ (wf_sorted w Hwf)))
    as (He & Hn & _).
  unfold ExpireWaitingTickets. destruct (foldl _ _ _) as [[w0 e0] n0]. done.
Qed.

(** X8. [CheckLock] on an unknown id fails with "ticket not found" and
    changes nothing.  On an indexed ticket it returns the ticket with its
    position and at most stamps the poll time on that one ticket: always for
    the holder, and for a waiting ticket only when [ticket_ttl_on_poll] is
    set; otherwise the world is left as it was.  A waiting ticket polled
    with the option set survives every TTL sweep run no later than that
    poll plus the TTL of the sweep, the [int64] duration [seconds] that the
    sweep computes from its [ticket_ttl]. *)
Theorem CheckLock_poll cfg now id w (Hreach : reachable w) :
  (tickets w !! id = None → CheckLock cfg now id w = (w, Err ErrTicketNotFound)) ∧
  (∀ p, tickets w !! id = Some p →
     let t := deref w p in
     let polled := Ticket.IsGranted t || TicketTTLOnPoll cfg in
     ∃ w', CheckLock cfg now id w = (w', Ok (p, getQueuePosition id w)) ∧
       deref w' p = (if polled then Ticket.UpdatePollTime now t else t) ∧
       (∀ q, q ≠ p → deref w' q = deref w q) ∧
       queue w' = queue w ∧ currentLock w' = currentLock w ∧
       tickets w' = tickets w ∧ threadKeys w' = threadKeys w ∧
       tools w' = tools w ∧ events w' = events w ∧
       (polled = false → w' = w) ∧
       (TicketTTLOnPoll cfg = true → p ∈ queue w →
        ∀ cfg2 now2, (now2 - now ≤ seconds (TicketTTL cfg2))%Z →
          p ∈ queue (ExpireWaitingTickets cfg2 now2 w').1 ∧
          p ∉ (ExpireWaitingTickets cfg2 now2 w').2)).
Proof.
  pose proof (reachable_wf w Hreach) as Hwf.
  split; [intros Hid; unfold CheckLock; by rewrite Hid|].
  intros p Hid t polled.
  pose proof (CheckLock_found cfg now id w p Hwf Hid) as Hcl. cbv zeta in Hcl.
  fold t in Hcl. fold polled in Hcl.
  destruct (wf_tickets w Hwf id p Hid) as (tp & Hp & _ & _ & _).
  assert (Hlen : p < length (heap w)) by (apply lookup_lt_is_Some; eauto).
  eexists. split; [exact Hcl|].
  assert (Hwf' : wf (if polled then update p (Ticket.UpdatePollTime now) w else w)).
  { pose proof (wf_CheckLock cfg now id w Hwf) as H. by rewrite Hcl in H. }
  split_and!; try by destruct polled.
  - destruct polled; [|done]. rewrite deref_update by done. by rewrite decide_True.
  - intros q Hq. destruct polled; [|done]. rewrite deref_update by done.
    by rewrite decide_False.
  - intros Hon Hq cfg2 now2 Hnow.
    assert (polled = true) as Hpolled by (subst polled; rewrite Hon; apply orb_true_r).
    rewrite Hpolled in *.
    destruct (sweep_queue cfg2 now2 _ Hwf') as [He Hn].
    assert (Hfresh : Ticket.IsTTLExpired now2 (seconds (TicketTTL cfg2))
              (deref (update p (Ticket.UpdatePollTime now) w) p) = false).
    { rewrite deref_update by done. rewrite decide_True by done.
      unfold Ticket.IsTTLExpired. destruct (negb _); [done|]. simpl.
      apply bool_decide_eq_false. lia. }
    split.
    + rewrite Hn. apply list_elem_of_filter. split; [|done]. by rewrite Hfresh.
    + rewrite He. intros Hin. apply list_elem_of_filter in Hin as [Hin _].
      by rewrite Hfresh in Hin.
Qed.

(** ** The grace period and the maximal duration *)

Lemma holder_deref w h :
  wf w → currentLock w = Some h →
  heap w !! h = Some (deref w h) ∧ Ticket.Status (deref w h) = TicketStatusGranted ∧
  tickets w !! Ticket.TicketID (deref w h) = Some h ∧ h < length (heap w).
Proof.
  intros Hwf Hc. destruct (wf_holder w Hwf h Hc) as (t & Hh & Hst & _ & Hidx).
  rewrite (deref_lookup w h t Hh). split_and!; try done.
  apply lookup_lt_is_Some. eauto.
Qed.

(** X9. With a holder, [CheckGracePeriod] expires it exactly when its last
    poll is not later than its grant and more than the grace period (the
    [int64] duration [seconds] that the code computes from
    [lock_grace_period]) has passed since the grant; it then acts as
    [ExpireCurrentLock] with the reason "grace_period_expired", and
    otherwise does nothing.  A poll of the holder after the instant of its
    grant disarms the check for good, a poll at that very instant does not,
    and an extension is not a poll. *)
Theorem CheckGracePeriod_decision cfg now w h
    (Hreach : reachable w) (Hh : currentLock w = Some h) :
  let t := deref w h in
  let id := Ticket.TicketID t in
  let overdue now := (seconds (LockGracePeriod cfg) < now - Ticket.GrantedAt t)%Z in
  ((Ticket.LastPollAt t ≤ Ticket.GrantedAt t)%Z ∧ overdue now →
     CheckGracePeriod cfg now w = ExpireCurrentLock cfg now "grace_period_expired" w) ∧
  (¬ ((Ticket.LastPollAt t ≤ Ticket.GrantedAt t)%Z ∧ overdue now) →
     CheckGracePeriod cfg now w = (w, None)) ∧
  (∀ cfg1 now1 now2, (Ticket.GrantedAt t < now1)%Z →
     let w1 := (CheckLock cfg1 now1 id w).1 in
     CheckGracePeriod cfg now2 w1 = (w1, None)) ∧
  (∀ cfg1 now2,
     let w1 := (CheckLock cfg1 (Ticket.GrantedAt t) id w).1 in
     (CheckGracePeriod cfg now2 w1).2 = Some h ↔ overdue now2) ∧
  (∀ cfg1 now1 w1 p, ExtendLock cfg1 now1 id w = (w1, Ok p) →
     (CheckGracePeriod cfg now w1).2 = (CheckGracePeriod cfg now w).2).
Proof.
  intros t id overdue.
  pose proof (reachable_wf w Hreach) as Hwf.
  destruct (holder_deref w h Hwf Hh) as (Hheap & Hst & Hidx & Hlen).
  fold t in Hheap, Hst, Hidx. fold id in Hidx.
  assert (Hg : Ticket.IsGranted t = true).
  { unfold Ticket.IsGranted. by rewrite Hst. }
  assert (Hdec : ∀ now', Ticket.IsGracePeriodExpired now' (seconds (LockGracePeriod cfg)) t = true
                 ↔ (Ticket.LastPollAt t ≤ Ticket.GrantedAt t)%Z ∧ overdue now').
  { intros now'. unfold Ticket.IsGracePeriodExpired, overdue. rewrite Hg. simpl.
    repeat case_bool_decide; simpl; intuition (try done; lia). }
  assert (Hpoll : ∀ cfg1 now1,
            let w1 := (CheckLock cfg1 now1 id w).1 in
            currentLock w1 = Some h ∧ deref w1 h = Ticket.UpdatePollTime now1 t).
  { intros cfg1 now1. pose proof (CheckLock_found cfg1 now1 id w h Hwf Hidx) as Hcl.
    cbv zeta in Hcl. fold t in Hcl. rewrite Hg in Hcl. simpl in Hcl.
    cbv zeta. rewrite Hcl. simpl. split; [done|].
    change (deref (update h (Ticket.UpdatePollTime now1) w) h = Ticket.UpdatePollTime now1 t).
    rewrite deref_update by done. by rewrite decide_True. }
  split_and!.
  - intros Hfire. apply Hdec in Hfire.
    unfold CheckGracePeriod, ExpireCurrentLock. rewrite Hh. fold t. by rewrite Hfire.
  - intros Hno. unfold CheckGracePeriod. rewrite Hh. fold t.
    destruct (Ticket.IsGracePeriodExpired _ _ t) eqn:He; [|done].
    by apply Hdec in He.
  - intros cfg1 now1 now2 Hlate w1. destruct (Hpoll cfg1 now1) as [Hc1 Hd1].
    fold w1 in Hc1, Hd1. unfold CheckGracePeriod. rewrite Hc1, Hd1.
    unfold Ticket.IsGracePeriodExpired. simpl.
    change (Ticket.IsGranted (Ticket.UpdatePollTime now1 t)) with (Ticket.IsGranted t).
    rewrite Hg. simpl.
    rewrite bool_decide_eq_false_2 by lia. rewrite bool_decide_eq_false_2 by lia. done.
  - intros cfg1 now2 w1. destruct (Hpoll cfg1 (Ticket.GrantedAt t)) as [Hc1 Hd1].
    fold w1 in Hc1, Hd1. unfold CheckGracePeriod. rewrite Hc1, Hd1.
    unfold Ticket.IsGracePeriodExpired. simpl.
    change (Ticket.IsGranted (Ticket.UpdatePollTime (Ticket.GrantedAt t) t))
      with (Ticket.IsGranted t).
    rewrite Hg. simpl. rewrite (bool_decide_eq_true_2 (_ = _)) by done.
    rewrite orb_true_r. unfold overdue.
    destruct (bool_decide (seconds (LockGracePeriod cfg) < now2 - Ticket.GrantedAt t)%Z) eqn:Hb;
      simpl.
    + apply bool_decide_eq_true in Hb. done.
    + apply bool_decide_eq_false in Hb. split; [done|]. intros. lia.
  - intros cfg1 now1 w1 p Hext.
    destruct (ExtendLock_Ok_inv cfg1 now1 id w w1 p Hwf Hext)
      as (tp & _ & Hidp & Hcp & Hp & _ & Hheap1 & _ & Hc1 & _).
    assert (p = h) as -> by congruence.
    assert (Hd1 : deref w1 h = Ticket.Extend now1 (seconds (LockMaxDuration cfg1)) t).
    { apply deref_lookup. by rewrite Hheap1, list_lookup_alter_eq, Hheap. }
    unfold CheckGracePeriod. rewrite Hc1, Hcp, Hd1. fold t.
    change (Ticket.IsGracePeriodExpired now (seconds (LockGracePeriod cfg))
              (Ticket.Extend now1 (seconds (LockMaxDuration cfg1)) t))
      with (Ticket.IsGracePeriodExpired now (seconds (LockGracePeriod cfg)) t).
    by destruct (Ticket.IsGracePeriodExpired _ _ t).
Qed.

(** X10. With a holder, [CheckLockExpiry] expires it exactly when the clock
    is strictly past its expiry time, acting as [ExpireCurrentLock] with the
    reason "max_duration_expired"; at the expiry instant itself and before,
    it does nothing.  [RemainingTime] is the time left to that instant,
    never negative, and while it is positive the check does not fire.  After
    a successful extension at [now1] the check stays quiet up to [now1] plus
    the [int64] duration [seconds] that the extension computed from its
    [lock_max_duration]. *)
Theorem CheckLockExpiry_decision cfg now w h
    (Hreach : reachable w) (Hh : currentLock w = Some h) :
  let t := deref w h in
  let id := Ticket.TicketID t in
  ((Ticket.ExpiresAt t < now)%Z →
     CheckLockExpiry cfg now w = ExpireCurrentLock cfg now "max_duration_expired" w) ∧
  ((now ≤ Ticket.ExpiresAt t)%Z → CheckLockExpiry cfg now w = (w, None)) ∧
  RemainingTime now t = (0 `max` (Ticket.ExpiresAt t - now))%Z ∧
  ((0 < RemainingTime now t)%Z → CheckLockExpiry cfg now w = (w, None)) ∧
  (∀ cfg1 now1 w1 p, ExtendLock cfg1 now1 id w = (w1, Ok p) →
     ∀ cfg2 now2, (now2 ≤ now1 + seconds (LockMaxDuration cfg1))%Z →
       CheckLockExpiry cfg2 now2 w1 = (w1, None)).
Proof.
  intros t id.
  pose proof (reachable_wf w Hreach) as Hwf.
  destruct (holder_deref w h Hwf Hh) as (Hheap & Hst & Hidx & Hlen).
  fold t in Hheap, Hst, Hidx. fold id in Hidx.
  assert (Hg : Ticket.IsGranted t = true).
  { unfold Ticket.IsGranted. by rewrite Hst. }
  assert (Hrem : RemainingTime now t = (0 `max` (Ticket.ExpiresAt t - now))%Z).
  { unfold RemainingTime. rewrite Hg. simpl.
    destruct (bool_decide (Ticket.ExpiresAt t - now < 0)%Z) eqn:Hb.
    - apply bool_decide_eq_true in Hb. lia.
    - apply bool_decide_eq_false in Hb. lia. }
  assert (Hquiet : (now ≤ Ticket.ExpiresAt t)%Z → CheckLockExpiry cfg now w = (w, None)).
  { intros Hle. unfold CheckLockExpiry. rewrite Hh. fold t.
    unfold Ticket.IsLockExpired. rewrite Hg. simpl.
    by rewrite bool_decide_eq_false_2 by lia. }
  split_and!; try done.
  - intros Hlt. unfold CheckLockExpiry, ExpireCurrentLock. rewrite Hh. fold t.
    unfold Ticket.IsLockExpired. rewrite Hg. simpl.
    by rewrite bool_decide_eq_true_2 by done.
  - intros Hpos. apply Hquiet. lia.
  - intros cfg1 now1 w1 p Hext cfg2 now2 Hnow.
    destruct (ExtendLock_Ok_inv cfg1 now1 id w w1 p Hwf Hext)
      as (tp & _ & Hidp & Hcp & Hp & _ & Hheap1 & _ & Hc1 & _).
    assert (p = h) as -> by congruence.
    assert (Hd1 : deref w1 h = Ticket.Extend now1 (seconds (LockMaxDuration cfg1)) t).
    { apply deref_lookup. by rewrite Hheap1, list_lookup_alter_eq, Hheap. }
    unfold CheckLockExpiry. rewrite Hc1, Hcp, Hd1.
    unfold Ticket.IsLockExpired.
    change (Ticket.IsGranted (Ticket.Extend now1 (seconds (LockMaxDuration cfg1)) t))
      with (Ticket.IsGranted t).
    rewrite Hg. simpl. by rewrite bool_decide_eq_false_2 by lia.
Qed.

(** ** The tickets of a tool are removed *)

Lemma tryGrantNext_deref cfg now w p :
  wf w →
  deref (tryGrantNext cfg now w) p =
    if decide (currentLock w = None ∧ head (queue w) = Some p)
    then Ticket.Grant now (seconds (LockMaxDuration cfg)) (deref w p)
    else deref w p.
Proof.
  intros Hwf. rewrite tryGrantNext_unfold.
  destruct (currentLock w) as [h|] eqn:Hc.
  { rewrite decide_False; [done|]. by intros [? _]. }
  destruct (queue w) as [|q rest] eqn:Hq.
  { rewrite decide_False; [done|]. by intros [_ ?]. }
  cbv zeta. unfold granted.
  change (deref (emit ?e ?w0) p) with (deref w0 p).
  change (deref (set_currentLock ?c ?w0) p) with (deref w0 p).
  destruct (wf_queue w Hwf q) as (t & Ht & _).
  { rewrite Hq. apply elem_of_cons. by left. }
  rewrite deref_update by (simpl; apply lookup_lt_is_Some; eauto).
  change (deref (set_queue rest w) p) with (deref w p). simpl.
  destruct (decide (q = p)) as [->|Hne].
  - by rewrite decide_True.
  - rewrite decide_False; [done|]. intros [_ [= ?]]. done.
Qed.

Lemma tryGrantNext_events cfg now w :
  ∃ es, events (tryGrantNext cfg now w) = events w ++ es ∧
        ∀ e, e ∈ es → isGranted e = true.
Proof.
  rewrite tryGrantNext_unfold.
  destruct (currentLock w) as [h|].
  { exists []. rewrite app_nil_r. split; [done|]. by intros e ?%elem_of_nil. }
  destruct (queue w) as [|q rest].
  { exists []. rewrite app_nil_r. split; [done|]. by intros e ?%elem_of_nil. }
  cbv zeta. eexists [_]. split; [done|]. by intros e ->%list_elem_of_singleton.
Qed.

Lemma busy_head w :
  (currentLock w = None → queue w = []) → currentLock w = head (line w).
Proof.
  intros Hbusy. unfold line. destruct (currentLock w); [done|].
  by rewrite Hbusy.
Qed.

(** X11. [RemoveToolTickets] returns the ids of the tool's tickets, the
    holder first and then the queued ones in queue order.  It takes exactly
    these tickets out of the serving line and of the id index, keeps the
    others in their order, and grants the lock to the first ticket left when
    the holder was among the removed (for the [int64] duration [seconds]
    that the code computes from [lock_max_duration]).  The removed tickets
    are not written to (they are neither released nor expired), and the
    only events logged are grants. *)
Theorem RemoveToolTickets_effect cfg now toolID w (Hreach : reachable w) :
  let w' := (RemoveToolTickets cfg now toolID w).1 in
  (RemoveToolTickets cfg now toolID w).2 =
    ((λ p, Ticket.TicketID (deref w p)) <$>
       filter (λ p, toolOf w p = toolID) (line w)) ∧
  line w' = filter (λ p, toolOf w p ≠ toolID) (line w) ∧
  currentLock w' = head (line w') ∧
  (∀ id p, tickets w' !! id = Some p ↔ tickets w !! id = Some p ∧ toolOf w p ≠ toolID) ∧
  (∀ p, managed w' p → toolOf w' p ≠ toolID) ∧
  (∀ p, deref w' p =
        if decide (currentLock w' = Some p ∧ currentLock w ≠ Some p)
        then Ticket.Grant now (seconds (LockMaxDuration cfg)) (deref w p)
        else deref w p) ∧
  tools w' = tools w ∧
  (∃ es, events w' = events w ++ es ∧ ∀ e, e ∈ es → isGranted e = true).
Proof.
  intros w'.
  pose proof (reachable_wf w Hreach) as Hwf.
  assert (Hreach' : reachable w').
  { apply (reachable_step cfg now (OpRemoveToolTickets toolID) w Hreach). done. }
  pose proof (reachable_wf w' Hreach') as Hwf'.
  destruct (RemoveToolTickets_shape cfg now toolID w Hwf)
    as (w3 & Hwf3 & Hh3 & Hl3 & He3 & Ht3 & Hk3 & Hline3 & Hrem & Hc3 & Hw').
  fold w' in Hw'.
  assert (Hderef3 : ∀ p, deref w3 p = deref w p).
  { intros p. unfold deref. by rewrite Hh3. }
  assert (Hline : line w' = filter (λ p, toolOf w p ≠ toolID) (line w)).
  { rewrite Hw'. destruct (bool_decide _); [by rewrite tryGrantNext_line|done]. }
  assert (Htickets : tickets w' = tickets w3 ∧ tools w' = tools w3).
  { rewrite Hw'. destruct (bool_decide _); [|done].
    by destruct (tryGrantNext_indices cfg now w3) as (-> & _ & -> & _). }
  destruct Htickets as [Htickets Htools].
  assert (Hidx : ∀ id p, tickets w' !! id = Some p ↔
                         tickets w !! id = Some p ∧ toolOf w p ≠ toolID).
  { intros id p. rewrite Htickets. split.
    - intros Hid. split; [by eapply lookup_weaken|].
      destruct (wf_tickets w3 Hwf3 id p Hid) as (t & _ & _ & _ & Hwhere).
      apply line_elem in Hwhere. rewrite Hline3 in Hwhere.
      by apply list_elem_of_filter in Hwhere as [? _].
    - intros [Hid Hkeep].
      destruct (wf_tickets w Hwf id p Hid) as (t & Hp & Hidt & _ & Hwhere).
      assert (Hin3 : p ∈ line w3).
      { rewrite Hline3. apply list_elem_of_filter. split; [done|]. by apply line_elem. }
      destruct (line_lookup w3 p Hwf3 Hin3) as (t3 & Hp3 & Hidx3 & _).
      rewrite Hh3 in Hp3. assert (t3 = t) as -> by congruence. by rewrite Hidt in Hidx3. }
  assert (Hderef : ∀ p, deref w' p =
            if decide (currentLock w' = Some p ∧ currentLock w ≠ Some p)
            then Ticket.Grant now (seconds (LockMaxDuration cfg)) (deref w p)
            else deref w p).
  { intros p.
    assert (Hkept : ∀ h, currentLock w3 = Some h → currentLock w = Some h).
    { intros h Hh. rewrite Hc3 in Hh. destruct (currentLock w) as [h0|]; [|done].
      by destruct (bool_decide _). }
    destruct (bool_decide (0 < length (RemoveToolTickets cfg now toolID w).2)).
    - rewrite Hw'. rewrite tryGrantNext_deref by done. rewrite Hderef3.
      apply decide_ext. split.
      + intros [Hnone Hhead].
        destruct (queue w3) as [|q rest] eqn:Hq3; [done|]. simpl in Hhead.
        injection Hhead as ->.
        destruct (tryGrantNext_grant cfg now w3 p rest Hnone Hq3) as (-> & _).
        split; [done|]. intros Hcp.
        rewrite Hcp in Hc3.
        assert (Hin3 : p ∈ line w3).
        { apply line_elem. right. rewrite Hq3. apply elem_of_cons. by left. }
        rewrite Hline3 in Hin3. apply list_elem_of_filter in Hin3 as [Hkeep _].
        rewrite bool_decide_eq_false_2 in Hc3 by done. congruence.
      + intros [Hcp Hnot].
        destruct (currentLock w3) as [h3|] eqn:Hc3'.
        * rewrite (tryGrantNext_holder cfg now w3 h3 Hc3') in Hcp.
          rewrite Hc3' in Hcp. injection Hcp as ->. by destruct Hnot; apply Hkept.
        * split; [done|].
          destruct (queue w3) as [|q rest] eqn:Hq3.
          -- rewrite (tryGrantNext_empty cfg now w3 Hq3) in Hcp. congruence.
          -- destruct (tryGrantNext_grant cfg now w3 q rest Hc3' Hq3) as (Hg & _).
             simpl. congruence.
    - rewrite Hw', Hderef3. rewrite decide_False; [done|].
      intros [Hcp Hnot]. apply Hnot. by apply Hkept. }
  split_and!; try done.
  - apply busy_head. by apply reachable_busy.
  - intros p Hp. apply (line_managed w' p Hwf') in Hp.
    rewrite Hline in Hp. apply list_elem_of_filter in Hp as [Hkeep _].
    unfold toolOf in *. rewrite Hderef. by destruct (decide _).
  - congruence.
  - rewrite Hw'. destruct (bool_decide _).
    + destruct (tryGrantNext_events cfg now w3) as (es & Hes & Hg).
      exists es. by rewrite Hes, He3.
    + exists []. rewrite app_nil_r. split; [done|]. by intros e ?%elem_of_nil.
Qed.

(** ** The heartbeat sweep and its cascade *)

Lemma RemoveToolTickets_line cfg now toolID w :
  wf w →
  let w' := (RemoveToolTickets cfg now toolID w).1 in
  line w' = filter (λ p, toolOf w p ≠ toolID) (line w) ∧
  tools w' = tools w ∧ (∀ p, toolOf w' p = toolOf w p).
Proof.
  intros Hwf w'.
  destruct (RemoveToolTickets_shape cfg now toolID w Hwf)
    as (w3 & Hwf3 & Hh3 & Hl3 & _ & _ & _ & Hline3 & _ & _ & Hw').
  fold w' in Hw'. rewrite Hw'.
  assert (Hderef3 : ∀ p, toolOf w3 p = toolOf w p).
  { intros p. unfold toolOf, deref. by rewrite Hh3. }
  destruct (bool_decide _); [|done].
  rewrite tryGrantNext_line.
  destruct (tryGrantNext_indices cfg now w3) as (_ & _ & -> & _).
  split_and!; try done.
  intros p. rewrite <- Hderef3. unfold toolOf. rewrite tryGrantNext_deref by done.
  by destruct (decide _).
Qed.



Lemma CheckAndMarkOffline_fields cfg now w :
  let timeout := seconds (HeartbeatTimeout cfg) in
  let w1 := (CheckAndMarkOffline cfg now w).1 in
  heap w1 = heap w ∧ queue w1 = queue w ∧ currentLock w1 = currentLock w ∧
  tickets w1 = tickets w ∧ threadKeys w1 = threadKeys w ∧
  tools w1 = (λ tool, if heartbeat_lost now timeout tool
                      then Tool.MarkOffline tool else tool) <$> tools w.
Proof.
  unfold CheckAndMarkOffline. simpl.
  by destruct (foldl_emit_fields (λ toolID, LogToolOffline toolID "heartbeat_timeout")
    (map_to_list (filter (λ kv, heartbeat_lost now (seconds (HeartbeatTimeout cfg)) kv.2 = true)
                    (tools w))).*1
    (set_tools ((λ tool, if heartbeat_lost now (seconds (HeartbeatTimeout cfg)) tool
                         then Tool.MarkOffline tool else tool) <$> tools w) w))
    as (-> & -> & -> & -> & -> & ->).
Qed.

Lemma offlineTools_elem cfg now w toolID :
  toolID ∈ (CheckAndMarkOffline cfg now w).2 ↔ lost cfg now w toolID = true.
Proof.
  unfold CheckAndMarkOffline, lost. simpl. rewrite list_elem_of_fmap. split.
  - intros ([k tool] & -> & Hin). apply elem_of_map_to_list in Hin.
    apply map_lookup_filter_Some in Hin as [Hk Hlost]. simpl in *. by rewrite Hk.
  - destruct (tools w !! toolID) as [tool|] eqn:Hk; [|done]. intros Hlost.
    exists (toolID, tool). split; [done|]. apply elem_of_map_to_list.
    by apply map_lookup_filter_Some.
Qed.


(** ** The tool registry *)

Lemma heartbeat_lost_marked now timeout tool :
  heartbeat_lost now timeout
    (if heartbeat_lost now timeout tool then Tool.MarkOffline tool else tool) = false.
Proof.
  destruct (heartbeat_lost now timeout tool) eqn:Hl; [|done].
  unfold heartbeat_lost, Tool.IsOnline. simpl. done.
Qed.

Lemma CheckAndMarkOffline_quiet cfg now w :
  (∀ k tool, tools w !! k = Some tool →
             heartbeat_lost now (seconds (HeartbeatTimeout cfg)) tool = false) →
  CheckAndMarkOffline cfg now w = (w, []).
Proof.
  intros Hq. unfold CheckAndMarkOffline.
  assert (filter (λ kv, heartbeat_lost now (seconds (HeartbeatTimeout cfg)) kv.2 = true)
            (tools w) = ∅) as ->.
  { apply map_empty_filter. intros k tool Hk. simpl. by rewrite (Hq k tool Hk). }
  rewrite map_to_list_empty. simpl.
  assert ((λ tool, if heartbeat_lost now (seconds (HeartbeatTimeout cfg)) tool
                   then Tool.MarkOffline tool else tool) <$> tools w = tools w) as ->.
  { apply map_eq. intros k. rewrite lookup_fmap.
    destruct (tools w !! k) as [tool|] eqn:Hk; [|done]. simpl.
    by rewrite (Hq k tool Hk). }
  by destruct w.
Qed.

Lemma foldl_emit_events {A} (f : A → Event) (l : list A) :
  ∀ w, events (foldl (λ w0 a, emit (f a) w0) w l) = events w ++ (f <$> l).
Proof.
  induction l as [|a l IH]; intros w; simpl; [by rewrite app_nil_r|].
  rewrite IH. simpl. by rewrite <- app_assoc.
Qed.

Lemma count_marked now timeout (l : list (string * Tool.t)) :
  length (filter (λ kv, Tool.IsOnline kv.2 = true)
            (prod_map id (λ tool, if heartbeat_lost now timeout tool
                                  then Tool.MarkOffline tool else tool) <$> l))
  + length (filter (λ kv, heartbeat_lost now timeout kv.2 = true) l)
  = length (filter (λ kv, Tool.IsOnline kv.2 = true) l).
Proof.
  induction l as [|[k tool] l IH]; [done|].
  rewrite fmap_cons. unfold prod_map at 1. simpl fst. simpl snd.
  destruct (heartbeat_lost now timeout tool) eqn:Hl.
  - assert (Hon : Tool.IsOnline tool = true).
    { unfold heartbeat_lost in Hl. by apply andb_true_iff in Hl as [? _]. }
    rewrite filter_cons_False by (simpl; done).
    rewrite (filter_cons_True (λ kv, heartbeat_lost now timeout kv.2 = true))
      by (simpl; done).
    rewrite (filter_cons_True (λ kv, Tool.IsOnline kv.2 = true) (k, tool))
      by (simpl; done).
    simpl. lia.
  - rewrite (filter_cons_False (λ kv, heartbeat_lost now timeout kv.2 = true))
      by (simpl; congruence).
    destruct (Tool.IsOnline tool) eqn:Hon.
    + rewrite !filter_cons_True by (simpl; done). simpl. lia.
    + rewrite !filter_cons_False by (simpl; congruence). done.
Qed.

(** X13. [CheckAndMarkOffline] reports, each once, exactly the online
    tools whose heartbeat deadline ([GetHeartbeatDeadline]) lies strictly in
    the past, and marks exactly these offline: the number of online tools
    drops by the number reported, one "tool offline" event is logged per
    reported tool, and a second sweep at the same instant reports nothing
    and changes nothing. *)
Theorem CheckAndMarkOffline_exact cfg now w :
  let w' := (CheckAndMarkOffline cfg now w).1 in
  let offline := (CheckAndMarkOffline cfg now w).2 in
  NoDup offline ∧
  (∀ toolID, toolID ∈ offline ↔
     IsOnline toolID w = true ∧
     ∃ d, GetHeartbeatDeadline cfg toolID w = Ok d ∧ (d < now)%Z) ∧
  (∀ toolID, IsOnline toolID w' = true ↔ IsOnline toolID w = true ∧ toolID ∉ offline) ∧
  CountOnlineTools w' + length offline = CountOnlineTools w ∧
  events w' = events w ++ ((λ toolID, LogToolOffline toolID "heartbeat_timeout") <$> offline) ∧
  CheckAndMarkOffline cfg now w' = (w', []).
Proof.
  intros w' offline.
  pose proof (CheckAndMarkOffline_fields cfg now w) as Hf. cbv zeta in Hf.
  fold w' in Hf. destruct Hf as (_ & _ & _ & _ & _ & Htools).
  pose proof (offlineTools_elem cfg now w) as Hoff. fold offline in Hoff.
  assert (Hlost : ∀ toolID, lost cfg now w toolID = true ↔
            IsOnline toolID w = true ∧
            ∃ d, GetHeartbeatDeadline cfg toolID w = Ok d ∧ (d < now)%Z).
  { intros toolID. unfold lost, IsOnline, GetHeartbeatDeadline.
    destruct (tools w !! toolID) as [tool|].
    - unfold heartbeat_lost, Tool.IsHeartbeatExpired.
      rewrite andb_true_iff, bool_decide_eq_true. split.
      + intros [Hon Hexp]. split; [done|]. eexists. split; [done|]. lia.
      + intros [Hon (d & [= <-] & Hd)]. split; [done|]. lia.
    - split; [done|]. by intros [? _]. }
  split_and!.
  - apply NoDup_fst_map_to_list.
  - intros toolID. by rewrite Hoff.
  - intros toolID. rewrite Hoff. unfold IsOnline at 1. rewrite Htools, lookup_fmap.
    unfold IsOnline, lost. destruct (tools w !! toolID) as [tool|]; simpl.
    + destruct (heartbeat_lost _ _ tool) eqn:Hl.
      * split; [done|]. by intros [_ ?].
      * split; [by intros ?|by intros [? _]].
    + split; [done|by intros [? _]].
  - unfold CountOnlineTools. rewrite Htools, map_to_list_fmap.
    rewrite <- (count_marked now (seconds (HeartbeatTimeout cfg)) (map_to_list (tools w))).
    f_equal. subst offline. unfold CheckAndMarkOffline. simpl.
    rewrite length_fmap. apply Permutation_length.
    rewrite map_filter_alt. apply map_to_list_to_map.
    apply (NoDup_fmap_fst _).
    + intros k t1 t2 [_ H1]%list_elem_of_filter [_ H2]%list_elem_of_filter.
      apply elem_of_map_to_list in H1, H2. congruence.
    + apply NoDup_filter, NoDup_map_to_list.
  - subst w' offline. unfold CheckAndMarkOffline. simpl.
    by rewrite foldl_emit_events.
  - apply CheckAndMarkOffline_quiet. intros k tool Hk.
    rewrite Htools, lookup_fmap in Hk.
    destruct (tools w !! k) as [tool0|]; [|done]. simpl in Hk. injection Hk as <-.
    apply heartbeat_lost_marked.
Qed.

Lemma tryGrantNext_tools cfg now w : tools (tryGrantNext cfg now w) = tools w.
Proof. by destruct (tryGrantNext_indices cfg now w) as (_ & _ & -> & _). Qed.

Lemma exec_tools_manager cfg now op w :
  wf w →
  match op with
  | OpRegister _ | OpHeartbeat _ | OpUnregister _ | OpCheckAndMarkOffline => True
  | _ => tools (exec cfg now op w) = tools w
  end.
Proof.
  intros Hwf.
  destruct op as [toolID|toolID|toolID| |uuid toolID threadID|id|id|id|reason| | | |toolID];
    simpl; try done.
  - unfold RequestLock. destruct (negb _); [done|].
    destruct (existingTicket _ w); [done|]. cbv zeta. simpl.
    by rewrite tryGrantNext_tools.
  - unfold CheckLock. destruct (tickets w !! id) as [p|]; [|done]. simpl.
    destruct (TicketTTLOnPoll cfg && _);
      [destruct (Ticket.IsGranted (deref (update p (Ticket.UpdatePollTime now) w) p))
      |destruct (Ticket.IsGranted (deref w p))]; done.
  - unfold ReleaseLock. destruct (tickets w !! id) as [p|]; [|done].
    destruct (negb _); [done|]. cbv zeta. simpl. by rewrite tryGrantNext_tools.
  - unfold ExtendLock. destruct (negb (LockExtendable cfg)); [done|].
    destruct (tickets w !! id) as [p|]; [|done].
    destruct (negb _); [done|]. by destruct (bool_decide _).
  - unfold ExpireCurrentLock. destruct (currentLock w) as [h|]; [|done]. simpl.
    unfold expireHolder. by rewrite tryGrantNext_tools.
  - unfold ExpireWaitingTickets.
    pose proof (sweep_fold now (seconds (TicketTTL cfg)) (queue w) w [] []
                  (StronglySorted_lt_NoDup _ (wf_sorted w Hwf)))
      as (_ & _ & _ & _ & Hl & _).
    destruct (foldl _ _ _) as [[w0 e0] n0]. done.
  - unfold CheckGracePeriod. destruct (currentLock w) as [h|]; [|done].
    destruct (Ticket.IsGracePeriodExpired _ _ _); [|done]. simpl. unfold expireHolder.
    by rewrite tryGrantNext_tools.
  - unfold CheckLockExpiry. destruct (currentLock w) as [h|]; [|done].
    destruct (Ticket.IsLockExpired _ _); [|done]. simpl. unfold expireHolder.
    by rewrite tryGrantNext_tools.
  - by destruct (RemoveToolTickets_line cfg now toolID w Hwf) as (_ & -> & _).
Qed.

(** What one call does to the entry of tool [k]. *)
Lemma exec_tool cfg now op w k :
  wf w →
  match tools w !! k with
  | Some tool =>
      ∃ tool', tools (exec cfg now op w) !! k = Some tool' ∧
               (tool' = tool ∨ tool' = Tool.UpdateHeartbeat now tool ∨
                tool' = Tool.MarkOffline tool)
  | None =>
      tools (exec cfg now op w) !! k = None ∨
      tools (exec cfg now op w) !! k = Some (Tool.NewTool now k)
  end.
Proof.
  intros Hwf.
  assert (Hsame : tools (exec cfg now op w) = tools w →
    match tools w !! k with
    | Some tool =>
        ∃ tool', tools (exec cfg now op w) !! k = Some tool' ∧
                 (tool' = tool ∨ tool' = Tool.UpdateHeartbeat now tool ∨
                  tool' = Tool.MarkOffline tool)
    | None =>
        tools (exec cfg now op w) !! k = None ∨
        tools (exec cfg now op w) !! k = Some (Tool.NewTool now k)
    end).
  { intros ->. destruct (tools w !! k) as [tool|]; eauto. }
  pose proof (exec_tools_manager cfg now op w Hwf) as Hm.
  destruct op as [toolID|toolID|toolID| |uuid toolID threadID|id|id|id|reason| | | |toolID];
    try (by apply Hsame); clear Hm Hsame; cbn [exec].
  - unfold Register. destruct (tools w !! toolID) as [ex|] eqn:Hex.
    + destruct (Tool.IsOnline ex); simpl.
      { destruct (tools w !! k) as [tool|]; eauto. }
      destruct (decide (toolID = k)) as [->|Hne].
      * rewrite Hex, lookup_insert_eq. eauto.
      * rewrite lookup_insert_ne by done. destruct (tools w !! k) as [tool|]; eauto.
    + simpl. destruct (decide (toolID = k)) as [->|Hne].
      * rewrite Hex, lookup_insert_eq. eauto.
      * rewrite lookup_insert_ne by done. destruct (tools w !! k) as [tool|]; eauto.
  - unfold Heartbeat. destruct (tools w !! toolID) as [ex|] eqn:Hex; simpl.
    + destruct (decide (toolID = k)) as [->|Hne].
      * rewrite Hex, lookup_insert_eq. eauto.
      * rewrite lookup_insert_ne by done. destruct (tools w !! k) as [tool|]; eauto.
    + destruct (tools w !! k) as [tool|]; eauto.
  - unfold Unregister. destruct (tools w !! toolID) as [ex|] eqn:Hex; simpl.
    + destruct (decide (toolID = k)) as [->|Hne].
      * rewrite Hex, lookup_insert_eq. eauto 6.
      * rewrite lookup_insert_ne by done. destruct (tools w !! k) as [tool|]; eauto.
    + destruct (tools w !! k) as [tool|]; eauto.
  - destruct (CheckAndMarkOffline_fields cfg now w) as (_ & _ & _ & _ & _ & ->).
    rewrite lookup_fmap. destruct (tools w !! k) as [tool|]; simpl; [|by left].
    destruct (heartbeat_lost _ _ tool); eauto 6.
Qed.

Lemma reachable_tool_key w :
  reachable w → ∀ k tool, tools w !! k = Some tool → Tool.ToolID tool = k.
Proof.
  induction 1 as [|cfg t0 op w Hreach IH Hfresh]; intros k tool Hk; [done|].
  pose proof (exec_tool cfg t0 op w k (reachable_wf w Hreach)) as Hstep.
  destruct (tools w !! k) as [tool0|] eqn:Hk0.
  - destruct Hstep as (tool' & Hk' & Hcase).
    assert (tool' = tool) as -> by congruence.
    destruct Hcase as [-> | [-> | ->]]; simpl; by apply IH.
  - destruct Hstep as [Hnone|Hnew]; [congruence|].
    assert (tool = Tool.NewTool t0 k) as -> by congruence. done.
Qed.

Lemma run_tool steps :
  ∀ w k tool, wf w → freshUUIDs steps w → tools w !! k = Some tool →
  ∃ tool', tools (run steps w) !! k = Some tool' ∧
           Tool.ToolID tool' = Tool.ToolID tool ∧
           Tool.RegisteredAt tool' = Tool.RegisteredAt tool.
Proof.
  induction steps as [|[[cfg now] op] steps IH]; intros w k tool Hwf Hfresh Hk.
  - exists tool. done.
  - destruct Hfresh as [Hf Hfs].
    pose proof (exec_tool cfg now op w k Hwf) as Hstep. rewrite Hk in Hstep.
    destruct Hstep as (tool1 & Hk1 & Hcase).
    destruct (IH (exec cfg now op w) k tool1 (wf_exec cfg now op w Hwf Hf) Hfs Hk1)
      as (tool' & Hk' & Hid & Hreg).
    exists tool'. split; [exact Hk'|].
    destruct Hcase as [-> | [-> | ->]]; simpl in *; done.
Qed.

(** X14. The registry only grows.  Every entry is stored under its own
    tool id; a tool, once registered, stays in the registry through every
    later call ([Unregister] and the heartbeat sweep only mark it offline)
    and keeps its registration time through every reactivation; and every
    ticket of the manager belongs to a registered tool. *)
Theorem registry_only_grows steps w
    (Hreach : reachable w) (Hfresh : freshUUIDs steps w) :
  (∀ k tool, tools w !! k = Some tool → Tool.ToolID tool = k) ∧
  (∀ k tool, tools w !! k = Some tool →
     ∃ tool', tools (run steps w) !! k = Some tool' ∧
              Tool.RegisteredAt tool' = Tool.RegisteredAt tool) ∧
  (∀ p, managed w p → is_Some (tools w !! toolOf w p)).
Proof.
  split_and!.
  - by apply reachable_tool_key.
  - intros k tool Hk.
    destruct (run_tool steps w k tool (reachable_wf w Hreach) Hfresh Hk)
      as (tool' & Hk' & _ & Hreg).
    eauto.
  - intros p Hp. by apply managed_tool_registered.
Qed.

(** X15. [Register] fails with "already registered" exactly when the tool
    is online, and then changes nothing.  Otherwise it succeeds and the
    tool is online with its heartbeat at the present instant: a new tool is
    created with the present instant as registration time, an offline one is
    reactivated with its registration time kept.  No other entry and no
    ticket is touched, and a second [Register] then fails. *)
Theorem Register_once now now2 toolID w (Hreach : reachable w) :
  (IsOnline toolID w = true →
     Register now toolID w = (w, Err ErrToolAlreadyRegistered)) ∧
  (IsOnline toolID w = false →
     let tool := {| Tool.ToolID := toolID;
                    Tool.RegisteredAt := match tools w !! toolID with
                                         | Some old => Tool.RegisteredAt old
                                         | None => now
                                         end;
                    Tool.LastHeartbeat := now;
                    Tool.Status := Tool.ToolStatusOnline |} in
     ∃ w', Register now toolID w = (w', Ok tool) ∧
       tools w' = <[toolID := tool]> (tools w) ∧
       IsOnline toolID w' = true ∧
       heap w' = heap w ∧ queue w' = queue w ∧ currentLock w' = currentLock w ∧
       tickets w' = tickets w ∧ threadKeys w' = threadKeys w ∧
       events w' = events w ++ [LogToolRegistered toolID] ∧
       Register now2 toolID w' = (w', Err ErrToolAlreadyRegistered)).
Proof.
  pose proof (reachable_tool_key w Hreach toolID) as Hkey.
  unfold IsOnline, Register. split.
  - destruct (tools w !! toolID) as [old|]; [|done]. by intros ->.
  - destruct (tools w !! toolID) as [old|] eqn:Hold.
    + intros Hoff. rewrite Hoff. cbv zeta.
      unfold Tool.UpdateHeartbeat. rewrite (Hkey old eq_refl).
      eexists. split_and!; try done.
      * simpl. by rewrite lookup_insert_eq.
      * simpl. by rewrite lookup_insert_eq.
    + intros _. cbv zeta. eexists. split_and!; try done.
      * simpl. by rewrite lookup_insert_eq.
      * simpl. by rewrite lookup_insert_eq.
Qed.

(** X16. [Unregister] of a registered tool only marks it offline: the
    entry stays and [GetTool] still finds it, its tickets are not touched,
    and [RequestLock] is refused for it.  Both [Register] and a plain
    [Heartbeat] bring the tool back online, with the same entry: the
    registration time is kept and the heartbeat is the present instant. *)
Theorem Unregister_then_back cfg now toolID w tool
    (Hreg : tools w !! toolID = Some tool) :
  let w1 := (Unregister toolID w).1 in
  let back := Tool.UpdateHeartbeat now tool in
  (Unregister toolID w).2 = Ok (Tool.MarkOffline tool) ∧
  GetTool toolID w1 = Ok (Tool.MarkOffline tool) ∧
  IsOnline toolID w1 = false ∧
  heap w1 = heap w ∧ queue w1 = queue w ∧ currentLock w1 = currentLock w ∧
  tickets w1 = tickets w ∧ threadKeys w1 = threadKeys w ∧
  (∀ uuid threadID,
     RequestLock cfg now uuid toolID threadID w1 = (w1, Err ErrToolOffline)) ∧
  (Register now toolID w1).2 = Ok back ∧
  (Heartbeat now toolID w1).2 = Ok back ∧
  tools (Register now toolID w1).1 = <[toolID := back]> (tools w) ∧
  tools (Heartbeat now toolID w1).1 = <[toolID := back]> (tools w) ∧
  Tool.RegisteredAt back = Tool.RegisteredAt tool ∧
  Tool.LastHeartbeat back = now ∧ Tool.IsOnline back = true.
Proof.
  intros w1 back. subst w1.
  unfold Unregister. rewrite Hreg. simpl.
  unfold GetTool, IsOnline, RequestLock, IsOnline, Register, Heartbeat. simpl.
  rewrite !lookup_insert_eq. simpl.
  split_and!; try done.
  - by rewrite insert_insert_eq.
  - by rewrite insert_insert_eq.
Qed.

(** ** What the handlers are handed *)

Lemma indexed_position w id p :
  wf w → (currentLock w = None → queue w = []) → tickets w !! id = Some p →
  let pos := getQueuePosition id w in
  (pos = 0%Z ∧ Ticket.Status (deref w p) = TicketStatusGranted ∧ currentLock w = Some p) ∨
  ((1 ≤ pos)%Z ∧ Ticket.Status (deref w p) = TicketStatusWaiting ∧
   queue w !! (Z.to_nat pos - 1) = Some p).
Proof.
  intros Hwf Hbusy Hid pos.
  destruct (wf_tickets w Hwf id p Hid) as (t & Hp & Hidt & _ & Hwhere).
  apply line_elem, list_elem_of_lookup in Hwhere as [i Hi].
  assert (Hpos : pos = Z.of_nat i).
  { subst pos. rewrite <- Hidt, <- (deref_lookup w p t Hp).
    by apply getQueuePosition_line. }
  rewrite Hpos. unfold line in Hi. destruct (currentLock w) as [h|] eqn:Hc.
  - destruct i as [|i]; simpl in Hi.
    + injection Hi as ->. left.
      destruct (wf_holder w Hwf p Hc) as (th & Hh & Hst & _).
      by rewrite (deref_lookup w p th Hh).
    + right. assert (p ∈ queue w) as Hin by (apply list_elem_of_lookup; eauto).
      destruct (wf_queue w Hwf p Hin) as (tq & Hq & Hst & _).
      rewrite (deref_lookup w p tq Hq). split_and!; [lia|done|].
      by replace (Z.to_nat (Z.of_nat (S i)) - 1) with i by lia.
  - rewrite (Hbusy eq_refl) in Hi. done.
Qed.

(** X17. In the state that [CheckLock] or [RequestLock] leaves when it
    returns a ticket, that ticket is neither released nor expired, and the
    position returned with it tells its status in that state: position 0
    means that the ticket is granted and holds the lock, and any other
    position is at least 1, the ticket is waiting and stands at that place
    in the queue.  (What a caller reads from the ticket object later, once
    other calls have run, is not covered.) *)
Theorem returned_position_tells_status cfg now w (Hreach : reachable w) :
  let agrees (w' : World) (p : ptr) (pos : Z) :=
    (pos = 0%Z ∧ Ticket.Status (deref w' p) = TicketStatusGranted ∧
     currentLock w' = Some p) ∨
    ((1 ≤ pos)%Z ∧ Ticket.Status (deref w' p) = TicketStatusWaiting ∧
     queue w' !! (Z.to_nat pos - 1) = Some p) in
  (∀ id w' p pos, CheckLock cfg now id w = (w', Ok (p, pos)) → agrees w' p pos) ∧
  (∀ uuid toolID threadID w' p pos,
     (∀ t, t ∈ heap w → Ticket.TicketID t ≠ uuid) →
     RequestLock cfg now uuid toolID threadID w = (w', Ok (p, pos)) → agrees w' p pos).
Proof.
  intros agrees.
  pose proof (reachable_wf w Hreach) as Hwf.
  pose proof (reachable_busy w Hreach) as Hbusy.
  split.
  - intros id w' p pos Hcl.
    assert (Hreach' : reachable (exec cfg now (OpCheckLock id) w)).
    { by apply reachable_step. }
    simpl in Hreach'. rewrite Hcl in Hreach'. simpl in Hreach'.
    destruct (tickets w !! id) as [q|] eqn:Hid.
    + pose proof (CheckLock_found cfg now id w q Hwf Hid) as Hf. cbv zeta in Hf.
      rewrite Hcl in Hf. injection Hf as Hw' -> Hpos.
      assert (Hid' : tickets w' !! id = Some q).
      { rewrite Hw'. by destruct (_ || _). }
      assert (Hpos' : pos = getQueuePosition id w').
      { rewrite Hpos, Hw'. destruct (_ || _); [|done].
        symmetry. apply getQueuePosition_ext; try done.
        intros q0. destruct (wf_tickets w Hwf id q Hid) as (t & Hq & _).
        rewrite deref_update by (apply lookup_lt_is_Some; eauto).
        by destruct (decide (q = q0)). }
      rewrite Hpos'.
      apply (indexed_position w' id q (reachable_wf _ Hreach') (reachable_busy _ Hreach') Hid').
    + unfold CheckLock in Hcl. by rewrite Hid in Hcl.
  - intros uuid toolID threadID w' p pos Hfresh Hrl.
    assert (Hreach' : reachable (exec cfg now (OpRequestLock uuid toolID threadID) w)).
    { by apply reachable_step. }
    simpl in Hreach'. rewrite Hrl in Hreach'. simpl in Hreach'.
    pose proof (reachable_wf _ Hreach') as Hwf'.
    pose proof (reachable_busy _ Hreach') as Hbusy'.
    revert Hrl. unfold RequestLock.
    destruct (negb (IsOnline toolID w)); [done|].
    destruct (existingTicket _ w) as [q|] eqn:Hex.
    + intros [= <- <- <-].
      assert (Hidx : tickets w !! Ticket.TicketID (deref w q) = Some q).
      { unfold existingTicket in Hex.
        destruct (threadKeys w !! _) as [id|]; [|done].
        destruct (tickets w !! id) as [q'|] eqn:Hid; [|done].
        destruct (_ || _); [|done]. injection Hex as ->.
        destruct (wf_tickets w Hwf id q Hid) as (t & Hq & Hidt & _).
        by rewrite (deref_lookup w q t Hq), Hidt. }
      by apply indexed_position.
    + cbv zeta. intros [= <- <- <-]. apply indexed_position; try done.
      rewrite (proj1 (tryGrantNext_indices cfg now _)). simpl.
      by rewrite lookup_insert_eq.
Qed.

(** ** The buffer of recent lock events *)

Lemma buffer_size_pos : 0 < recentEventsBufferSize.
Proof. unfold recentEventsBufferSize. lia. Qed.

#[local] Opaque recentEventsBufferSize.

Lemma mod_pred_step n k N :
  0 < N → k < n →
  ((n + N - 1 - k) mod N + N - 1) mod N = (n + N - 1 - S k) mod N.
Proof.
  intros HN Hk.
  replace ((n + N - 1 - k) mod N + N - 1) with ((n + N - 1 - k) mod N + (N - 1)) by lia.
  rewrite Nat.Div0.add_mod_idemp_l.
  replace (n + N - 1 - k + (N - 1)) with (n + N - 1 - S k + 1 * N) by lia.
  by rewrite Nat.Div0.mod_add.
Qed.

(** The buffer after [es]: the [k]-th newest event sits [k] slots behind
    the write index, and the slots never written hold the zero struct. *)
Lemma addAll_slots es :
  let N := recentEventsBufferSize in
  let r := addAll es NewRecentEvents in
  let n := length es in
  length (recentEvents r) = N ∧
  recentEventIdx r = n mod N ∧
  (∀ k, k < n → k < N →
        recentEvents r !!! ((n + N - 1 - k) mod N) = reverse es !!! k) ∧
  (∀ i, n ≤ i → i < N → recentEvents r !!! i = LockEventLog.zero).
Proof.
  pose proof buffer_size_pos as HN.
  induction es as [|e es IH] using rev_ind; intros N r n; subst N r n.
  - unfold addAll, NewRecentEvents. simpl. split_and!.
    + apply length_replicate.
    + by rewrite Nat.Div0.mod_0_l.
    + intros k Hk. lia.
    + intros i _ Hi. apply list_lookup_total_correct. by apply lookup_replicate_2.
  - cbv zeta in IH. destruct IH as (Hlen & Hidx & Hnew & Hzero).
    unfold addAll in *. rewrite foldl_app. simpl.
    set (r := foldl _ NewRecentEvents es) in *.
    rewrite length_app. simpl. rewrite Hidx.
    set (n := length es) in *. set (N := recentEventsBufferSize) in *.
    assert (HnN : n mod N < N) by (apply Nat.mod_upper_bound; lia).
    split_and!.
    + by rewrite length_insert.
    + rewrite Nat.Div0.add_mod_idemp_l. done.
    + intros k Hk HkN. rewrite reverse_app. simpl.
      destruct k as [|k].
      * replace (n + 1 + N - 1 - 0) with (n + 1 * N) by lia.
        rewrite Nat.Div0.mod_add. simpl.
        apply list_lookup_total_correct. apply list_lookup_insert_eq. lia.
      * simpl. replace (n + 1 + N - 1 - S k) with (n + N - 1 - k) by lia.
        rewrite list_lookup_total_insert_ne; [apply Hnew; lia|].
        intros Heq.
        assert (Hk1 : (n mod N + S k) mod N = n mod N).
        { rewrite Heq at 1. rewrite Nat.Div0.add_mod_idemp_l.
          replace (n + N - 1 - k + S k) with (n + 1 * N) by lia.
          by rewrite Nat.Div0.mod_add. }
        pose proof (Nat.div_mod_eq (n mod N + S k) N) as Hdm.
        rewrite Hk1 in Hdm.
        assert ((n mod N + S k) / N < 2) as Hq
          by (apply Nat.Div0.div_lt_upper_bound; lia).
        destruct ((n mod N + S k) / N) as [|[|q]]; lia.
    + intros i Hi HiN. rewrite list_lookup_total_insert_ne.
      * apply Hzero; lia.
      * rewrite Nat.mod_small by lia. lia.
Qed.

Lemma recentLoop_spec slots es :
  let N := recentEventsBufferSize in
  let n := length es in
  Forall (λ e, LockEventLog.Timestamp e ≠ 0%Z) es →
  (∀ k, k < n → k < N → slots !!! ((n + N - 1 - k) mod N) = reverse es !!! k) →
  (∀ i, n ≤ i → i < N → slots !!! i = LockEventLog.zero) →
  ∀ m k, k ≤ n → k + m ≤ N →
    recentLoop slots m ((n + N - 1 - k) mod N) = take m (drop k (reverse es)).
Proof.
  intros N n Hts Hnew Hzero.
  pose proof buffer_size_pos as HN. fold N in HN.
  induction m as [|m IH]; intros k Hk Hkm; [done|].
  simpl. fold N.
  destruct (decide (k < n)) as [Hlt|Hge].
  - rewrite Hnew by lia.
    assert (Hlk : reverse es !! k = Some (reverse es !!! k)).
    { apply list_lookup_lookup_total_lt. rewrite length_reverse. done. }
    assert (Hnz : LockEventLog.IsZero (reverse es !!! k) = false).
    { unfold LockEventLog.IsZero. apply bool_decide_eq_false.
      rewrite Forall_forall in Hts. apply Hts.
      apply elem_of_reverse. apply list_elem_of_lookup. eauto. }
    rewrite Hnz. rewrite mod_pred_step by done.
    rewrite IH by lia.
    rewrite (drop_S _ _ _ Hlk). done.
  - assert (k = n) as -> by lia.
    replace (n + N - 1 - n) with (N - 1) by lia.
    rewrite Nat.mod_small by lia.
    rewrite Hzero by lia.
    rewrite drop_ge by (rewrite length_reverse; done). done.
Qed.

(** X18. The buffer of recent lock events.  After any number of events
    with a non-zero time stamp have been added to the empty buffer,
    [GetRecentEvents] returns the newest events first, as many as asked for
    but at most the 100 that the buffer holds, and none when the limit is 0;
    a negative limit makes it panic. *)
Theorem GetRecentEvents_newest_first es limit
    (Hts : Forall (λ e, LockEventLog.Timestamp e ≠ 0%Z) es) :
  ((0 ≤ limit)%Z →
     GetRecentEvents limit (addAll es NewRecentEvents) =
       Some (take (Z.to_nat limit `min` recentEventsBufferSize) (reverse es))) ∧
  ((limit < 0)%Z → GetRecentEvents limit (addAll es NewRecentEvents) = None).
Proof.
  pose proof buffer_size_pos as HN.
  destruct (addAll_slots es) as (Hlen & Hidx & Hnew & Hzero).
  unfold GetRecentEvents. rewrite Hidx.
  set (N := recentEventsBufferSize) in *. set (n := length es) in *.
  split.
  - intros Hlim.
    assert (Hstart : (n mod N + N - 1) mod N = (n + N - 1 - 0) mod N).
    { replace (n mod N + N - 1) with (n mod N + (N - 1)) by lia.
      rewrite Nat.Div0.add_mod_idemp_l. f_equal. lia. }
    rewrite Hstart.
    destruct (bool_decide (Z.of_nat N < limit)%Z) eqn:Hcap.
    + apply bool_decide_eq_true in Hcap.
      rewrite bool_decide_eq_false_2 by lia. rewrite Nat2Z.id.
      f_equal. etrans; [apply (recentLoop_spec _ es Hts Hnew Hzero N 0); lia|].
      rewrite drop_0. f_equal. lia.
    + apply bool_decide_eq_false in Hcap.
      rewrite bool_decide_eq_false_2 by lia.
      f_equal.
      etrans; [apply (recentLoop_spec _ es Hts Hnew Hzero (Z.to_nat limit) 0); lia|].
      rewrite drop_0. f_equal. lia.
  - intros Hneg. rewrite (bool_decide_eq_false_2 (Z.of_nat N < limit)%Z) by lia.
    by rewrite bool_decide_eq_true_2 by lia.
Qed.

(** ** The top tools of the daily summary *)

Lemma swapIfMore_length i j l : length (swapIfMore i j l) = length l.
Proof.
  unfold swapIfMore. destruct (bool_decide _); [|done].
  by rewrite !length_insert.
Qed.

Lemma swapIfMore_perm i j l :
  i < length l → j < length l → swapIfMore i j l ≡ₚ l.
Proof.
  intros Hi Hj. unfold swapIfMore. destruct (bool_decide _); [|done].
  apply Permutation_insert_swap; by apply list_lookup_lookup_total_lt.
Qed.

Lemma swapIfMore_lookup i j l k :
  i < j → j < length l →
  swapIfMore i j l !!! k =
    if bool_decide (toolStats.lockCount (l !!! i).2 < toolStats.lockCount (l !!! j).2)%Z
    then (if decide (k = j) then l !!! i else if decide (k = i) then l !!! j else l !!! k)
    else l !!! k.
Proof.
  intros Hij Hj. unfold swapIfMore. destruct (bool_decide _); [|done].
  destruct (decide (k = j)) as [->|Hkj].
  - apply list_lookup_total_insert_eq. by rewrite length_insert.
  - rewrite list_lookup_total_insert_ne by done.
    destruct (decide (k = i)) as [->|Hki].
    + apply list_lookup_total_insert_eq. lia.
    + by apply list_lookup_total_insert_ne.
Qed.

(** The inner loop, from index [s] on: position [i] ends up holding a
    largest lock count among the positions behind it, and the positions
    before [i] still dominate all the later ones. *)
Lemma inner_loop i c :
  ∀ s l,
    i < s → s + c ≤ length l →
    (∀ a b, a < i → a < b → b < length l →
            (toolStats.lockCount (l !!! b).2 ≤ toolStats.lockCount (l !!! a).2)%Z) →
    (∀ b, i < b → b < s →
          (toolStats.lockCount (l !!! b).2 ≤ toolStats.lockCount (l !!! i).2)%Z) →
    let l' := foldl (λ es j, swapIfMore i j es) l (seq s c) in
    length l' = length l ∧ l' ≡ₚ l ∧
    (∀ a b, a < i → a < b → b < length l →
            (toolStats.lockCount (l' !!! b).2 ≤ toolStats.lockCount (l' !!! a).2)%Z) ∧
    (∀ b, i < b → b < s + c →
          (toolStats.lockCount (l' !!! b).2 ≤ toolStats.lockCount (l' !!! i).2)%Z).
Proof.
  induction c as [|c IH]; intros s l His Hlen Hpre Hmax; simpl.
  - split_and!; try done. intros b ? ?. apply Hmax; lia.
  - set (l1 := swapIfMore i s l).
    assert (Hlen1 : length l1 = length l) by apply swapIfMore_length.
    assert (Hlk : ∀ k, l1 !!! k =
              if bool_decide (toolStats.lockCount (l !!! i).2 < toolStats.lockCount (l !!! s).2)%Z
              then (if decide (k = s) then l !!! i
                    else if decide (k = i) then l !!! s else l !!! k)
              else l !!! k).
    { intros k. apply swapIfMore_lookup; lia. }
    destruct (IH (S s) l1) as (Hl & Hp & Hpre' & Hmax').
    + lia.
    + lia.
    + intros a b Ha Hab Hb. rewrite !Hlk.
      destruct (bool_decide _); [|apply Hpre; lia].
      rewrite (decide_False (P := a = s)) by lia.
      rewrite (decide_False (P := a = i)) by lia.
      destruct (decide (b = s)); [apply Hpre; lia|].
      destruct (decide (b = i)); apply Hpre; lia.
    + intros b Hib Hbs. rewrite !Hlk.
      destruct (bool_decide _) eqn:Hsw.
      * apply bool_decide_eq_true in Hsw.
        rewrite (decide_False (P := i = s)) by lia.
        rewrite (decide_True (P := i = i)) by done.
        assert (b < s →
                (toolStats.lockCount (l !!! b).2 ≤ toolStats.lockCount (l !!! i).2)%Z)
          by (intros; apply Hmax; lia).
        repeat case_decide; subst; lia.
      * apply bool_decide_eq_false in Hsw.
        destruct (decide (b = s)) as [->|]; [lia|]. apply Hmax; lia.
    + split_and!.
      * congruence.
      * rewrite Hp. apply swapIfMore_perm; lia.
      * intros a b Ha Hab Hb. apply Hpre'; lia.
      * intros b Hib Hb. apply Hmax'; lia.
Qed.

Lemma outer_loop len c :
  ∀ s l,
    length l = len → s + c ≤ len →
    (∀ a b, a < s → a < b → b < len →
            (toolStats.lockCount (l !!! b).2 ≤ toolStats.lockCount (l !!! a).2)%Z) →
    let l' := foldl (λ es i, foldl (λ es' j, swapIfMore i j es') es
                               (seq (i + 1) (len - (i + 1))))
                    l (seq s c) in
    length l' = len ∧ l' ≡ₚ l ∧
    (∀ a b, a < s + c → a < b → b < len →
            (toolStats.lockCount (l' !!! b).2 ≤ toolStats.lockCount (l' !!! a).2)%Z).
Proof.
  induction c as [|c IH]; intros s l Hlen Hsc Hpre; simpl.
  - split_and!; try done. intros a b ? ? ?. apply Hpre; lia.
  - destruct (inner_loop s (len - (s + 1)) (s + 1) l) as (Hl1 & Hp1 & Hpre1 & Hmax1).
    + lia.
    + lia.
    + intros a b Ha Hab Hb. apply Hpre; lia.
    + intros b ? ?. lia.
    + destruct (IH (S s) _ (eq_trans Hl1 Hlen)) as (Hl & Hp & Hsorted).
      * lia.
      * intros a b Ha Hab Hb. destruct (decide (a = s)) as [->|Hne].
        -- apply Hmax1; lia.
        -- apply Hpre1; lia.
      * split_and!; [done|by rewrite Hp|].
        intros a b Ha Hab Hb. apply Hsorted; lia.
Qed.

Lemma pointwise_StronglySorted {A} `{!Inhabited A} (R : relation A) (l : list A) :
  (∀ a b, a < b → b < length l → R (l !!! a) (l !!! b)) → StronglySorted R l.
Proof.
  induction l as [|x l IH]; intros Hall; constructor.
  - apply IH. intros a b Hab Hb. apply (Hall (S a) (S b)); simpl; lia.
  - apply Forall_forall. intros y Hy.
    apply list_elem_of_lookup in Hy as [k Hk].
    pose proof (lookup_lt_Some _ _ _ Hk) as Hlt.
    specialize (Hall 0 (S k)). simpl in Hall.
    rewrite (list_lookup_total_correct _ _ _ Hk) in Hall. apply Hall; lia.
Qed.

Lemma sortByLockCount_sorted l :
  sortByLockCount l ≡ₚ l ∧
  StronglySorted (λ x y, (toolStats.lockCount y.2 ≤ toolStats.lockCount x.2)%Z)
    (sortByLockCount l).
Proof.
  unfold sortByLockCount.
  destruct (outer_loop (length l) (length l - 1) 0 l) as (Hl & Hp & Hsorted).
  - done.
  - lia.
  - intros a b Ha. lia.
  - split; [done|]. apply pointwise_StronglySorted.
    intros a b Hab Hb. rewrite Hl in Hb. apply Hsorted; lia.
Qed.

Lemma elem_of_take_1 {A} (l : list A) n x : x ∈ take n l → x ∈ l.
Proof.
  intros Hx. rewrite <- (take_drop n l). apply elem_of_app. by left.
Qed.

Lemma getTopTools_elem limit toolUsage top u :
  getTopTools limit toolUsage = Some top → u ∈ top →
  ∃ stats, toolUsage !! ToolUsage.ToolID u = Some stats ∧
           u = toUsage (ToolUsage.ToolID u, stats).
Proof.
  destruct (sortByLockCount_sorted (map_to_list toolUsage)) as [Hperm _].
  unfold getTopTools.
  set (entries := sortByLockCount (map_to_list toolUsage)) in *.
  assert (Hin : ∀ e, e ∈ entries → toolUsage !! e.1 = Some e.2).
  { intros [k stats]. rewrite Hperm. apply elem_of_map_to_list. }
  intros Heq Hu.
  assert (∃ e, e ∈ entries ∧ u = toUsage e) as (e & He & ->).
  { destruct (bool_decide (limit < Z.of_nat (length entries))%Z).
    - destruct (bool_decide (limit < 0)%Z); [done|]. injection Heq as <-.
      apply list_elem_of_fmap in Hu as (e & -> & He).
      exists e. split; [by eapply elem_of_take_1|done].
    - injection Heq as <-. apply list_elem_of_fmap in Hu as (e & -> & He). eauto. }
  exists e.2. split; [by apply Hin|by destruct e].
Qed.

Lemma getTopTools_bound limit toolUsage :
  ((0 ≤ limit)%Z → ∃ top, getTopTools limit toolUsage = Some top) ∧
  ((limit < 0)%Z → getTopTools limit toolUsage = None).
Proof.
  unfold getTopTools. split.
  - intros Hlim. rewrite (bool_decide_eq_false_2 (limit < 0)%Z) by lia.
    destruct (bool_decide _); eauto.
  - intros Hneg. rewrite bool_decide_eq_true_2 by lia.
    by rewrite bool_decide_eq_true_2 by lia.
Qed.

(** X19. [getTopTools] ranks the tools by lock count.  For a limit that is
    not negative it returns [min(limit, number of tools)] entries, one per
    tool and in order of decreasing lock count; each carries the counters of
    its tool, with the averages truncated (and 0 when the count is not
    positive), and no tool left out has a larger lock count than a tool
    listed.  A negative limit makes it panic. *)
Theorem getTopTools_ranked limit toolUsage :
  ((0 ≤ limit)%Z →
   ∃ top, getTopTools limit toolUsage = Some top ∧
     length top = Z.to_nat limit `min` size toolUsage ∧
     StronglySorted (λ x y, (ToolUsage.LockCount y ≤ ToolUsage.LockCount x)%Z) top ∧
     NoDup (ToolUsage.ToolID <$> top) ∧
     (∀ u, u ∈ top →
        ∃ stats, toolUsage !! ToolUsage.ToolID u = Some stats ∧
                 u = toUsage (ToolUsage.ToolID u, stats)) ∧
     (∀ k stats u, toolUsage !! k = Some stats → k ∉ ToolUsage.ToolID <$> top →
        u ∈ top → (toolStats.lockCount stats ≤ ToolUsage.LockCount u)%Z)) ∧
  ((limit < 0)%Z → getTopTools limit toolUsage = None).
Proof.
  destruct (sortByLockCount_sorted (map_to_list toolUsage)) as [Hperm Hsorted].
  unfold getTopTools.
  set (entries := sortByLockCount (map_to_list toolUsage)) in *.
  assert (Hlen : length entries = size toolUsage).
  { rewrite Hperm. by rewrite length_map_to_list. }
  assert (Hnd : NoDup entries.*1).
  { rewrite Hperm. apply NoDup_fst_map_to_list. }
  assert (Hin : ∀ e, e ∈ entries ↔ toolUsage !! e.1 = Some e.2).
  { intros [k stats]. rewrite Hperm. apply elem_of_map_to_list. }
  split.
  - intros Hlim.
    set (n := Z.to_nat limit `min` length entries).
    assert (Hresult : (if bool_decide (limit < Z.of_nat (length entries))%Z
                       then if bool_decide (limit < 0)%Z then None
                            else Some (toUsage <$> take (Z.to_nat limit) entries)
                       else Some (toUsage <$> entries))
                      = Some (toUsage <$> take n entries)).
    { rewrite (bool_decide_eq_false_2 (limit < 0)%Z) by lia.
      destruct (bool_decide (limit < Z.of_nat (length entries))%Z) eqn:Hb.
      - apply bool_decide_eq_true in Hb. do 3 f_equal. lia.
      - apply bool_decide_eq_false in Hb. do 2 f_equal.
        symmetry. apply take_ge. lia. }
    rewrite Hresult. eexists. split; [done|].
    assert (Hsplit : entries = take n entries ++ drop n entries)
      by (by rewrite take_drop).
    assert (Hsub : ∀ e, e ∈ take n entries → e ∈ entries).
    { intros e He. rewrite Hsplit. apply elem_of_app. by left. }
    assert (Hkeys : ToolUsage.ToolID <$> (toUsage <$> take n entries)
                    = (take n entries).*1).
    { rewrite <- list_fmap_compose. by apply list_fmap_ext. }
    split_and!.
    + rewrite length_fmap, length_take. lia.
    + apply (StronglySorted_fmap toUsage
               (λ x y, (toolStats.lockCount y.2 ≤ toolStats.lockCount x.2)%Z)).
      * by intros x y.
      * rewrite Hsplit in Hsorted. by apply StronglySorted_app_1_l in Hsorted.
    + rewrite Hkeys. rewrite Hsplit, fmap_app in Hnd.
      by apply NoDup_app in Hnd as [? _].
    + intros u Hu.
      apply (getTopTools_elem limit toolUsage (toUsage <$> take n entries) u); [|done].
      unfold getTopTools. fold entries. exact Hresult.
    + intros k stats u Hk Hout [e [-> He]]%list_elem_of_fmap. simpl.
      assert (Hks : (k, stats) ∈ entries) by (by apply Hin).
      rewrite Hsplit in Hks. apply elem_of_app in Hks as [Hks|Hks].
      * destruct Hout. rewrite Hkeys. apply list_elem_of_fmap. by exists (k, stats).
      * rewrite Hsplit in Hsorted.
        apply (StronglySorted_app_1_elem_of _ _ _ e (k, stats) Hsorted He Hks).
  - intros Hneg. rewrite bool_decide_eq_true_2 by lia.
    by rewrite bool_decide_eq_true_2 by lia.
Qed.

(** ** The usage table *)

Lemma usageAfter_snoc es e : usageAfter (es ++ [e]) = recordUsage e (usageAfter es).
Proof. unfold usageAfter. by rewrite foldl_app. Qed.

Lemma usageAfter_tally es toolID :
  usageAfter es !! toolID =
    if bool_decide (countEvents (isReleaseOf toolID) es = 0%Z) then None
    else Some {|
      toolStats.lockCount := wrap64 (countEvents (isReleaseOf toolID) es);
      toolStats.totalWaitTime := 0;
      toolStats.totalHoldTime :=
        wrap64 (foldr Z.add 0%Z (holdOf <$> filter (λ e, isReleaseOf toolID e = true) es))
    |}.
Proof.
  induction es as [|e es IH] using rev_ind.
  - done.
  - rewrite usageAfter_snoc, countEvents_snoc.
    assert (Hcnt : (0 ≤ countEvents (isReleaseOf toolID) es)%Z).
    { unfold countEvents. lia. }
    rewrite filter_app, fmap_app.
    assert (Hsum : ∀ l1 l2, foldr Z.add 0%Z (l1 ++ l2)
                           = (foldr Z.add 0%Z l1 + foldr Z.add 0%Z l2)%Z).
    { intros l1 l2. induction l1 as [|x l1 IHl]; simpl; [done|]. rewrite IHl. lia. }
    rewrite Hsum.
    destruct e; simpl; rewrite ?app_nil_r; simpl; rewrite ?Z.add_0_r; try exact IH.
    unfold updateToolUsage.
    destruct (decide (toolID0 = toolID)) as [->|Hne].
    + rewrite lookup_insert_eq, IH.
      rewrite (bool_decide_eq_true_2 (toolID = toolID)) by done.
      rewrite filter_cons_True by (simpl; by apply bool_decide_eq_true_2).
      rewrite (bool_decide_eq_false_2 (_ + 1 = 0)%Z) by lia. simpl. rewrite Z.add_0_r.
      destruct (bool_decide (countEvents (isReleaseOf toolID) es = 0%Z)) eqn:Hz; simpl.
      * apply bool_decide_eq_true in Hz. rewrite Hz.
        assert (filter (λ e, isReleaseOf toolID e = true) es = []) as ->.
        { unfold countEvents in Hz. destruct (filter _ es); [done|simpl in Hz; lia]. }
        simpl. rewrite Z.add_0_r. done.
      * rewrite !wrap64_add_l. rewrite Z.add_0_r. done.
    + rewrite lookup_insert_ne by done. rewrite IH.
      rewrite (bool_decide_eq_false_2 (toolID0 = toolID)) by done.
      rewrite filter_cons_False
        by (simpl; rewrite (bool_decide_eq_false_2 (toolID0 = toolID)); done).
      simpl. by rewrite !Z.add_0_r.
Qed.

(** X20. The usage table counts releases only.  After any events, a tool
    has an entry exactly when it released a lock; the entry holds the number
    of its releases and the sum of their hold times (both modulo 2^64) and a
    total wait time of 0, whatever grants and expiries were logged: every
    entry of the top tools of the daily summary has an average wait of 0. *)
Theorem usage_counts_releases es toolID :
  (usageAfter es !! toolID = None ↔ countEvents (isReleaseOf toolID) es = 0%Z) ∧
  (∀ stats, usageAfter es !! toolID = Some stats →
     toolStats.lockCount stats = wrap64 (countEvents (isReleaseOf toolID) es) ∧
     toolStats.totalWaitTime stats = 0%Z ∧
     toolStats.totalHoldTime stats =
       wrap64 (foldr Z.add 0%Z (holdOf <$> filter (λ e, isReleaseOf toolID e = true) es))) ∧
  (∀ top u, getTopTools 10 (usageAfter es) = Some top → u ∈ top →
     ToolUsage.AvgWaitMs u = 0%Z).
Proof.
  split_and!.
  - rewrite usageAfter_tally. destruct (bool_decide _) eqn:Hb.
    + by apply bool_decide_eq_true in Hb.
    + apply bool_decide_eq_false in Hb. done.
  - intros stats. rewrite usageAfter_tally.
    destruct (bool_decide _); [done|]. by intros [= <-].
  - intros top u Htop Hu.
    destruct (getTopTools_elem 10 (usageAfter es) top u Htop Hu) as (stats & Hk & ->).
    rewrite usageAfter_tally in Hk. destruct (bool_decide _); [done|].
    injection Hk as <-. unfold toUsage. simpl.
    by destruct (bool_decide _).
Qed.

(** ** The daily summary *)

Lemma recordDay_snoc es e d : recordDay (es ++ [e]) d = recordDaily e (recordDay es d).
Proof. unfold recordDay. by rewrite foldl_app. Qed.

Lemma daily_counter (c : Daily → Z) (f : Event → bool) :
  (∀ e d, c (recordDaily e d) = bump (f e) (c d)) →
  c NewDaily = 0%Z →
  ∀ es, c (recordDay es NewDaily) = wrap64 (countEvents f es).
Proof.
  intros Hc H0 es. induction es as [|e es IH] using rev_ind.
  - unfold recordDay. simpl. by rewrite H0.
  - rewrite recordDay_snoc, Hc, IH, countEvents_snoc. unfold bump.
    destruct (f e).
    + by rewrite wrap64_add_l.
    + by rewrite Z.add_0_r.
Qed.

Lemma daily_total (c : Daily → Z) (f : Event → option Z) :
  (∀ e d, c (recordDaily e d) = addTo (f e) (c d)) →
  c NewDaily = 0%Z →
  ∀ es, c (recordDay es NewDaily) = wrap64 (total f es).
Proof.
  intros Hc H0 es. induction es as [|e es IH] using rev_ind.
  - unfold recordDay. simpl. by rewrite H0.
  - rewrite recordDay_snoc, Hc, IH. unfold total, addTo.
    rewrite omap_app. simpl.
    assert (Hsum : ∀ l1 l2, foldr Z.add 0%Z (l1 ++ l2)
                           = (foldr Z.add 0%Z l1 + foldr Z.add 0%Z l2)%Z).
    { intros l1 l2. induction l1 as [|x l1 IHl]; simpl; [done|]. rewrite IHl. lia. }
    rewrite Hsum. destruct (f e); simpl.
    + rewrite wrap64_add_l. f_equal. lia.
    + by rewrite Z.add_0_r.
Qed.

Lemma foldr_max_nonneg (l : list Z) : (0 ≤ foldr Z.max 0%Z l)%Z.
Proof. induction l; simpl; lia. Qed.

Lemma foldr_max_app (l1 l2 : list Z) :
  foldr Z.max 0%Z (l1 ++ l2) = (foldr Z.max 0%Z l1 `max` foldr Z.max 0%Z l2)%Z.
Proof.
  pose proof (foldr_max_nonneg l2).
  induction l1 as [|x l1 IH]; simpl; [lia|]. rewrite IH. lia.
Qed.

Lemma daily_max (c : Daily → Z) (f : Event → option Z) :
  (∀ e d, c (recordDaily e d) = maxWith (f e) (c d)) →
  c NewDaily = 0%Z →
  ∀ es, c (recordDay es NewDaily) = largest f es.
Proof.
  intros Hc H0 es. induction es as [|e es IH] using rev_ind.
  - unfold recordDay. simpl. by rewrite H0.
  - rewrite recordDay_snoc, Hc, IH. unfold largest, maxWith.
    rewrite omap_app. simpl.
    rewrite foldr_max_app. pose proof (foldr_max_nonneg (omap f es)).
    destruct (f e); simpl.
    + unfold updateMax. case_bool_decide; lia.
    + lia.
Qed.

Lemma daily_usage es : toolUsage (recordDay es NewDaily) = usageAfter es.
Proof.
  induction es as [|e es IH] using rev_ind; [done|].
  by rewrite recordDay_snoc, usageAfter_snoc, <- IH.
Qed.

(** The summary of a day that starts with all counters at 0. *)
Lemma GetDailySummary_day date es :
  ∃ summary, GetDailySummary date (recordDay es NewDaily) = (NewDaily, Some summary) ∧
    DailySummaryLog.Date summary = date ∧
    DailySummaryLog.TotalRequests summary = wrap64 (countEvents isRequest es) ∧
    DailySummaryLog.TotalLocksGranted summary = wrap64 (countEvents isGranted es) ∧
    DailySummaryLog.TotalLocksReleased summary = wrap64 (countEvents isReleased es) ∧
    DailySummaryLog.TotalLocksExpired summary = wrap64 (countEvents isLockExpired es) ∧
    DailySummaryLog.TotalToolsRegistered summary = wrap64 (countEvents isRegistered es) ∧
    DailySummaryLog.ErrorCount summary = wrap64 (countEvents isError es) ∧
    DailySummaryLog.MaxQueueLength summary = largest queueLengthOf es ∧
    DailySummaryLog.MaxWaitTimeMs summary = largest waitOf es ∧
    DailySummaryLog.MaxHoldTimeMs summary = largest heldOf es ∧
    DailySummaryLog.AvgWaitTimeMs summary =
      (if bool_decide (0 < wrap64 (countEvents isGranted es))%Z
       then (wrap64 (total waitOf es) ÷ wrap64 (countEvents isGranted es))%Z else 0%Z) ∧
    DailySummaryLog.AvgHoldTimeMs summary =
      (if bool_decide (0 < wrap64 (countEvents isReleased es))%Z
       then (wrap64 (total heldOf es) ÷ wrap64 (countEvents isReleased es))%Z else 0%Z) ∧
    getTopTools 10 (usageAfter es) = Some (DailySummaryLog.TopTools summary).
Proof.
  unfold GetDailySummary. rewrite daily_usage.
  destruct (getTopTools 10 (usageAfter es)) as [top|] eqn:Htop.
  - eexists. split; [done|]. simpl.
    rewrite (daily_counter dailyRequests isRequest) by done.
    rewrite (daily_counter dailyLocksGranted isGranted) by done.
    rewrite (daily_counter dailyLocksReleased isReleased) by done.
    rewrite (daily_counter dailyLocksExpired isLockExpired) by done.
    rewrite (daily_counter dailyToolsRegistered isRegistered) by done.
    rewrite (daily_counter dailyErrors isError) by done.
    rewrite (daily_counter dailyWaitCount isGranted) by done.
    rewrite (daily_counter dailyHoldCount isReleased) by done.
    rewrite (daily_total dailyTotalWaitTime waitOf) by done.
    rewrite (daily_total dailyTotalHoldTime heldOf) by done.
    rewrite (daily_max dailyMaxQueueLength queueLengthOf) by done.
    rewrite (daily_max dailyMaxWaitTime waitOf) by done.
    rewrite (daily_max dailyMaxHoldTime heldOf) by done.
    split_and!; done.
  - destruct (proj1 (getTopTools_bound 10 (usageAfter es))) as (top & Heq); [lia|].
    congruence.
Qed.

(** X21. The daily summary.  Day after day, [GetDailySummary] reports the
    numbers of requests, grants, releases, lock expiries, tool registrations
    and errors logged since the previous summary (modulo 2^64), the largest
    queue length, wait and hold seen (0 when there was none), the truncated
    averages, and the top ten tools of the day; it resets every counter and
    the usage table, so that the summaries partition the events.  TTL
    expiries of waiting tickets, extensions, heartbeats and tools going
    offline are counted nowhere in it. *)
Theorem daily_summaries_partition days :
  Forall2 (λ (day : list Event * string) (result : option DailySummaryLog.t),
      ∃ summary, result = Some summary ∧
        DailySummaryLog.Date summary = day.2 ∧
        DailySummaryLog.TotalRequests summary = wrap64 (countEvents isRequest day.1) ∧
        DailySummaryLog.TotalLocksGranted summary = wrap64 (countEvents isGranted day.1) ∧
        DailySummaryLog.TotalLocksReleased summary = wrap64 (countEvents isReleased day.1) ∧
        DailySummaryLog.TotalLocksExpired summary =
          wrap64 (countEvents isLockExpired day.1) ∧
        DailySummaryLog.TotalToolsRegistered summary =
          wrap64 (countEvents isRegistered day.1) ∧
        DailySummaryLog.ErrorCount summary = wrap64 (countEvents isError day.1) ∧
        DailySummaryLog.MaxQueueLength summary = largest queueLengthOf day.1 ∧
        DailySummaryLog.MaxWaitTimeMs summary = largest waitOf day.1 ∧
        DailySummaryLog.MaxHoldTimeMs summary = largest heldOf day.1 ∧
        DailySummaryLog.AvgWaitTimeMs summary =
          (if bool_decide (0 < wrap64 (countEvents isGranted day.1))%Z
           then (wrap64 (total waitOf day.1) ÷ wrap64 (countEvents isGranted day.1))%Z
           else 0%Z) ∧
        DailySummaryLog.AvgHoldTimeMs summary =
          (if bool_decide (0 < wrap64 (countEvents isReleased day.1))%Z
           then (wrap64 (total heldOf day.1) ÷ wrap64 (countEvents isReleased day.1))%Z
           else 0%Z) ∧
        getTopTools 10 (usageAfter day.1) = Some (DailySummaryLog.TopTools summary))
    days (summaries days NewDaily).
Proof.
  induction days as [|[es date] days IH]; cbn [summaries]; [constructor|].
  destruct (GetDailySummary_day date es) as (summary & Heq & Hsummary).
  rewrite Heq. constructor; [|exact IH].
  exists summary. split; [done|exact Hsummary].
Qed.

(** ** Durations under a monotone clock *)

Lemma Milliseconds_nonneg d : (0 ≤ d)%Z → (0 ≤ Milliseconds d)%Z.
Proof. intros Hd. unfold Milliseconds, Millisecond. apply Z.quot_pos; lia. Qed.

Lemma timed_mono now now' t : (now ≤ now')%Z → timed now t → timed now' t.
Proof. intros Hle (H1 & H2 & H3). split_and!; [done|lia|]. intros Hs. specialize (H3 Hs). lia. Qed.

Lemma ticketStep_timed cfg now now' t t' :
  (now ≤ now')%Z → timed now t → ticketStep cfg now' t t' → timed now' t'.
Proof.
  intros Hle Ht Hstep. pose proof (timed_mono now now' t Hle Ht) as (H1 & H2 & H3).
  destruct Ht as (H1' & H2' & H3').
  destruct Hstep as [t|t Hl|t Hg _ _|t Hw|t Hg|t Hl]; unfold timed; simpl.
  - done.
  - split_and!; [lia|lia|done].
  - done.
  - split_and!; [done|done|]. intros _. lia.
  - split_and!; [done|done|]. intros _. apply H3. by left.
  - split_and!; [done|done|]. intros [?|?]; done.
Qed.

Lemma same_length_lookup {A} (l1 l2 : list A) :
  (∀ i, is_Some (l1 !! i) ↔ is_Some (l2 !! i)) → length l1 = length l2.
Proof.
  intros H. apply Nat.le_antisymm.
  - destruct (decide (length l1 ≤ length l2)) as [|Hn]; [done|].
    assert (is_Some (l1 !! length l2)) as Hs by (apply lookup_lt_is_Some; lia).
    apply H, lookup_lt_is_Some in Hs. lia.
  - destruct (decide (length l2 ≤ length l1)) as [|Hn]; [done|].
    assert (is_Some (l2 !! length l1)) as Hs by (apply lookup_lt_is_Some; lia).
    apply H, lookup_lt_is_Some in Hs. lia.
Qed.

Lemma tryGrantNext_length cfg now w :
  length (heap (tryGrantNext cfg now w)) = length (heap w).
Proof. by destruct (tryGrantNext_indices cfg now w) as (_ & _ & _ & ->). Qed.

(** Only [RequestLock] allocates. *)
Lemma exec_length cfg now op w :
  wf w →
  match op with
  | OpRequestLock _ _ _ => True
  | _ => length (heap (exec cfg now op w)) = length (heap w)
  end.
Proof.
  intros Hwf.
  destruct op as [toolID|toolID|toolID| |uuid toolID threadID|id|id|id|reason| | | |toolID];
    cbn [exec]; try done.
  - unfold Register.
    destruct (tools w !! toolID) as [ex|]; [destruct (Tool.IsOnline ex)|]; done.
  - unfold Heartbeat. by destruct (tools w !! toolID).
  - unfold Unregister. by destruct (tools w !! toolID).
  - by destruct (CheckAndMarkOffline_fields cfg now w) as (-> & _).
  - unfold CheckLock. destruct (tickets w !! id) as [p|]; [|done]. simpl.
    destruct (TicketTTLOnPoll cfg && _);
      [destruct (Ticket.IsGranted (deref (update p (Ticket.UpdatePollTime now) w) p))
      |destruct (Ticket.IsGranted (deref w p))]; simpl; by rewrite ?length_alter.
  - unfold ReleaseLock. destruct (tickets w !! id) as [p|]; [|done].
    destruct (negb _); [done|]. cbv zeta. simpl.
    rewrite tryGrantNext_length. simpl. by rewrite length_alter.
  - unfold ExtendLock. destruct (negb (LockExtendable cfg)); [done|].
    destruct (tickets w !! id) as [p|]; [|done].
    destruct (negb _); [done|]. destruct (bool_decide _); [done|].
    simpl. by rewrite length_alter.
  - unfold ExpireCurrentLock. destruct (currentLock w) as [h|]; [|done]. simpl.
    unfold expireHolder. rewrite tryGrantNext_length. simpl. by rewrite length_alter.
  - unfold ExpireWaitingTickets.
    pose proof (sweep_fold now (seconds (TicketTTL cfg)) (queue w) w [] []
                  (StronglySorted_lt_NoDup _ (wf_sorted w Hwf)))
      as (_ & _ & _ & _ & _ & _ & _ & Hin & Hout).
    destruct (foldl _ _ _) as [[w0 e0] n0]. simpl in *.
    apply same_length_lookup. intros i.
    destruct (decide (i ∈ filter
      (λ p, Ticket.IsTTLExpired now (seconds (TicketTTL cfg)) (deref w p) = true) (queue w)))
      as [Hel|Hel].
    + rewrite (Hin i Hel). by rewrite fmap_is_Some.
    + by rewrite (Hout i Hel).
  - unfold CheckGracePeriod. destruct (currentLock w) as [h|]; [|done].
    destruct (Ticket.IsGracePeriodExpired _ _ _); [|done]. simpl.
    unfold expireHolder. rewrite tryGrantNext_length. simpl. by rewrite length_alter.
  - unfold CheckLockExpiry. destruct (currentLock w) as [h|]; [|done].
    destruct (Ticket.IsLockExpired _ _); [|done]. simpl.
    unfold expireHolder. rewrite tryGrantNext_length. simpl. by rewrite length_alter.
  - destruct (RemoveToolTickets_shape cfg now toolID w Hwf)
      as (w3 & _ & Hh3 & _ & _ & _ & _ & _ & _ & _ & ->).
    destruct (bool_decide _); [rewrite tryGrantNext_length|]; by rewrite Hh3.
Qed.

(** A ticket found at an address that was free before the call has just
    been created, and may have been granted at once. *)
Lemma exec_alloc cfg now op w p t' :
  wf w → freshUUID op w →
  heap w !! p = None → heap (exec cfg now op w) !! p = Some t' →
  Ticket.RequestedAt t' = now ∧ Ticket.LastPollAt t' = now ∧
  (Ticket.Status t' = TicketStatusWaiting ∨
   (Ticket.Status t' = TicketStatusGranted ∧ Ticket.GrantedAt t' = now)) ∧
  Ticket.ExtendCount t' = 0%Z ∧
  (Ticket.Status t' = TicketStatusGranted →
   Ticket.ExpiresAt t' = (now + seconds (LockMaxDuration cfg))%Z).
Proof.
  intros Hwf Hfresh Hnone Hsome.
  apply lookup_ge_None in Hnone. pose proof (lookup_lt_Some _ _ _ Hsome) as Hlt.
  pose proof (exec_length cfg now op w Hwf) as Hlen.
  destruct op as [toolID|toolID|toolID| |uuid toolID threadID|id|id|id|reason| | | |toolID];
    try lia.
  clear Hlen. simpl in Hfresh. cbn [exec] in *. revert Hsome Hlt. unfold RequestLock.
  destruct (negb (IsOnline toolID w)) eqn:Hon; [simpl; lia|].
  destruct (existingTicket _ w) as [q|] eqn:Hex; [simpl; lia|].
  cbv zeta. set (w5 := emit _ _). simpl. intros Hsome Hlt.
  assert (Hwf5 : wf w5).
  { apply wf_emit. apply (wf_enqueue now uuid toolID threadID w Hwf Hfresh).
    - apply negb_false_iff in Hon. unfold IsOnline in Hon.
      by destruct (tools w !! toolID).
    - by apply existingTicket_None. }
  rewrite tryGrantNext_length in Hlt.
  assert (Hp : p = length (heap w)).
  { subst w5. simpl in Hlt. rewrite length_app in Hlt. simpl in Hlt. lia. }
  assert (H5 : heap w5 !! p = Some (Ticket.NewTicket now uuid toolID threadID)).
  { subst w5 p. simpl. by apply list_lookup_middle. }
  destruct (tryGrantNext_step cfg now w5 p _ Hwf5 H5) as (t1 & Ht1 & Hcase).
  assert (t1 = t') as -> by congruence.
  destruct Hcase as [->|(_ & _ & _ & ->)]; simpl; split_and!; try done.
  - by left.
  - by right.
Qed.

Lemma exec_heap_timed cfg now now' op w :
  wf w → freshUUID op w → (now ≤ now')%Z →
  (∀ p t, heap w !! p = Some t → timed now t) →
  ∀ p t, heap (exec cfg now' op w) !! p = Some t → timed now' t.
Proof.
  intros Hwf Hfresh Hle HT p t' Hp'.
  destruct (heap w !! p) as [t|] eqn:Hp.
  - destruct (exec_ticketStep cfg now' op w p t Hwf Hfresh Hp) as (t1 & Ht1 & Hstep).
    assert (t1 = t') as -> by congruence.
    by apply (ticketStep_timed cfg now now' t t' Hle (HT p t Hp)).
  - destruct (exec_alloc cfg now' op w p t' Hwf Hfresh Hp Hp') as (Hr & Hl & Hs & _).
    unfold timed. rewrite Hr, Hl. split_and!; [lia|lia|].
    intros Hst. destruct Hs as [Hw|[_ Hg]]; [|rewrite Hg; lia].
    destruct Hst as [Hst|Hst]; congruence.
Qed.

Lemma sane_tryGrantNext cfg now w :
  wf w →
  (∀ p t, heap (tryGrantNext cfg now w) !! p = Some t → timed now t) →
  (∀ e, e ∈ events w → (0 ≤ durationOf e)%Z) →
  ∀ e, e ∈ events (tryGrantNext cfg now w) → (0 ≤ durationOf e)%Z.
Proof.
  intros Hwf HT HE.
  destruct (currentLock w) as [h|] eqn:Hc.
  { by rewrite (tryGrantNext_holder cfg now w h Hc). }
  destruct (queue w) as [|p rest] eqn:Hq.
  { by rewrite (tryGrantNext_empty cfg now w Hq). }
  destruct (wf_queue w Hwf p) as (tp & Hp & Hst & _).
  { rewrite Hq. apply elem_of_cons. by left. }
  destruct (tryGrantNext_grant cfg now w p rest Hc Hq) as (_ & _ & Hheap & _).
  assert (Htimed : timed now (Ticket.Grant now (seconds (LockMaxDuration cfg)) tp)).
  { apply (HT p). by rewrite Hheap, list_lookup_alter_eq, Hp. }
  destruct Htimed as (_ & _ & Hg). specialize (Hg (or_introl eq_refl)). simpl in Hg.
  rewrite tryGrantNext_unfold, Hc, Hq. cbv zeta. simpl.
  intros e [He|He]%elem_of_app; [by apply HE|].
  apply list_elem_of_singleton in He as ->. simpl.
  apply Milliseconds_nonneg. rewrite (deref_lookup w p tp Hp).
  unfold Ticket.WaitDuration, Ticket.IsGranted. rewrite Hst. simpl. lia.
Qed.

Lemma sane_emit e w :
  (0 ≤ durationOf e)%Z →
  (∀ e', e' ∈ events w → (0 ≤ durationOf e')%Z) →
  ∀ e', e' ∈ events (emit e w) → (0 ≤ durationOf e')%Z.
Proof.
  intros He HE e'. simpl. intros [H|H]%elem_of_app; [by apply HE|].
  by apply list_elem_of_singleton in H as ->.
Qed.

Lemma sweep_fold_sane now ttl todo :
  ∀ acc, (∀ e, e ∈ events acc.1.1 → (0 ≤ durationOf e)%Z) →
         ∀ e, e ∈ events (foldl (sweepTicket now ttl) acc todo).1.1 → (0 ≤ durationOf e)%Z.
Proof.
  induction todo as [|p todo IH]; intros [[w expired] newQueue] HE; [done|].
  simpl. apply IH. unfold sweepTicket.
  destruct (Ticket.IsTTLExpired now ttl (deref w p)); [|done].
  simpl. intros e [H|H]%elem_of_app; [by apply HE|].
  by apply list_elem_of_singleton in H as ->.
Qed.

(** The hold time logged when the holder leaves. *)
Lemma holder_hold_nonneg now now' w h :
  wf w → (now ≤ now')%Z → (∀ p t, heap w !! p = Some t → timed now t) →
  currentLock w = Some h →
  (0 ≤ Milliseconds (Ticket.HoldDuration now' (deref w h)))%Z.
Proof.
  intros Hwf Hle HT Hc. destruct (wf_holder w Hwf h Hc) as (th & Hh & Hst & _).
  rewrite (deref_lookup w h th Hh). apply Milliseconds_nonneg.
  destruct (HT h th Hh) as (_ & _ & Hg). specialize (Hg (or_introl Hst)).
  unfold Ticket.HoldDuration, Ticket.IsGranted. rewrite Hst. simpl. lia.
Qed.

Lemma exec_sane cfg now now' op w :
  wf w → freshUUID op w → (now ≤ now')%Z →
  (∀ p t, heap w !! p = Some t → timed now t) →
  (∀ e, e ∈ events w → (0 ≤ durationOf e)%Z) →
  ∀ e, e ∈ events (exec cfg now' op w) → (0 ≤ durationOf e)%Z.
Proof.
  intros Hwf Hfresh Hle HT HE.
  pose proof (exec_heap_timed cfg now now' op w Hwf Hfresh Hle HT) as HT'.
  assert (Hleave : ∀ h f e0,
            currentLock w = Some h → (∀ x, sameIdentity (f x) x) →
            (0 ≤ durationOf e0)%Z →
            (∀ p t, heap (tryGrantNext cfg now'
                      (emit e0 (cleanupTicket h (set_currentLock None (update h f w))))) !! p
                    = Some t → timed now' t) →
            ∀ e, e ∈ events (tryGrantNext cfg now'
                   (emit e0 (cleanupTicket h (set_currentLock None (update h f w))))) →
                 (0 ≤ durationOf e)%Z).
  { intros h f e0 Hc Hf He0 HT0. apply sane_tryGrantNext; [|done|].
    - apply wf_emit. by apply wf_drop_holder.
    - by apply sane_emit. }
  destruct op as [toolID|toolID|toolID| |uuid toolID threadID|id|id|id|reason| | | |toolID];
    cbn [exec] in *.
  - unfold Register.
    destruct (tools w !! toolID) as [ex|]; [destruct (Tool.IsOnline ex)|];
      simpl; try done; by apply sane_emit.
  - unfold Heartbeat. destruct (tools w !! toolID); simpl; [by apply sane_emit|done].
  - unfold Unregister. destruct (tools w !! toolID); simpl; [by apply sane_emit|done].
  - unfold CheckAndMarkOffline. simpl. rewrite foldl_emit_events. simpl.
    intros e [H|H]%elem_of_app; [by apply HE|].
    by apply list_elem_of_fmap in H as (toolID & -> & _).
  - simpl in Hfresh. revert HT'. unfold RequestLock.
    destruct (negb (IsOnline toolID w)) eqn:Hon; [done|].
    destruct (existingTicket _ w) as [q|] eqn:Hex; [done|].
    cbv zeta. simpl. intros HT'. apply sane_tryGrantNext; [|done|].
    + apply wf_emit. apply (wf_enqueue now' uuid toolID threadID w Hwf Hfresh).
      * apply negb_false_iff in Hon. unfold IsOnline in Hon.
        by destruct (tools w !! toolID).
      * by apply existingTicket_None.
    + by apply sane_emit.
  - unfold CheckLock. destruct (tickets w !! id) as [p|]; [|done]. simpl.
    destruct (TicketTTLOnPoll cfg && _);
      [destruct (Ticket.IsGranted (deref (update p (Ticket.UpdatePollTime now') w) p))
      |destruct (Ticket.IsGranted (deref w p))]; done.
  - revert HT'. unfold ReleaseLock.
    destruct (tickets w !! id) as [h|] eqn:Hid; [|done].
    rewrite (isCurrentLock_spec w id h Hwf Hid).
    destruct (bool_decide (currentLock w = Some h)) eqn:Hb; [|done].
    apply bool_decide_eq_true in Hb. simpl. intros HT'.
    apply Hleave; [done|apply set_Status_sameIdentity| |done].
    simpl. by apply (holder_hold_nonneg now).
  - unfold ExtendLock. destruct (negb (LockExtendable cfg)); [done|].
    destruct (tickets w !! id) as [p|]; [|done].
    destruct (negb _); [done|]. destruct (bool_decide _); [done|].
    simpl. by apply sane_emit.
  - revert HT'. unfold ExpireCurrentLock.
    destruct (currentLock w) as [h|] eqn:Hc; [|done]. simpl. unfold expireHolder.
    intros HT'. apply Hleave; [done|apply set_Status_sameIdentity| |done].
    simpl. by apply (holder_hold_nonneg now).
  - unfold ExpireWaitingTickets.
    pose proof (sweep_fold_sane now' (seconds (TicketTTL cfg)) (queue w) (w, [], []) HE)
      as Hs.
    destruct (foldl _ _ _) as [[w0 e0] n0]. done.
  - revert HT'. unfold CheckGracePeriod.
    destruct (currentLock w) as [h|] eqn:Hc; [|done].
    destruct (Ticket.IsGracePeriodExpired _ _ _); [|done]. simpl. unfold expireHolder.
    intros HT'. apply Hleave; [done|apply set_Status_sameIdentity| |done].
    simpl. by apply (holder_hold_nonneg now).
  - revert HT'. unfold CheckLockExpiry.
    destruct (currentLock w) as [h|] eqn:Hc; [|done].
    destruct (Ticket.IsLockExpired _ _); [|done]. simpl. unfold expireHolder.
    intros HT'. apply Hleave; [done|apply set_Status_sameIdentity| |done].
    simpl. by apply (holder_hold_nonneg now).
  - revert HT'.
    destruct (RemoveToolTickets_shape cfg now' toolID w Hwf)
      as (w3 & Hwf3 & _ & _ & He3 & _ & _ & _ & _ & _ & ->).
    destruct (bool_decide _); intros HT'.
    + apply sane_tryGrantNext; [done|done|]. by rewrite He3.
    + by rewrite He3.
Qed.

Lemma reachableAt_reachable now w : reachableAt now w → reachable w.
Proof.
  induction 1 as [|cfg t0 t1 op w Hreach IH Hfresh Hle]; [apply reachable_init|].
  by apply reachable_step.
Qed.

Lemma reachableAt_timed now w :
  reachableAt now w →
  (∀ p t, heap w !! p = Some t → timed now t) ∧
  (∀ e, e ∈ events w → (0 ≤ durationOf e)%Z).
Proof.
  induction 1 as [|cfg t0 t1 op w Hreach [HT HE] Hfresh Hle].
  - split; [done|]. by intros e ?%elem_of_nil.
  - pose proof (reachable_wf w (reachableAt_reachable _ _ Hreach)) as Hwf.
    split.
    + by apply (exec_heap_timed cfg t0 t1).
    + by apply (exec_sane cfg t0 t1).
Qed.

(** X22. Durations under a monotone clock.  When no call reads an earlier
    instant than the call before it, every wait and hold duration that the
    manager has logged is non-negative, the time stamps of every ticket are
    in order (requested, then last polled, and requested, then granted, none
    later than the clock), and the wait, the hold and the time since the
    last poll computed for any ticket at the present or a later instant are
    non-negative. *)
Theorem durations_never_negative now w (Hreach : reachableAt now w) :
  (∀ e, e ∈ events w → (0 ≤ durationOf e)%Z) ∧
  (∀ t now', t ∈ heap w → (now ≤ now')%Z →
     timed now t ∧
     (0 ≤ Ticket.WaitDuration now' t)%Z ∧
     (0 ≤ Ticket.HoldDuration now' t)%Z ∧
     (0 ≤ now' - Ticket.LastPollAt t)%Z ∧
     (0 ≤ RemainingTime now' t)%Z).
Proof.
  destruct (reachableAt_timed now w Hreach) as [HT HE].
  split; [exact HE|].
  intros t now' [p Hp]%list_elem_of_lookup Hle.
  pose proof (HT p t Hp) as Ht. split; [exact Ht|].
  destruct Ht as (H1 & H2 & H3).
  unfold Ticket.WaitDuration, Ticket.HoldDuration, RemainingTime,
    Ticket.IsGranted, Ticket.IsReleased.
  assert (HG : Ticket.Status t = TicketStatusGranted →
               (Ticket.RequestedAt t ≤ Ticket.GrantedAt t ≤ now)%Z)
    by (intros; apply H3; by left).
  assert (HR : Ticket.Status t = TicketStatusReleased →
               (Ticket.RequestedAt t ≤ Ticket.GrantedAt t ≤ now)%Z)
    by (intros; apply H3; by right).
  clear H3.
  destruct (Ticket.Status t); simpl; repeat case_bool_decide; try done;
    try specialize (HG eq_refl); try specialize (HR eq_refl); lia.
Qed.

Lemma reachableAt_run steps :
  ∀ now w, reachableAt now w → monotoneb now steps = true → freshUUIDs steps w →
           reachableAt (lastInstant now steps) (run steps w).
Proof.
  induction steps as [|[[cfg t1] op] steps IH]; intros t0 w Hreach Hmono Hfresh; [done|].
  simpl in Hmono. apply andb_true_iff in Hmono as [Hle Hmono].
  apply bool_decide_eq_true in Hle. destruct Hfresh as [Hf Hfs].
  apply (IH t1 (exec cfg t1 op w)); [|done|done].
  by apply (reachableAt_step cfg t0 t1).
Qed.

(** ** The term of a lock under a fixed configuration *)

Lemma reachableUnder_reachableAt cfg now w : reachableUnder cfg now w → reachableAt now w.
Proof.
  induction 1 as [|t0 t1 op w Hreach IH Hfresh Hle]; [apply reachableAt_init|].
  by apply (reachableAt_step cfg t0 t1).
Qed.

Lemma ticketStep_bounded cfg now now' t t' :
  (now ≤ now')%Z → ticketStep cfg now' t t' →
  (0 ≤ Ticket.ExtendCount t ≤ 0 `max` LockExtendMax cfg)%Z ∧
  (Ticket.Status t = TicketStatusGranted →
   (Ticket.ExpiresAt t ≤ now + seconds (LockMaxDuration cfg))%Z) →
  (0 ≤ Ticket.ExtendCount t' ≤ 0 `max` LockExtendMax cfg)%Z ∧
  (Ticket.Status t' = TicketStatusGranted →
   (Ticket.ExpiresAt t' ≤ now' + seconds (LockMaxDuration cfg))%Z).
Proof.
  intros Hle Hstep [Hcnt Hexp].
  destruct Hstep as [t|t Hl|t Hg Hable Hlt|t Hw|t Hg|t Hl]; simpl.
  - split; [done|]. intros Hs. specialize (Hexp Hs). lia.
  - split; [done|]. intros Hs. specialize (Hexp Hs). lia.
  - split; [lia|]. intros _. lia.
  - split; [done|]. intros _. lia.
  - split; [done|]. done.
  - split; [done|]. done.
Qed.

Lemma reachableUnder_bounded cfg now w :
  reachableUnder cfg now w →
  ∀ p t, heap w !! p = Some t →
    (0 ≤ Ticket.ExtendCount t ≤ 0 `max` LockExtendMax cfg)%Z ∧
    (Ticket.Status t = TicketStatusGranted →
     (Ticket.ExpiresAt t ≤ now + seconds (LockMaxDuration cfg))%Z).
Proof.
  induction 1 as [|t0 t1 op w Hreach IH Hfresh Hle]; intros p t' Hp'; [done|].
  pose proof (reachable_wf w (reachableAt_reachable _ _
                (reachableUnder_reachableAt _ _ _ Hreach))) as Hwf.
  destruct (heap w !! p) as [t|] eqn:Hp.
  - destruct (exec_ticketStep cfg t1 op w p t Hwf Hfresh Hp) as (t2 & Ht2 & Hstep).
    assert (t2 = t') as -> by congruence.
    apply (ticketStep_bounded cfg t0 t1 t t' Hle Hstep). by apply (IH p).
  - destruct (exec_alloc cfg t1 op w p t' Hwf Hfresh Hp Hp') as (_ & _ & _ & Hc & He).
    rewrite Hc. split; [lia|]. intros Hs. rewrite (He Hs). lia.
Qed.

(** X23. The term of a lock.  Under a configuration that is never patched
    and a clock that never runs backwards, no ticket is extended more than
    [lock_extend_max] times, and the holder's expiry time is never further
    than [lock_max_duration] ahead of the clock: whatever the holder did,
    the expiry check run at any instant more than [lock_max_duration] after
    the last call expires it. *)
Theorem lock_term_is_bounded cfg now w (Hreach : reachableUnder cfg now w) :
  (∀ t, t ∈ heap w →
     (0 ≤ Ticket.ExtendCount t ≤ 0 `max` LockExtendMax cfg)%Z) ∧
  (∀ h, currentLock w = Some h →
     (Ticket.ExpiresAt (deref w h) ≤ now + seconds (LockMaxDuration cfg))%Z ∧
     ∀ now', (now + seconds (LockMaxDuration cfg) < now')%Z →
       (CheckLockExpiry cfg now' w).2 = Some h).
Proof.
  pose proof (reachableUnder_bounded cfg now w Hreach) as Hb.
  pose proof (reachable_wf w (reachableAt_reachable _ _
                (reachableUnder_reachableAt _ _ _ Hreach))) as Hwf.
  split.
  - intros t [p Hp]%list_elem_of_lookup. by apply (Hb p t).
  - intros h Hc. destruct (wf_holder w Hwf h Hc) as (th & Hh & Hst & _).
    rewrite (deref_lookup w h th Hh).
    destruct (Hb h th Hh) as [_ Hexp]. specialize (Hexp Hst).
    split; [done|]. intros now' Hlate.
    unfold CheckLockExpiry. rewrite Hc, (deref_lookup w h th Hh).
    unfold Ticket.IsLockExpired, Ticket.IsGranted. rewrite Hst. simpl.
    by rewrite bool_decide_eq_true_2 by lia.
Qed.

Lemma reachableUnder_run cfg steps :
  ∀ now w, reachableUnder cfg now w → sameConfigb cfg steps = true →
           monotoneb now steps = true → freshUUIDs steps w →
           reachableUnder cfg (lastInstant now steps) (run steps w).
Proof.
  induction steps as [|[[cfg1 t1] op] steps IH]; intros t0 w Hreach Hcfg Hmono Hfresh;
    [done|].
  simpl in Hcfg, Hmono.
  apply andb_true_iff in Hcfg as [Hc1 Hcfg]. apply bool_decide_eq_true in Hc1.
  simpl in Hc1. subst cfg1.
  apply andb_true_iff in Hmono as [Hle Hmono]. apply bool_decide_eq_true in Hle.
  destruct Hfresh as [Hf Hfs].
  apply (IH t1 (exec cfg t1 op w)); [|done|done|done].
  by apply (reachableUnder_step cfg t0 t1).
Qed.

(** ** Extension restarts the expiry clock *)

(** Every call but [ExtendLock] runs the same with extension disabled. *)
Lemma exec_withoutExtension cfg now op w :
  isExtend op = false → exec cfg now op w = exec (withoutExtension cfg) now op w.
Proof. destruct op; try done. Qed.

Lemma exec_ExtendCount cfg now op w p t :
  wf w → freshUUID op w → isExtend op = false → heap w !! p = Some t →
  ∃ t', heap (exec cfg now op w) !! p = Some t' ∧
        Ticket.ExtendCount t' = Ticket.ExtendCount t.
Proof.
  intros Hwf Hfresh Hop Hp. rewrite (exec_withoutExtension cfg now op w Hop).
  destruct (exec_ticketStep (withoutExtension cfg) now op w p t Hwf Hfresh Hp)
    as (t' & Ht' & Hstep).
  exists t'. split; [done|].
  destruct Hstep as [t|t _|t _ Hable _|t _|t _|t _]; try done.
Qed.

Lemma run_ExtendCount steps :
  ∀ w p t, wf w → freshUUIDs steps w → extendFree steps = true →
    heap w !! p = Some t →
    wf (run steps w) ∧
    ∃ t', heap (run steps w) !! p = Some t' ∧
          Ticket.ExtendCount t' = Ticket.ExtendCount t.
Proof.
  induction steps as [|[[cfg now] op] steps IH]; intros w p t Hwf Hfresh Hfree Hp.
  - split; [done|]. by exists t.
  - destruct Hfresh as [Hf Hfresh]. simpl in Hfree.
    apply andb_true_iff in Hfree as [Hop Hfree]. apply negb_true_iff in Hop.
    destruct (exec_ExtendCount cfg now op w p t Hwf Hf Hop Hp) as (t1 & H1 & Hc1).
    destruct (IH (exec cfg now op w) p t1 (wf_exec cfg now op w Hwf Hf) Hfresh Hfree H1)
      as (Hwf' & t' & Ht' & Hc').
    split; [done|]. exists t'. split; [done|congruence].
Qed.

(** C5 (amended).  Every successful [ExtendLock] restarts the expiry clock
    at the instant [now] of the call: the holder then expires at [now + D]
    and its extend count has grown by one, where [D] is the duration that
    the code computes from [lock_max_duration] (that number of seconds
    whenever it fits in an [int64]).  In particular, when the ticket was
    granted at [g] by some call, extended a first time at [n1], and this
    call is its second extension, with any calls other than [ExtendLock]
    in between, then the deadline set at grant time was [g] plus the
    duration configured then, the extend count is now 2, and under an
    unchanged [lock_max_duration] the deadline has advanced by [now - g]
    from the one set at grant time. *)
Theorem extend_restarts_expiry cfg now id w w' p
    (Hreach : reachable w) (Hext : ExtendLock cfg now id w = (w', Ok p)) :
  let D := seconds (LockMaxDuration cfg) in
  currentLock w = Some p ∧
  Ticket.ExpiresAt (deref w' p) = (now + D)%Z ∧
  Ticket.ExtendCount (deref w' p) = (Ticket.ExtendCount (deref w p) + 1)%Z ∧
  ((-9223372036 ≤ LockMaxDuration cfg ≤ 9223372036)%Z →
   D = (LockMaxDuration cfg * Second)%Z) ∧
  ∀ cfgg g op w0 s1 cfg1 n1 id1 w1 s2,
    reachable w0 → freshUUID op w0 →
    let wg := exec cfgg g op w0 in
    currentLock wg = Some p → currentLock w0 ≠ Some p →
    freshUUIDs s1 wg → extendFree s1 = true →
    ExtendLock cfg1 n1 id1 (run s1 wg) = (w1, Ok p) →
    freshUUIDs s2 w1 → extendFree s2 = true →
    w = run s2 w1 →
    Ticket.ExpiresAt (deref wg p) = (g + seconds (LockMaxDuration cfgg))%Z ∧
    Ticket.ExpiresAt (deref w1 p) = (n1 + seconds (LockMaxDuration cfg1))%Z ∧
    Ticket.ExtendCount (deref w' p) = 2%Z ∧
    (LockMaxDuration cfgg = LockMaxDuration cfg →
     (Ticket.ExpiresAt (deref w' p) - Ticket.ExpiresAt (deref wg p) = now - g)%Z).
Proof.
  intros D.
  pose proof (reachable_wf w Hreach) as Hwf.
  destruct (ExtendLock_Ok_inv cfg now id w w' p Hwf Hext)
    as (tp & _ & _ & Hc & Hp & _ & _).
  pose proof (ExtendLock_Ok_deref cfg now id w w' p Hwf Hext) as Hd.
  rewrite Hd, (deref_lookup w p tp Hp).
  split_and!; try done.
  { intros Hfits. by apply seconds_fits. }
  intros cfgg g op w0 s1 cfg1 n1 id1 w1 s2 Hr0 Hf0 wg Hg Hnew Hf1 Hq1 Hext1 Hf2 Hq2 Hw.
  pose proof (reachable_wf w0 Hr0) as Hwf0.
  pose proof (wf_exec cfgg g op w0 Hwf0 Hf0) as Hwfg. fold wg in Hwfg.
  destruct (exec_grant cfgg g op w0 p Hwf0 Hf0 Hg Hnew) as (t0 & Hpg & Hcnt0).
  fold wg in Hpg.
  destruct (run_ExtendCount s1 wg p _ Hwfg Hf1 Hq1 Hpg) as (Hwfa & ta & Hpa & Hca).
  destruct (ExtendLock_Ok_inv cfg1 n1 id1 _ w1 p Hwfa Hext1)
    as (ta' & _ & _ & _ & Hpa' & _ & Hheap1 & _).
  assert (ta' = ta) as -> by congruence.
  assert (Hp1 : heap w1 !! p =
                  Some (Ticket.Extend n1 (seconds (LockMaxDuration cfg1)) ta)).
  { by rewrite Hheap1, list_lookup_alter_eq, Hpa. }
  pose proof (ExtendLock_Ok_wf cfg1 n1 id1 _ w1 _ Hwfa Hext1) as Hwf1.
  destruct (run_ExtendCount s2 w1 p _ Hwf1 Hf2 Hq2 Hp1) as (_ & tb & Hpb & Hcb).
  rewrite <- Hw in Hpb. assert (tb = tp) as -> by congruence.
  rewrite (deref_lookup wg p _ Hpg), (deref_lookup w1 p _ Hp1).
  simpl in *. split_and!; try done; [lia|].
  intros Heq. subst D. rewrite Heq. lia.
Qed.

Lemma extend_restarts_expiry_witness :
  let w0 := run registeredT1 init in
  let wg := exec Default 0 (OpRequestLock "u1" "T1" "th1") w0 in
  let w1 := (ExtendLock Default (seconds 1) "u1" (run pollAfterGrant wg)).1 in
  let w := run pollAfterExtend w1 in
  let w' := (ExtendLock Default (seconds 2) "u1" w).1 in
  reachable w ∧
  Ticket.ExpiresAt (deref wg 0) = (0 + seconds (LockMaxDuration Default))%Z ∧
  Ticket.ExpiresAt (deref w' 0) = (seconds 2 + seconds (LockMaxDuration Default))%Z ∧
  Ticket.ExtendCount (deref w' 0) = 2%Z ∧
  (Ticket.ExpiresAt (deref w' 0) - Ticket.ExpiresAt (deref wg 0) = seconds 2 - 0)%Z.
Proof.
  intros w0 wg w1 w w'.
  assert (Hr0 : reachable w0).
  { apply reachable_sample. vm_compute. reflexivity. }
  assert (Hf0 : freshUUID (OpRequestLock "u1" "T1" "th1") w0).
  { apply freshUUIDb_sound. vm_compute. reflexivity. }
  assert (Hr1 : reachable w1).
  { apply (reachable_step Default (seconds 1) (OpExtendLock "u1")); [|exact I].
    apply reachable_run; [by apply reachable_step|].
    apply freshUUIDsb_sound. vm_compute. reflexivity. }
  assert (Hr : reachable w).
  { apply reachable_run; [exact Hr1|].
    apply freshUUIDsb_sound. vm_compute. reflexivity. }
  split; [exact Hr|].
  assert (Hext : ExtendLock Default (seconds 2) "u1" w = (w', Ok 0)).
  { vm_compute. reflexivity. }
  destruct (extend_restarts_expiry Default (seconds 2) "u1" w w' 0 Hr Hext)
    as (_ & H2 & _ & _ & Hhist).
  destruct (Hhist Default 0%Z (OpRequestLock "u1" "T1" "th1") w0 pollAfterGrant
              Default (seconds 1) "u1" w1 pollAfterExtend Hr0 Hf0)
    as (Hg & _ & Hcnt & Hadv).
  - vm_compute. reflexivity.
  - vm_compute. discriminate.
  - apply freshUUIDsb_sound. vm_compute. reflexivity.
  - reflexivity.
  - vm_compute. reflexivity.
  - apply freshUUIDsb_sound. vm_compute. reflexivity.
  - reflexivity.
  - reflexivity.
  - split; [exact Hg|]. split; [exact H2|]. split; [exact Hcnt|].
    apply Hadv. reflexivity.
Defined.

(** ** Durations that wrap around *)

(** With a [ticket_ttl] of 9223372037 the TTL of the sweep is negative: the
    sweep expires both waiting tickets of the sample, the one enqueued at
    the very instant of the sweep included. *)
Example sweep_with_wrapped_ttl :
  let w := run staleAndFresh init in
  (seconds (TicketTTL overflowing) < 0)%Z ∧
  (ExpireWaitingTickets overflowing (seconds 100) w).2 = [1; 2] ∧
  queue (ExpireWaitingTickets overflowing (seconds 100) w).1 = [].
Proof. by vm_compute. Qed.

(** With a [lock_max_duration] of 9223372037 a lock granted at instant 0
    expires in the past, and the expiry check takes it back at once. *)
Example grant_with_wrapped_duration :
  let w := run registeredT1 init in
  let wg := (RequestLock overflowing 0 "u1" "T1" "th1" w).1 in
  currentLock wg = Some 0 ∧
  (Ticket.ExpiresAt (deref wg 0) < 0)%Z ∧
  (CheckLockExpiry overflowing 1 wg).2 = Some 0.
Proof. by vm_compute. Qed.

(** With a [lock_grace_period] of 9223372037 the grace period is negative:
    the check takes the lock back at the very instant of the grant. *)
Example grace_with_wrapped_period :
  let wg := run grantedAtZero init in
  currentLock wg = Some 0 ∧
  Ticket.GrantedAt (deref wg 0) = 0%Z ∧
  (CheckGracePeriod overflowing 0 wg).2 = Some 0.
Proof. by vm_compute. Qed.

(** With a [heartbeat_timeout] of 9223372037 the timeout is negative: the
    heartbeat job takes offline the tools that are online, whenever their
    last heartbeat, and removes their tickets. *)
Example heartbeats_with_wrapped_timeout :
  let w := run holderAndWaiter init in
  line w ≠ [] ∧
  line (checkHeartbeats overflowing 0 w) = [] ∧
  CountOnlineTools (checkHeartbeats overflowing 0 w) = 0%nat.
Proof. by vm_compute. Qed.

(** * Sample executions of the further properties *)

Lemma lock_never_idle_witness :
  let w := run registeredT1 init in
  reachable w ∧ currentLock w = None ∧
  queue w = [] ∧ tickets w = ∅ ∧ threadKeys w = ∅.
Proof.
  intros w.
  assert (Hr : reachable w).
  { sample. }
  assert (Hf : currentLock w = None).
  { vm_compute. reflexivity. }
  split; [exact Hr|]. split; [exact Hf|].
  exact (lock_never_idle w Hr Hf).
Defined.

Lemma indices_hold_live_tickets_witness :
  let w := run holderAndWaiter init in
  reachable w ∧
  size (tickets w) = LockManager.QueueLength w + Z.to_nat (holderCount w) ∧
  size (threadKeys w) = size (tickets w).
Proof.
  intros w.
  assert (Hr : reachable w).
  { sample. }
  split; [exact Hr|].
  destruct (indices_hold_live_tickets w Hr) as (Hs & Hk & _).
  split; [exact Hs|exact Hk].
Defined.

Lemma one_live_ticket_per_key_witness :
  let w := run holderAndWaiter init in
  reachable w ∧ managed w 0 ∧ managed w 1 ∧
  (Ticket.Key (deref w 0) = Ticket.Key (deref w 1) → 0 = 1).
Proof.
  intros w.
  assert (Hr : reachable w).
  { sample. }
  assert (H0 : managed w 0).
  { left. vm_compute. reflexivity. }
  assert (H1 : managed w 1).
  { right. left. apply (bool_decide_unpack _). vm_compute. exact I. }
  split; [exact Hr|]. split; [exact H0|]. split; [exact H1|].
  exact (proj1 (one_live_ticket_per_key w 0 1 Hr H0 H1)).
Defined.

Lemma position_is_index_in_line_witness :
  let w := run holderAndWaiter init in
  reachable w ∧
  ∀ i p, line w !! i = Some p →
         getQueuePosition (Ticket.TicketID (deref w p)) w = Z.of_nat i.
Proof.
  intros w.
  assert (Hr : reachable w).
  { sample. }
  split; [exact Hr|].
  exact (proj1 (position_is_index_in_line w Hr)).
Defined.

Lemma RequestLock_new_ticket_witness :
  let w := run registeredT1 init in
  reachable w ∧
  (∀ t, t ∈ heap w → Ticket.TicketID t ≠ "u1") ∧
  ∃ w', RequestLock Default 0 "u1" "T1" "th1" w = (w', Ok (0, 0%Z)) ∧
        line w' = [0].
Proof.
  intros w.
  assert (Hr : reachable w).
  { sample. }
  assert (Hf : ∀ t, t ∈ heap w → Ticket.TicketID t ≠ "u1").
  { apply (freshUUIDb_sound (OpRequestLock "u1" "T1" "th1") w).
    vm_compute. reflexivity. }
  split; [exact Hr|]. split; [exact Hf|].
  destruct (RequestLock_new_ticket Default 0 "u1" "T1" "th1" w Hr Hf) as [_ H].
  destruct H as (w' & Heq & Hline & _).
  - vm_compute. reflexivity.
  - vm_compute. reflexivity.
  - exists w'. split; [exact Heq|exact Hline].
Defined.

Lemma ticket_lifecycle_witness :
  let w := run holderAndWaiter init in
  reachable w ∧ freshUUIDs requestThenReleases w ∧
  heap w !! 0 = Some (deref w 0) ∧
  ∃ t', heap (run requestThenReleases w) !! 0 = Some t' ∧
        sameIdentity t' (deref w 0) ∧
        statusRank (Ticket.Status (deref w 0)) ≤ statusRank (Ticket.Status t').
Proof.
  intros w.
  assert (Hr : reachable w).
  { sample. }
  assert (Hf : freshUUIDs requestThenReleases w).
  { apply freshUUIDsb_sound. vm_compute. reflexivity. }
  assert (Hp : heap w !! 0 = Some (deref w 0)).
  { vm_compute. reflexivity. }
  split; [exact Hr|]. split; [exact Hf|]. split; [exact Hp|].
  destruct (ticket_lifecycle requestThenReleases w 0 (deref w 0) Hr Hf Hp)
    as (t' & Ht' & Hid & _ & Hrank & _).
  exists t'. split; [exact Ht'|]. split; [exact Hid|exact Hrank].
Defined.

Lemma ExpireCurrentLock_effect_witness :
  let w := run holderAndWaiter init in
  let w' := (ExpireCurrentLock Default 10 "manual" w).1 in
  reachable w ∧
  (ExpireCurrentLock Default 10 "manual" w).2 = Some 0 ∧
  deref w' 0 = Ticket.Expire (deref w 0) ∧
  currentLock w' = head (queue w).
Proof.
  intros w w'.
  assert (Hr : reachable w).
  { sample. }
  split; [exact Hr|].
  destruct (ExpireCurrentLock_effect Default 10 "manual" w Hr) as [_ H].
  destruct (H 0) as (Hret & Hd & _ & _ & _ & Hc & _).
  - vm_compute. reflexivity.
  - split; [exact Hret|]. split; [exact Hd|exact Hc].
Defined.

Lemma CheckLock_poll_witness :
  let w := run holderAndWaiter init in
  reachable w ∧
  ∃ w', CheckLock Default 3 "u1" w = (w', Ok (1, getQueuePosition "u1" w)) ∧
        queue w' = queue w.
Proof.
  intros w.
  assert (Hr : reachable w).
  { sample. }
  split; [exact Hr|].
  destruct (CheckLock_poll Default 3 "u1" w Hr) as [_ H].
  destruct (H 1) as (w' & Heq & _ & _ & Hq & _).
  - vm_compute. reflexivity.
  - exists w'. split; [exact Heq|exact Hq].
Defined.

Lemma CheckGracePeriod_decision_witness :
  let w := run holderAndWaiter init in
  reachable w ∧ currentLock w = Some 0 ∧
  ∀ cfg1 now1 now2, (Ticket.GrantedAt (deref w 0) < now1)%Z →
    CheckGracePeriod Default now2 (CheckLock cfg1 now1 (Ticket.TicketID (deref w 0)) w).1 =
      ((CheckLock cfg1 now1 (Ticket.TicketID (deref w 0)) w).1, None).
Proof.
  intros w.
  assert (Hr : reachable w).
  { sample. }
  assert (Hh : currentLock w = Some 0).
  { vm_compute. reflexivity. }
  split; [exact Hr|]. split; [exact Hh|].
  exact (proj1 (proj2 (proj2 (CheckGracePeriod_decision Default 0 w 0 Hr Hh)))).
Defined.

Lemma CheckLockExpiry_decision_witness :
  let w := run holderAndWaiter init in
  reachable w ∧ currentLock w = Some 0 ∧
  ((seconds 25 ≤ Ticket.ExpiresAt (deref w 0))%Z →
     CheckLockExpiry Default (seconds 25) w = (w, None)) ∧
  RemainingTime (seconds 25) (deref w 0) =
    (0 `max` (Ticket.ExpiresAt (deref w 0) - seconds 25))%Z.
Proof.
  intros w.
  assert (Hr : reachable w).
  { sample. }
  assert (Hh : currentLock w = Some 0).
  { vm_compute. reflexivity. }
  split; [exact Hr|]. split; [exact Hh|].
  destruct (CheckLockExpiry_decision Default (seconds 25) w 0 Hr Hh) as (_ & Hq & Hrem & _).
  split; [exact Hq|exact Hrem].
Defined.

Lemma RemoveToolTickets_effect_witness :
  let w := run holderAndWaiter init in
  let w' := (RemoveToolTickets Default 3 "C" w).1 in
  reachable w ∧
  line w' = filter (λ p, toolOf w p ≠ "C") (line w) ∧
  currentLock w' = head (line w').
Proof.
  intros w w'.
  assert (Hr : reachable w).
  { sample. }
  split; [exact Hr|].
  destruct (RemoveToolTickets_effect Default 3 "C" w Hr) as (_ & Hline & Hc & _).
  split; [exact Hline|exact Hc].
Defined.


Lemma registry_only_grows_witness :
  let w := run holderAndWaiter init in
  reachable w ∧ freshUUIDs requestThenReleases w ∧
  (∀ k tool, tools w !! k = Some tool → Tool.ToolID tool = k) ∧
  (∀ k tool, tools w !! k = Some tool →
     ∃ tool', tools (run requestThenReleases w) !! k = Some tool' ∧
              Tool.RegisteredAt tool' = Tool.RegisteredAt tool).
Proof.
  intros w.
  assert (Hr : reachable w).
  { sample. }
  assert (Hf : freshUUIDs requestThenReleases w).
  { apply freshUUIDsb_sound. vm_compute. reflexivity. }
  split; [exact Hr|]. split; [exact Hf|].
  destruct (registry_only_grows requestThenReleases w Hr Hf) as (Hk & Hg & _).
  split; [exact Hk|exact Hg].
Defined.

Lemma Register_once_witness :
  let w := run unregisterWhileQueued init in
  reachable w ∧
  Register 5 "A" w = (w, Err ErrToolAlreadyRegistered) ∧
  ∃ w', Register 5 "B" w =
          (w', Ok {| Tool.ToolID := "B"; Tool.RegisteredAt := 1;
                     Tool.LastHeartbeat := 5; Tool.Status := Tool.ToolStatusOnline |}) ∧
        Register 6 "B" w' = (w', Err ErrToolAlreadyRegistered).
Proof.
  intros w.
  assert (Hr : reachable w).
  { sample. }
  split; [exact Hr|].
  split.
  - destruct (Register_once 5 6 "A" w Hr) as [H _]. apply H. vm_compute. reflexivity.
  - destruct (Register_once 5 6 "B" w Hr) as [_ H].
    destruct H as (w' & Heq & _ & _ & _ & _ & _ & _ & _ & _ & Hagain).
    + vm_compute. reflexivity.
    + exists w'. split; [exact Heq|exact Hagain].
Defined.

Lemma Unregister_then_back_witness :
  let w := run registeredT1 init in
  let w1 := (Unregister "T1" w).1 in
  tools w !! "T1" = Some (Tool.NewTool 0 "T1") ∧
  IsOnline "T1" w1 = false ∧
  (Heartbeat 7 "T1" w1).2 = Ok (Tool.UpdateHeartbeat 7 (Tool.NewTool 0 "T1")).
Proof.
  intros w w1.
  assert (Hreg : tools w !! "T1" = Some (Tool.NewTool 0 "T1")).
  { vm_compute. reflexivity. }
  split; [exact Hreg|].
  destruct (Unregister_then_back Default 7 "T1" w _ Hreg)
    as (_ & _ & Hoff & _ & _ & _ & _ & _ & _ & _ & Hhb & _).
  split; [exact Hoff|exact Hhb].
Defined.

Lemma returned_position_tells_status_witness :
  let w := run holderAndWaiter init in
  reachable w ∧
  ∀ id w' p pos, CheckLock Default 3 id w = (w', Ok (p, pos)) →
    (pos = 0%Z ∧ Ticket.Status (deref w' p) = TicketStatusGranted ∧
     currentLock w' = Some p) ∨
    ((1 ≤ pos)%Z ∧ Ticket.Status (deref w' p) = TicketStatusWaiting ∧
     queue w' !! (Z.to_nat pos - 1) = Some p).
Proof.
  intros w.
  assert (Hr : reachable w).
  { sample. }
  split; [exact Hr|].
  exact (proj1 (returned_position_tells_status Default 3 w Hr)).
Defined.

Lemma GetRecentEvents_newest_first_witness :
  Forall (λ e, LockEventLog.Timestamp e ≠ 0%Z) sampleEvents ∧
  GetRecentEvents 1 (addAll sampleEvents NewRecentEvents) =
    Some (take (Z.to_nat 1 `min` recentEventsBufferSize) (reverse sampleEvents)).
Proof.
  assert (Hts : Forall (λ e, LockEventLog.Timestamp e ≠ 0%Z) sampleEvents).
  { repeat constructor; simpl; lia. }
  split; [exact Hts|].
  apply (proj1 (GetRecentEvents_newest_first sampleEvents 1 Hts)). lia.
Defined.

Lemma durations_never_negative_witness :
  let w := run monotoneRun init in
  reachableAt 7 w ∧ ∀ e, e ∈ events w → (0 ≤ durationOf e)%Z.
Proof.
  intros w.
  assert (Hr : reachableAt 7 w).
  { change (reachableAt (lastInstant 0 monotoneRun) (run monotoneRun init)).
    apply reachableAt_run.
    - apply reachableAt_init.
    - vm_compute. reflexivity.
    - apply freshUUIDsb_sound. vm_compute. reflexivity. }
  split; [exact Hr|].
  exact (proj1 (durations_never_negative 7 w Hr)).
Defined.

Lemma lock_term_is_bounded_witness :
  let w := run extendedTwice init in
  reachableUnder Default (seconds 25) w ∧
  ∀ t, t ∈ heap w →
       (0 ≤ Ticket.ExtendCount t ≤ 0 `max` LockExtendMax Default)%Z.
Proof.
  intros w.
  assert (Hr : reachableUnder Default (seconds 25) w).
  { change (reachableUnder Default (lastInstant 0 extendedTwice) (run extendedTwice init)).
    apply reachableUnder_run.
    - apply reachableUnder_init.
    - vm_compute. reflexivity.
    - vm_compute. reflexivity.
    - apply freshUUIDsb_sound. vm_compute. reflexivity. }
  split; [exact Hr|].
  exact (proj1 (lock_term_is_bounded Default (seconds 25) w Hr)).
Defined.
